(** * A shallow embedding of the Cool lexer ([src/lexer/src/main.c])

    The scanner is a single C file.  Its state is a [ReadBuffer] (a 4096-byte
    block read from a [FILE], a cursor, the number of valid bytes and a line
    counter); its extractors read characters through [next_char],
    [next_char_lookup] and [current_char_lookup] and either return or call
    [exit] with one of the [LEXER_ERROR_*] codes.

    Conventions of the embedding.
    - A byte of the file is a [Z] in [0, 255].  The C type [char] is the
      signed 8-bit type of the platforms the program terminates on (with an
      unsigned [char] the test [current_char == EOF] of the driver is never
      true), so a [char] is a [Z] in [-128, 127]; the conversion from
      [uint8_t] is [char_of_byte].  [EOF] is [-1], which is also the [char]
      of the byte 255: the program cannot tell that byte from the end of the
      input.  The general statements about the stream say which bytes they
      need to be different from 255 ([byte_ok]).
    - The program never calls [setlocale], so [isalnum], [isdigit] and
      [tolower] are those of the C locale.
    - [name_buffer] is held as the list of characters stored so far; the
      index [current_buffer_pos] is its length.  No stored character is the
      null character (names hold [isname] characters, [extract_string] exits
      on a null character), so the C string read back from the static array
      is exactly that list.
    - [exit (code)] is the outcome [Exit code]; messages printed on [stdout]
      are not part of the model, and neither are the failures of [fopen] and
      of the reads.  The lines written with [fprintf] to the [-lex] file are
      the [out_line] records of the driver's output.
    - Loops take a fuel argument computed from the bytes that remain to be
      read; running out of it is the separate outcome [OutOfFuel], which
      never occurs ([lexer_ends]). *)

From Stdlib Require Import ZArith String Ascii List Bool Lia.
From Stdlib.Strings Require Import Byte.
Import ListNotations.
Open Scope Z_scope.

(** ** Characters *)

Declare Scope cchar_scope.
Delimit Scope cchar_scope with c.

Definition cchar_parse (l : list Byte.byte) : option Z :=
  match l with
  | [b] => Some (Z.of_N (Byte.to_N b))
  | _ => None
  end.

Definition cchar_print (z : Z) : option (list Byte.byte) := None.

String Notation Z cchar_parse cchar_print : cchar_scope.

(** The characters that have no convenient literal. *)
Definition NUL : Z := 0.
Definition NEWLINE : Z := 10.      (* line feed *)
Definition DQUOTE : Z := 34.       (* double quote *)
Definition BACKSLASH : Z := 92.    (* backslash *)
Definition EOF : Z := -1.

(** [uint8_t] to [char] (two's complement, 8 bits). *)
Definition char_of_byte (b : Z) : Z := if b <? 128 then b else b - 256.

(** The code of every character of a Rocq string, as a C string without its
    terminator. *)
Fixpoint cstr (s : string) : list Z :=
  match s with
  | EmptyString => []
  | String a s' => Z.of_N (N_of_ascii a) :: cstr s'
  end.

(** <ctype.h>, "C" locale. *)
Definition isdigit (c : Z) : bool := ("0"%c <=? c) && (c <=? "9"%c).
Definition isupper (c : Z) : bool := ("A"%c <=? c) && (c <=? "Z"%c).
Definition islower (c : Z) : bool := ("a"%c <=? c) && (c <=? "z"%c).
Definition isalnum (c : Z) : bool := isdigit c || isupper c || islower c.
Definition tolower (c : Z) : Z := if isupper c then c + 32 else c.

(** ** Constants and return codes (main.c, lines 8-22) *)

Definition INPUT_FILE_BLOCK_SIZE : nat := 4096.
Definition LITERAL_STRING_MAX_SIZE : nat := 1024.
Definition GENERAL_NAME_MAX_SIZE : nat := 1024.

Definition LEXER_OK : Z := 0.
Definition LEXER_ERROR_INCORRECT_USAGE : Z := 1.
Definition LEXER_ERROR_FILE_IO : Z := 2.
Definition LEXER_ERROR_IDENTIFIER_NAME_TOO_LONG : Z := 3.
Definition LEXER_ERROR_STRING_LITERAL_TOO_LONG : Z := 4.
Definition LEXER_ERROR_WRONG_INTEGER32_FORMAT : Z := 5.
Definition LEXER_ERROR_UPPERCASE_BOOLEAN_KEYWORD : Z := 6.
Definition LEXER_ERROR_INVALID_CHARACTER : Z := 7.
Definition LEXER_ERROR_INVALID_STRING_CHARACTER : Z := 8.
Definition LEXER_ERROR_NON_ESCAPED_NEWLINE : Z := 9.

Definition INT32_MAX : Z := 2147483647.

(** ** The underlying file *)

(** A [FILE] opened for reading: its bytes and the read offset. *)
Record FILE : Type := mkFILE {
  file_data : list Z;
  file_offset : nat
}.

(** [fread (content, 1, n, fp)]: the bytes read and the advanced stream. *)
Definition fread (n : nat) (fp : FILE) : list Z * FILE :=
  let got := firstn n (skipn (file_offset fp) (file_data fp)) in
  (got, mkFILE (file_data fp) (file_offset fp + length got)).

(** [fgetc (fp)]: the next byte as an [int], or [EOF]. *)
Definition fgetc (fp : FILE) : Z * FILE :=
  match nth_error (file_data fp) (file_offset fp) with
  | Some b => (b, mkFILE (file_data fp) (S (file_offset fp)))
  | None => (EOF, fp)
  end.

(** [fgetpos] / [fsetpos]. *)
Definition fgetpos (fp : FILE) : nat := file_offset fp.
Definition fsetpos (fp : FILE) (pos : nat) : FILE := mkFILE (file_data fp) pos.

(** ** ReadBuffer (main.c, lines 32-117) *)

Record ReadBuffer : Type := mkReadBuffer {
  fp : FILE;
  content : list Z;
  current_position : nat;
  total_size : nat;
  current_line : Z
}.

(** [size_t] is 64 bits wide. *)
Definition SIZE_MODULUS : Z := 2 ^ 64.

(** Storing the bytes [got] at the start of the block keeps the rest of it. *)
Definition store_block (got old : list Z) : list Z :=
  got ++ skipn (length got) old.

Definition init_buffer (in_file : FILE) : ReadBuffer :=
  let '(got, fp') := fread INPUT_FILE_BLOCK_SIZE in_file in
  mkReadBuffer fp'
               (store_block got (repeat 0 INPUT_FILE_BLOCK_SIZE))
               0 (length got) 1.

Definition next_char (buf : ReadBuffer) : Z * ReadBuffer :=
  let refilled :=
    if Nat.eqb (current_position buf) (total_size buf) then
      let '(got, fp') := fread INPUT_FILE_BLOCK_SIZE (fp buf) in
      mkReadBuffer fp' (store_block got (content buf)) 0 (length got)
                   (current_line buf)
    else buf in
  if Nat.eqb (current_position buf) (total_size buf)
     && Nat.eqb (total_size refilled) 0
  then (EOF, refilled)
  else
    let b := nth (current_position refilled) (content refilled) 0 in
    let line :=
      if b =? NEWLINE then (current_line refilled + 1) mod SIZE_MODULUS
      else current_line refilled in
    (char_of_byte b,
     mkReadBuffer (fp refilled) (content refilled)
                  (S (current_position refilled)) (total_size refilled) line).

Definition next_char_lookup (buf : ReadBuffer) : Z * ReadBuffer :=
  if Nat.eqb (current_position buf) (total_size buf) then
    let old_pos := fgetpos (fp buf) in
    let '(i, fp1) := fgetc (fp buf) in
    (* [char next_char = fgetc (...)]: the [int] is narrowed to [char] *)
    let next_char := if i =? EOF then EOF else char_of_byte i in
    if next_char =? EOF then
      (EOF,
       mkReadBuffer fp1 (content buf) (current_position buf)
                    (total_size buf) (current_line buf))
    else
      (next_char,
       mkReadBuffer (fsetpos fp1 old_pos) (content buf) (current_position buf)
                    (total_size buf) (current_line buf))
  else (char_of_byte (nth (current_position buf) (content buf) 0), buf).

Definition current_char_lookup (buf : ReadBuffer) : Z * ReadBuffer :=
  if Nat.eqb (current_position buf) 0 then (EOF, buf)
  else (char_of_byte (nth (current_position buf - 1) (content buf) 0), buf).

(** ** Character classes (main.c, lines 119-131) *)

Definition FORMFEED : Z := 12.
Definition CARRIAGE_RETURN : Z := 13.
Definition TAB : Z := 9.
Definition VTAB : Z := 11.

Definition iswhitespace (c : Z) : bool :=
  (c =? " "%c) || (c =? NEWLINE) || (c =? FORMFEED)
  || (c =? CARRIAGE_RETURN) || (c =? TAB) || (c =? VTAB).

Definition isname (c : Z) : bool := isalnum c || (c =? "_"%c).

(** ** Outcomes of the extractors *)

Inductive outcome (A : Type) : Type :=
| Ok (a : A) (buf : ReadBuffer)
| Exit (code : Z)
| OutOfFuel.

Arguments Ok {A} a buf.
Arguments Exit {A} code.
Arguments OutOfFuel {A}.

(** The bytes that are still to be consumed: the rest of the block and the
    rest of the file. *)
Definition pending (buf : ReadBuffer) : list Z :=
  firstn (total_size buf - current_position buf)
         (skipn (current_position buf) (content buf))
  ++ skipn (file_offset (fp buf)) (file_data (fp buf)).

(** ** extract_general_name (main.c, lines 133-157) *)

Fixpoint extract_general_name_loop (fuel : nat) (read_buffer : ReadBuffer)
    (name_buffer : list Z) : outcome (list Z) :=
  match fuel with
  | O => OutOfFuel
  | S fuel' =>
      let '(c, buf1) := next_char_lookup read_buffer in
      if negb (isname c) then Ok name_buffer buf1
      else if Nat.eqb (length name_buffer) GENERAL_NAME_MAX_SIZE then
        Exit LEXER_ERROR_IDENTIFIER_NAME_TOO_LONG
      else
        let '(c', buf2) := next_char buf1 in
        extract_general_name_loop fuel' buf2 (name_buffer ++ [c'])
  end.

Definition extract_general_name (read_buffer : ReadBuffer)
    : outcome (list Z) :=
  let '(c0, buf0) := current_char_lookup read_buffer in
  extract_general_name_loop GENERAL_NAME_MAX_SIZE buf0 [c0].

(** ** extract_string (main.c, lines 159-212) *)

Fixpoint extract_string_loop (fuel : nat) (read_buffer : ReadBuffer)
    (name_buffer : list Z) : outcome (list Z) :=
  match fuel with
  | O => OutOfFuel
  | S fuel' =>
      if Nat.eqb (length name_buffer) LITERAL_STRING_MAX_SIZE then
        Exit LEXER_ERROR_STRING_LITERAL_TOO_LONG
      else
        let '(previous_char, buf1) := current_char_lookup read_buffer in
        let '(current_char, buf2) := next_char buf1 in
        if negb (previous_char =? BACKSLASH) && (current_char =? DQUOTE) then
          Ok name_buffer buf2
        else if (current_char =? NUL) || (current_char =? EOF) then
          Exit LEXER_ERROR_INVALID_STRING_CHARACTER
        else
          let '(la, buf3) := next_char_lookup buf2 in
          if la =? NEWLINE then
            if current_char =? BACKSLASH then
              let '(_, buf4) := next_char buf3 in
              extract_string_loop fuel' buf4 name_buffer
            else Exit LEXER_ERROR_NON_ESCAPED_NEWLINE
          else extract_string_loop fuel' buf3 (name_buffer ++ [current_char])
  end.

Definition extract_string (read_buffer : ReadBuffer) : outcome (list Z) :=
  extract_string_loop (S (length (pending read_buffer))) read_buffer [].

(** ** extract_terminal (main.c, lines 214-306) *)

Definition extract_terminal (read_buffer : ReadBuffer)
    : option string * ReadBuffer :=
  let '(c, buf0) := current_char_lookup read_buffer in
  if c =? "("%c then (Some "lparen"%string, buf0)
  else if c =? ")"%c then (Some "rparen"%string, buf0)
  else if c =? "*"%c then (Some "times"%string, buf0)
  else if c =? "+"%c then (Some "plus"%string, buf0)
  else if c =? ","%c then (Some "comma"%string, buf0)
  else if c =? "-"%c then (Some "minus"%string, buf0)
  else if c =? "."%c then (Some "dot"%string, buf0)
  else if c =? "/"%c then (Some "divide"%string, buf0)
  else if c =? ":"%c then (Some "colon"%string, buf0)
  else if c =? ";"%c then (Some "semi"%string, buf0)
  else if c =? "<"%c then
    let '(la, buf1) := next_char_lookup buf0 in
    if la =? "-"%c then
      let '(_, buf2) := next_char buf1 in (Some "larrow"%string, buf2)
    else if la =? "="%c then
      let '(_, buf2) := next_char buf1 in (Some "le"%string, buf2)
    else (Some "lt"%string, buf1)
  else if c =? "="%c then
    let '(la, buf1) := next_char_lookup buf0 in
    if la =? ">"%c then
      let '(_, buf2) := next_char buf1 in (Some "rarrow"%string, buf2)
    else (Some "equals"%string, buf1)
  else if c =? "@"%c then (Some "at"%string, buf0)
  else if c =? "{"%c then (Some "lbrace"%string, buf0)
  else if c =? "}"%c then (Some "rbrace"%string, buf0)
  else if c =? "~"%c then (Some "tilde"%string, buf0)
  else (None, buf0).

(** ** check_keyword (main.c, lines 308-329) *)

(** [strcmp]: characters are compared as [unsigned char]; the end of a list
    is the terminating null character. *)
Definition uchar (c : Z) : Z := c mod 256.

Fixpoint strcmp (s1 s2 : list Z) : Z :=
  match s1, s2 with
  | [], [] => 0
  | [], c2 :: _ => 0 - uchar c2
  | c1 :: _, [] => uchar c1
  | c1 :: s1', c2 :: s2' =>
      if uchar c1 =? uchar c2 then strcmp s1' s2' else uchar c1 - uchar c2
  end.

Definition keywords : list string :=
  ["class"; "else"; "false"; "fi"; "if";
   "in"; "inherits"; "isvoid"; "let"; "loop";
   "pool"; "then"; "while"; "case"; "esac";
   "new"; "of"; "not"; "true"]%string.

Fixpoint find_keyword (text_lower : list Z) (kws : list string)
    : option string :=
  match kws with
  | [] => None
  | k :: kws' =>
      if strcmp text_lower (cstr k) =? 0 then Some k
      else find_keyword text_lower kws'
  end.

Definition check_keyword (text : list Z) : option string :=
  let text_lower := map tolower text in
  find_keyword text_lower keywords.

(** ** check_integer (main.c, lines 331-356) *)

Definition UINT32_MODULUS : Z := 2 ^ 32.

(** Wrap-around of [int32_t] (and [int]) arithmetic. *)
Definition wrap_int32 (x : Z) : Z :=
  (x + 2 ^ 31) mod UINT32_MODULUS - 2 ^ 31.

(** The conversion loop, from the last character to the first:
    [num += (text[i] - 48) * power] on a [uint32_t], [power *= 10] on an
    [int32_t]. *)
Fixpoint convert_loop (text_rev : list Z) (power num : Z) : Z :=
  match text_rev with
  | [] => num
  | c :: rest =>
      convert_loop rest (wrap_int32 (power * 10))
                   ((num + wrap_int32 ((c - 48) * power)) mod UINT32_MODULUS)
  end.

Definition check_integer (text : list Z) : Z :=
  let text_size := length text in
  (* Check 1 *)
  if Nat.ltb 10 text_size then 0
  (* Check 2 *)
  else if negb (forallb isdigit text) then 0
  (* Check 3 *)
  else if Nat.eqb text_size 10 && (nth 0 text 0 >? "2"%c) then 0
  else
    let num := convert_loop (rev text) 1 0 in
    (* Check 4 *)
    if num <=? INT32_MAX then 1 else 0.

(** ** remove_comments (main.c, lines 358-387) *)

(** [do current_char = next_char (...); while (current_char != '\n' &&
    current_char != EOF)]. *)
Fixpoint line_comment_loop (fuel : nat) (read_buffer : ReadBuffer)
    : outcome unit :=
  match fuel with
  | O => OutOfFuel
  | S fuel' =>
      let '(current_char, buf1) := next_char read_buffer in
      if negb (current_char =? NEWLINE) && negb (current_char =? EOF)
      then line_comment_loop fuel' buf1
      else Ok tt buf1
  end.

(** [while (current_char != EOF) { if (current_char == '*' &&
    next_char_lookup (...) == ')') break; current_char = next_char (...); }];
    the lookup is only made when [current_char] is an asterisk. *)
Fixpoint block_comment_loop (fuel : nat) (read_buffer : ReadBuffer)
    (current_char : Z) : outcome unit :=
  match fuel with
  | O => OutOfFuel
  | S fuel' =>
      if current_char =? EOF then Ok tt read_buffer
      else if current_char =? "*"%c then
        let '(la, buf1) := next_char_lookup read_buffer in
        if la =? ")"%c then Ok tt buf1
        else
          let '(c, buf2) := next_char buf1 in
          block_comment_loop fuel' buf2 c
      else
        let '(c, buf1) := next_char read_buffer in
        block_comment_loop fuel' buf1 c
  end.

Definition remove_comments (read_buffer : ReadBuffer) : outcome Z :=
  let '(current_char, buf0) := current_char_lookup read_buffer in
  let '(is_line, buf1) :=
    if current_char =? "-"%c then
      let '(la, b) := next_char_lookup buf0 in (la =? "-"%c, b)
    else (false, buf0) in
  if is_line then
    match line_comment_loop (S (length (pending buf1))) buf1 with
    | Ok _ buf2 => Ok 1 buf2
    | Exit code => Exit code
    | OutOfFuel => OutOfFuel
    end
  else
    let '(is_block, buf2) :=
      if current_char =? "("%c then
        let '(la, b) := next_char_lookup buf1 in (la =? "*"%c, b)
      else (false, buf1) in
    if is_block then
      match block_comment_loop (2 + length (pending buf2)) buf2 current_char
      with
      | Ok _ buf3 => let '(_, buf4) := next_char buf3 in Ok 1 buf4
      | Exit code => Exit code
      | OutOfFuel => OutOfFuel
      end
    else Ok 0 buf2.

(** ** lexer (main.c, lines 389-498) *)

(** One line group written to the [-lex] file. *)
Inductive out_line : Type :=
| LineNumber (n : Z)        (* the line counter, then a newline *)
| Name (s : string)         (* a string constant of the program *)
| Text (t : list Z).        (* the contents of [name_buffer] *)

(** How a scan ends: the main loop is left at end of file, or the process
    exits with a code (the lines written so far stay in the file). *)
Inductive run : Type :=
| Finished (out : list out_line)
| Exited (code : Z) (out : list out_line)
| NoFuel.

(** The classification that follows [extract_general_name] (lines 451-494):
    an exit code, or the lines written for the token. *)
Definition classify_name (name_buffer : list Z) : Z + list out_line :=
  if isdigit (nth 0 name_buffer 0) then
    if check_integer name_buffer =? 1 then
      inr [Name "integer"; Text name_buffer]
    else inl LEXER_ERROR_WRONG_INTEGER32_FORMAT
  else
    match check_keyword name_buffer with
    | Some keyword =>
        if (negb (strcmp (cstr keyword) (cstr "true") =? 0)
            || negb (strcmp (cstr keyword) (cstr "false") =? 0))
           && (("A"%c <=? nth 0 name_buffer 0)
               && (nth 0 name_buffer 0 <=? "Z"%c))
        then inl LEXER_ERROR_UPPERCASE_BOOLEAN_KEYWORD
        else inr [Name keyword]
    | None =>
        if ("A"%c <=? nth 0 name_buffer 0) && (nth 0 name_buffer 0 <=? "Z"%c)
        then inr [Name "type"; Text name_buffer]
        else inr [Name "identifier"; Text name_buffer]
    end.

Fixpoint lexer_loop (fuel : nat) (read_buffer : ReadBuffer)
    (out : list out_line) : run :=
  match fuel with
  | O => NoFuel
  | S fuel' =>
      let '(current_char, buf1) := next_char read_buffer in
      if current_char =? EOF then Finished out
      else if iswhitespace current_char then lexer_loop fuel' buf1 out
      else
        match remove_comments buf1 with
        | OutOfFuel => NoFuel
        | Exit code => Exited code out
        | Ok removed buf2 =>
            if negb (removed =? 0) then lexer_loop fuel' buf2 out
            else
              let out1 := out ++ [LineNumber (current_line buf2)] in
              if current_char =? DQUOTE then
                match extract_string buf2 with
                | OutOfFuel => NoFuel
                | Exit code => Exited code out1
                | Ok name_buffer buf3 =>
                    lexer_loop fuel' buf3
                               (out1 ++ [Name "string"; Text name_buffer])
                end
              else if negb (isname current_char) then
                let '(terminal_name, buf3) := extract_terminal buf2 in
                match terminal_name with
                | None => Exited LEXER_ERROR_INVALID_CHARACTER out1
                | Some t => lexer_loop fuel' buf3 (out1 ++ [Name t])
                end
              else
                match extract_general_name buf2 with
                | OutOfFuel => NoFuel
                | Exit code => Exited code out1
                | Ok name_buffer buf3 =>
                    match classify_name name_buffer with
                    | inl code => Exited code out1
                    | inr lines => lexer_loop fuel' buf3 (out1 ++ lines)
                    end
                end
        end
  end.

(** The scan of a file holding the bytes [data]. *)
Definition lexer (data : list Z) : run :=
  let read_buffer := init_buffer (mkFILE data 0) in
  lexer_loop (S (length data)) read_buffer [].

(** The exit status of the process: the code given to [exit], or the
    [LEXER_OK] that [main] returns after a finished scan. *)
Definition exit_code (r : run) : option Z :=
  match r with
  | Finished _ => Some LEXER_OK
  | Exited code _ => Some code
  | NoFuel => None
  end.

(** * The vocabulary of the statements *)

(** ** The character source as a stream

    [stream_at buf prev rest] says that [buf] is a well-formed read buffer
    whose last consumed character is [prev] and whose bytes still to be
    consumed, block and file together, are [rest]. *)

Definition wf (buf : ReadBuffer) : Prop :=
  (current_position buf <= total_size buf)%nat
  /\ (total_size buf <= length (content buf))%nat
  /\ length (content buf) = INPUT_FILE_BLOCK_SIZE.

Definition cur (buf : ReadBuffer) : Z := fst (current_char_lookup buf).

Record stream_at (buf : ReadBuffer) (prev : Z) (rest : list Z) : Prop :=
  mk_stream_at {
    sa_wf : wf buf;
    sa_pending : pending buf = rest;
    sa_cur : cur buf = prev
  }.

(** The cursor of a buffer: position, number of valid bytes, line counter. *)
Definition same_cursor (buf buf' : ReadBuffer) : Prop :=
  current_position buf' = current_position buf
  /\ total_size buf' = total_size buf
  /\ current_line buf' = current_line buf.

(** A byte that the [char]-typed reads tell apart from [EOF]: the byte 255
    becomes the [char] -1, which is [EOF], so [next_char] reports the end of
    the input on it and [next_char_lookup], when it reads it from the file,
    does not restore the file position. *)
Definition byte_ok (b : Z) : Prop := 0 <= b < 255.

(** The character that a lookup returns: the first pending byte as a
    [char], or [EOF] at the end of the input. *)
Definition lookahead (rest : list Z) : Z :=
  match rest with
  | [] => EOF
  | b :: _ => char_of_byte b
  end.

(** The first pending byte, if any, is a byte. *)
Definition head_byte (rest : list Z) : Prop :=
  match rest with
  | [] => True
  | b :: _ => 0 <= b < 256
  end.

(** The first pending byte, if any, is not read as [EOF]. *)
Definition head_ok (rest : list Z) : Prop :=
  match rest with
  | [] => True
  | b :: _ => byte_ok b
  end.

(** The number of bytes that are still to be consumed. *)
Definition remaining (buf : ReadBuffer) : nat := length (pending buf).

(** An outcome that is not [OutOfFuel] and that, when it returns, returns a
    well-formed buffer with no more bytes to read than before. *)
Definition ends {A : Type} (buf : ReadBuffer) (o : outcome A) : Prop :=
  match o with
  | Ok _ buf' => wf buf' /\ (remaining buf' <= remaining buf)%nat
  | Exit _ => True
  | OutOfFuel => False
  end.

(** ** Integers *)

(** The number that a string of decimal digits denotes, most significant
    digit first. *)
Definition decimal_value (s : list Z) : Z :=
  fold_left (fun acc c => 10 * acc + (c - 48)) s 0.

Definition is_decimal_digit (c : Z) : Prop := "0"%c <= c <= "9"%c.

(** The same number read from the least significant digit, which is the
    order of the conversion loop. *)
Definition value_rev (l : list Z) : Z :=
  fold_right (fun c acc => 10 * acc + (c - 48)) 0 l.

(** ** Names *)

(** A pending byte that belongs to a name, and an input that ends the name:
    the end of the file or a byte that is not part of a name. *)
Definition name_byte (b : Z) : Prop := isname b = true.

Definition stops_name (tail : list Z) : Prop :=
  match tail with
  | [] => True
  | b :: _ => byte_ok b /\ isname (char_of_byte b) = false
  end.

Definition lower_word (s : list Z) : bool := forallb islower s.

(** ** Block comments *)

(** An asterisk immediately followed by a closing parenthesis somewhere in
    the list. *)
Fixpoint has_closer (l : list Z) : bool :=
  match l with
  | [] => false
  | a :: r =>
      match r with
      | [] => false
      | b :: _ => ((a =? "*"%c) && (b =? ")"%c)) || has_closer r
      end
  end.

(** ** String literals *)

(** The content of a literal that raises no error and does not close it:
    every byte is a byte other than the null character that is not read as
    [EOF], and a double quote or a newline comes only right after a
    backslash.  [prev] is the character before the first byte. *)
Fixpoint clean (prev : Z) (body : list Z) : Prop :=
  match body with
  | [] => True
  | b :: r =>
      byte_ok b /\ b <> NUL
      /\ (b = DQUOTE -> prev = BACKSLASH)
      /\ (b = NEWLINE -> prev = BACKSLASH)
      /\ clean b r
  end.

(** The text stored for such a content: a backslash followed by a newline
    stores nothing, every other byte is stored as it is. *)
Fixpoint literal_text (body : list Z) : list Z :=
  match body with
  | [] => []
  | b :: r =>
      match r with
      | [] => [char_of_byte b]
      | n :: r' =>
          if (b =? BACKSLASH) && (n =? NEWLINE) then literal_text r'
          else char_of_byte b :: literal_text r
      end
  end.

(** The last character consumed after [body], starting from [prev]. *)
Definition last_char (prev : Z) (body : list Z) : Z :=
  last (map char_of_byte body) prev.

(** The file that holds the six bytes of the literal: quote, a, backslash,
    quote, b, quote. *)
Definition escaped_quote_input : list Z :=
  [DQUOTE; "a"%c; BACKSLASH; DQUOTE; "b"%c; DQUOTE].

(** ** Reading, white space, terminals, tokens *)

(** [n] successive calls of [next_char]: the characters returned, in order,
    and the buffer after the last call. *)
Fixpoint next_chars (n : nat) (buf : ReadBuffer) : list Z * ReadBuffer :=
  match n with
  | O => ([], buf)
  | S n' =>
      let '(c, buf1) := next_char buf in
      let '(cs, buf2) := next_chars n' buf1 in
      (c :: cs, buf2)
  end.

(** The number of newline bytes of a piece of input. *)
Definition count_newlines (data : list Z) : Z :=
  Z.of_nat (count_occ Z.eq_dec data NEWLINE).

(** The line counter after [data] has been consumed. *)
Definition line_after (line : Z) (data : list Z) : Z :=
  (line + count_newlines data) mod SIZE_MODULUS.

(** A byte that [iswhitespace] accepts. *)
Definition ws_byte (b : Z) : Prop := iswhitespace b = true.

(** A byte inside a line comment: any byte that is not read as [EOF], but
    the newline. *)
Definition comment_byte (b : Z) : Prop := byte_ok b /\ b <> NEWLINE.

(** The terminals of one character, as the [switch] of [extract_terminal]
    names them, and all the characters the [switch] has a case for. *)
Definition single_terminals : list (Z * string) :=
  [("("%c, "lparen"); (")"%c, "rparen"); ("*"%c, "times"); ("+"%c, "plus");
   (","%c, "comma"); ("-"%c, "minus"); ("."%c, "dot"); ("/"%c, "divide");
   (":"%c, "colon"); (";"%c, "semi"); ("@"%c, "at"); ("{"%c, "lbrace");
   ("}"%c, "rbrace"); ("~"%c, "tilde")]%string.

Definition terminal_chars : list Z :=
  "<"%c :: "="%c :: map fst single_terminals.

(** A C string: characters of the [char] type, none of them null. *)
Definition c_string (text : list Z) : Prop :=
  Forall (fun c => -128 <= c < 128 /\ c <> 0) text.

(** Every name that [extract_terminal] returns. *)
Definition terminal_names : list string :=
  map snd single_terminals
  ++ ["larrow"%string; "le"%string; "lt"%string; "rarrow"%string;
      "equals"%string].

(** The lines of one token: its line number and its name, a keyword or a
    terminal, or one of the four kinds that carry a text, and then the text,
    which fits [name_buffer]. *)
Inductive token_lines : list out_line -> Prop :=
| token_plain (n : Z) (s : string) :
    In s (keywords ++ terminal_names) ->
    token_lines [LineNumber n; Name s]
| token_text (n : Z) (k : string) (t : list Z) :
    In k ["integer"; "string"; "type"; "identifier"]%string ->
    (length t <= LITERAL_STRING_MAX_SIZE)%nat ->
    token_lines [LineNumber n; Name k; Text t].

(** A sequence of whole tokens. *)
Inductive tokens : list out_line -> Prop :=
| tokens_nil : tokens []
| tokens_snoc (l g : list out_line) :
    tokens l -> token_lines g -> tokens (l ++ g).

(** ** String literals that are not closed *)

(** The bytes of a file. *)
Definition bytes (l : list Z) : Prop := Forall (fun b => 0 <= b < 256) l.

(** No double quote of the content closes the literal: each of them comes
    right after a backslash.  [prev] is the byte before the content, the
    opening quote. *)
Fixpoint unclosed (prev : Z) (lit : list Z) : bool :=
  match lit with
  | [] => true
  | b :: r => ((prev =? BACKSLASH) || negb (b =? DQUOTE)) && unclosed b r
  end.

(** No newline of the content is a raw one: a newline is the first byte of
    the content, or comes right after a backslash, or right after the
    newline of a backslash-newline pair.  [p2] and [p1] are the two bytes
    before the content, if any. *)
Fixpoint raw_newline_free (p2 p1 : option Z) (lit : list Z) : bool :=
  match lit with
  | [] => true
  | b :: r =>
      (negb (b =? NEWLINE)
       || match p1 with
          | None => true
          | Some c =>
              (c =? BACKSLASH)
              || ((c =? NEWLINE)
                  && match p2 with
                     | Some d => d =? BACKSLASH
                     | None => false
                     end)
          end)
      && raw_newline_free p1 (Some b) r
  end.

(** ** The line counter *)

(** A well-formed buffer whose line counter is a [size_t]. *)
Definition counted (buf : ReadBuffer) : Prop :=
  wf buf /\ 0 <= current_line buf < SIZE_MODULUS.

(** [buf'] is [buf] after some of its pending bytes have been consumed, with
    the line counter advanced by the newlines among them. *)
Definition advances (buf buf' : ReadBuffer) : Prop :=
  counted buf'
  /\ exists consumed,
      pending buf = consumed ++ pending buf'
      /\ current_line buf' = line_after (current_line buf) consumed.

(** ** Tactics *)

(** Decide the tests on character constants. *)
Ltac chars :=
  cbn [Z.eqb Pos.eqb Z.leb Z.ltb Z.gtb Z.compare Pos.compare
       Pos.compare_cont EOF DQUOTE NEWLINE NUL BACKSLASH FORMFEED
       CARRIAGE_RETURN TAB VTAB char_of_byte
       iswhitespace isname isalnum isdigit isupper islower orb andb negb].

(** Reduce the projections of the two records, and nothing else. *)
Ltac fields :=
  cbn [fp content current_position total_size current_line file_data
       file_offset fst snd] in *.

(** A concrete buffer is a stream by evaluation. *)
Ltac stream_by_compute :=
  constructor;
  [ unfold wf; split; [| split];
    [ apply Nat.leb_le; vm_compute; reflexivity
    | apply Nat.leb_le; vm_compute; reflexivity
    | vm_compute; reflexivity ]
  | vm_compute; reflexivity
  | vm_compute; reflexivity ].

(** * The character source: lemmas *)

Section ListFacts.

Variable A : Type.
Implicit Types l : list A.

Lemma firstn_skipn_length n l :
  firstn n l ++ skipn (length (firstn n l)) l = l.
Proof.
  rewrite length_firstn.
  destruct (Nat.le_ge_cases n (length l)) as [H | H].
  - rewrite Nat.min_l by exact H. apply firstn_skipn.
  - rewrite Nat.min_r by exact H.
    rewrite firstn_all2 by exact H.
    rewrite skipn_all. apply app_nil_r.
Qed.

Lemma firstn_skipn_cons d p t l :
  (p < t)%nat -> (t <= length l)%nat ->
  firstn (t - p) (skipn p l)
  = nth p l d :: firstn (t - S p) (skipn (S p) l).
Proof.
  revert p t. induction l as [| x l IH]; intros p t Hp Ht; simpl in Ht.
  - lia.
  - destruct p as [| p].
    + destruct t as [| t]; [lia |]. simpl. now rewrite Nat.sub_0_r.
    + destruct t as [| t]; [lia |].
      change (skipn (S p) (x :: l)) with (skipn p l).
      change (skipn (S (S p)) (x :: l)) with (skipn (S p) l).
      change (nth (S p) (x :: l) d) with (nth p l d).
      change (S t - S p)%nat with (t - p)%nat.
      change (S t - S (S p))%nat with (t - S p)%nat.
      apply IH; lia.
Qed.

Lemma skipn_nth_error_nil p l :
  skipn p l = [] -> nth_error l p = None.
Proof.
  intros H. apply nth_error_None.
  assert (E : length (skipn p l) = 0%nat) by now rewrite H.
  rewrite length_skipn in E. lia.
Qed.

Lemma skipn_nth_error_cons p l x r :
  skipn p l = x :: r -> nth_error l p = Some x /\ skipn (S p) l = r.
Proof.
  revert l. induction p as [| p IH]; intros l H.
  - destruct l; simpl in H; inversion H. now split.
  - destruct l as [| y l]; simpl in H; [discriminate |].
    apply IH in H. exact H.
Qed.

End ListFacts.

Lemma char_of_byte_eof b : 0 <= b < 255 -> char_of_byte b <> EOF.
Proof. unfold char_of_byte, EOF. destruct (b <? 128) eqn:E; lia. Qed.

Lemma char_of_byte_small b : 0 <= b < 128 -> char_of_byte b = b.
Proof.
  intros H. unfold char_of_byte.
  destruct (Z.ltb_spec b 128); [reflexivity | lia].
Qed.

Lemma char_of_byte_inj b c :
  0 <= b < 256 -> 0 <= c < 128 -> char_of_byte b = c -> b = c.
Proof.
  unfold char_of_byte. intros Hb Hc.
  destruct (Z.ltb_spec b 128); lia.
Qed.

Lemma current_char_lookup_cur buf : current_char_lookup buf = (cur buf, buf).
Proof.
  unfold cur, current_char_lookup.
  destruct (Nat.eqb (current_position buf) 0); reflexivity.
Qed.

(** Within a block or across a refill, [next_char] pops the first pending
    byte and counts the line. *)
Lemma block_size_succ : exists n, INPUT_FILE_BLOCK_SIZE = S n.
Proof. exists (pred INPUT_FILE_BLOCK_SIZE). reflexivity. Qed.

Lemma length_store_block got old :
  (length got <= length old)%nat ->
  length (store_block got old) = length old.
Proof.
  intros H. unfold store_block. rewrite length_app, length_skipn. lia.
Qed.

Lemma pending_store_block got old n :
  n = length got ->
  firstn n (store_block got old) = got.
Proof.
  intros ->. unfold store_block.
  rewrite firstn_app, Nat.sub_diag, firstn_all. simpl. apply app_nil_r.
Qed.

Lemma next_char_cons buf prev b rest :
  stream_at buf prev (b :: rest) ->
  exists buf',
    next_char buf = (char_of_byte b, buf')
    /\ stream_at buf' (char_of_byte b) rest
    /\ current_line buf'
       = (if b =? NEWLINE then (current_line buf + 1) mod SIZE_MODULUS
          else current_line buf).
Proof.
  intros [(Hpt & Htl & Hlen) Hpend _].
  destruct buf as [[data off] cont pos tot line].
  unfold pending in Hpend. unfold next_char, fread, wf.
  cbn [fp content current_position total_size current_line file_data
       file_offset] in *.
  destruct (Nat.eqb_spec pos tot) as [-> | Hne].
  - (* the block is exhausted: refill *)
    rewrite Nat.sub_diag in Hpend. cbn [firstn app] in Hpend.
    rewrite Hpend.
    destruct block_size_succ as [n HN]. rewrite HN in *.
    cbn [firstn length]. fields. cbn [Nat.eqb andb].
    set (got := firstn n rest).
    assert (Hgl : (length got <= n)%nat) by apply firstn_le_length.
    assert (Hb : nth 0 (store_block (b :: got) cont) 0 = b) by reflexivity.
    rewrite Hb.
    eexists. split; [reflexivity |]. split; [| reflexivity].
    constructor.
    + unfold wf.
      cbn [fp content current_position total_size current_line].
      rewrite length_store_block by (simpl; lia).
      rewrite HN. simpl. lia.
    + unfold pending.
      cbn [fp content current_position total_size current_line file_data
           file_offset].
      assert (Hs : skipn 1 (store_block (b :: got) cont)
                   = store_block got (skipn 1 cont)).
      { unfold store_block.
        destruct cont as [| c cont']; [| reflexivity].
        simpl. now rewrite !skipn_nil. }
      rewrite Hs.
      replace (S (length got) - 1)%nat with (length got) by lia.
      rewrite pending_store_block by reflexivity.
      replace (off + S (length got))%nat with (S (length got) + off)%nat
        by lia.
      rewrite <- skipn_skipn, Hpend.
      change (skipn (S (length got)) (b :: rest))
        with (skipn (length got) rest).
      apply firstn_skipn_length.
    + reflexivity.
  - (* inside the block *)
    rewrite (firstn_skipn_cons Z 0 pos tot cont) in Hpend by lia.
    cbn [app] in Hpend. injection Hpend as Hb Hrest.
    cbn [andb]. fields. rewrite Hb.
    eexists. split; [reflexivity |]. split; [| reflexivity].
    constructor.
    + unfold wf. simpl. lia.
    + unfold pending. simpl. exact Hrest.
    + unfold cur, current_char_lookup. simpl.
      rewrite Nat.sub_0_r, Hb. reflexivity.
Qed.

Lemma pending_nil_exhausted buf :
  wf buf -> pending buf = [] ->
  current_position buf = total_size buf
  /\ skipn (file_offset (fp buf)) (file_data (fp buf)) = [].
Proof.
  intros (Hpt & Htl & _) Hpend. unfold pending in Hpend.
  apply app_eq_nil in Hpend. destruct Hpend as [Hblock Hfile].
  split; [| exact Hfile].
  assert (E : length (firstn (total_size buf - current_position buf)
                             (skipn (current_position buf) (content buf)))
              = 0%nat) by now rewrite Hblock.
  rewrite length_firstn, length_skipn in E. lia.
Qed.

(** At the end of the input [next_char] returns [EOF], and keeps doing so. *)
Lemma next_char_nil buf prev :
  stream_at buf prev [] ->
  exists buf',
    next_char buf = (EOF, buf')
    /\ stream_at buf' EOF []
    /\ current_line buf' = current_line buf.
Proof.
  intros [Hwf Hpend _].
  destruct (pending_nil_exhausted buf Hwf Hpend) as [Hpos Hfile].
  destruct Hwf as (Hpt & Htl & Hlen).
  destruct buf as [[data off] cont pos tot line].
  unfold next_char, fread. fields. subst pos.
  rewrite Nat.eqb_refl, Hfile, firstn_nil. fields.
  cbn [length Nat.eqb andb].
  eexists. split; [reflexivity |]. split; [| reflexivity].
  constructor.
  - unfold wf. fields. unfold store_block. cbn [length app skipn]. lia.
  - unfold pending. fields. cbn [firstn Nat.sub app length].
    now rewrite Nat.add_0_r.
  - reflexivity.
Qed.

(** Looking ahead returns the first pending byte and leaves the buffer as it
    is, provided the byte is not read as [EOF]. *)
Lemma next_char_lookup_cons buf prev b rest :
  stream_at buf prev (b :: rest) -> byte_ok b ->
  next_char_lookup buf = (char_of_byte b, buf).
Proof.
  intros [(Hpt & Htl & Hlen) Hpend _] Hb.
  destruct buf as [[data off] cont pos tot line].
  unfold pending in Hpend. unfold next_char_lookup, fgetc, fgetpos, fsetpos.
  fields.
  destruct (Nat.eqb_spec pos tot) as [-> | Hne].
  - rewrite Nat.sub_diag in Hpend. cbn [firstn app] in Hpend.
    apply skipn_nth_error_cons in Hpend. destruct Hpend as [Hnth _].
    rewrite Hnth. fields.
    assert (Hi : (b =? EOF) = false)
      by (apply Z.eqb_neq; unfold byte_ok, EOF in *; lia).
    rewrite Hi.
    assert (Hc : (char_of_byte b =? EOF) = false)
      by (apply Z.eqb_neq, char_of_byte_eof, Hb).
    rewrite Hc. reflexivity.
  - rewrite (firstn_skipn_cons Z 0 pos tot cont) in Hpend by lia.
    cbn [app] in Hpend. injection Hpend as Hnth _.
    now rewrite Hnth.
Qed.

Lemma next_char_lookup_nil buf prev :
  stream_at buf prev [] -> next_char_lookup buf = (EOF, buf).
Proof.
  intros [Hwf Hpend _].
  destruct (pending_nil_exhausted buf Hwf Hpend) as [Hpos Hfile].
  destruct buf as [[data off] cont pos tot line].
  unfold next_char_lookup, fgetc. fields. subst pos.
  rewrite Nat.eqb_refl, (skipn_nth_error_nil _ _ _ Hfile).
  reflexivity.
Qed.

(** The buffer of a fresh scan. *)
Lemma init_buffer_stream data :
  stream_at (init_buffer (mkFILE data 0)) EOF data
  /\ current_line (init_buffer (mkFILE data 0)) = 1.
Proof.
  unfold init_buffer, fread. fields. cbn [skipn].
  split; [| reflexivity].
  constructor.
  - unfold wf. fields.
    assert (Hl : (length (firstn INPUT_FILE_BLOCK_SIZE data)
                  <= INPUT_FILE_BLOCK_SIZE)%nat) by apply firstn_le_length.
    rewrite length_store_block; rewrite repeat_length; lia.
  - unfold pending. fields. cbn [skipn Nat.add].
    rewrite Nat.sub_0_r, pending_store_block by reflexivity.
    apply firstn_skipn_length.
  - reflexivity.
Qed.

(** * The scan always ends

    The fuel of every loop is an artefact of the embedding: computed as it
    is from the bytes that remain, it never runs out, for any file. *)

Lemma stream_at_self buf : wf buf -> stream_at buf (cur buf) (pending buf).
Proof. intros H. now constructor. Qed.

Lemma next_char_measure buf :
  wf buf ->
  wf (snd (next_char buf))
  /\ (remaining (snd (next_char buf)) <= remaining buf)%nat
  /\ (fst (next_char buf) <> EOF ->
      S (remaining (snd (next_char buf))) = remaining buf).
Proof.
  intros Hwf. pose proof (stream_at_self buf Hwf) as Hs.
  unfold remaining. destruct (pending buf) as [| b r] eqn:E.
  - destruct (next_char_nil buf _ Hs) as (buf' & Hn & Hs' & _).
    rewrite Hn. cbn [fst snd]. rewrite (sa_pending _ _ _ Hs').
    split; [exact (sa_wf _ _ _ Hs') |]. split; [reflexivity | easy].
  - destruct (next_char_cons buf _ b r Hs) as (buf' & Hn & Hs' & _).
    rewrite Hn. cbn [fst snd]. rewrite (sa_pending _ _ _ Hs').
    split; [exact (sa_wf _ _ _ Hs') |]. cbn [length].
    split; [lia | reflexivity].
Qed.

Lemma next_char_lookup_measure buf :
  wf buf ->
  wf (snd (next_char_lookup buf))
  /\ (remaining (snd (next_char_lookup buf)) <= remaining buf)%nat.
Proof.
  intros Hwf. unfold remaining, pending, wf in *.
  destruct buf as [[data off] cont pos tot line].
  unfold next_char_lookup, fgetc, fsetpos, fgetpos. fields.
  destruct (Nat.eqb pos tot); [| now split].
  destruct (nth_error data off) as [i |] eqn:E; [| now split].
  destruct ((if i =? EOF then EOF else char_of_byte i) =? EOF);
    fields; (split; [exact Hwf |]); [| lia].
  rewrite !length_app, !length_skipn. lia.
Qed.

Lemma ends_weaken {A : Type} buf0 buf (o : outcome A) :
  (remaining buf <= remaining buf0)%nat -> ends buf o -> ends buf0 o.
Proof.
  destruct o; cbn [ends]; [| easy | easy].
  intros H [H1 H2]. split; [exact H1 | lia].
Qed.

Lemma extract_general_name_loop_ends fuel :
  forall buf acc,
    wf buf ->
    (length acc <= GENERAL_NAME_MAX_SIZE)%nat ->
    (GENERAL_NAME_MAX_SIZE < fuel + length acc)%nat ->
    ends buf (extract_general_name_loop fuel buf acc).
Proof.
  induction fuel as [| fuel IH]; intros buf acc Hwf Hle Hf; [lia |].
  cbn [extract_general_name_loop].
  destruct (next_char_lookup_measure buf Hwf) as [Hwf1 Hm1].
  destruct (next_char_lookup buf) as [c buf1]. cbn [snd] in *.
  destruct (negb (isname c)); [cbn [ends]; now split |].
  destruct (Nat.eqb_spec (length acc) GENERAL_NAME_MAX_SIZE) as [E | Hne];
    [exact I |].
  destruct (next_char_measure buf1 Hwf1) as (Hwf2 & Hm2 & _).
  destruct (next_char buf1) as [c' buf2]. cbn [snd] in *.
  apply (ends_weaken buf buf2); [lia |].
  apply IH; [exact Hwf2 | |]; rewrite length_app; cbn [length]; lia.
Qed.

Lemma extract_general_name_ends buf :
  wf buf -> ends buf (extract_general_name buf).
Proof.
  intros Hwf. unfold extract_general_name.
  rewrite current_char_lookup_cur.
  apply extract_general_name_loop_ends; [exact Hwf | |];
    unfold GENERAL_NAME_MAX_SIZE; cbn [length]; lia.
Qed.

Lemma extract_string_loop_ends fuel :
  forall buf acc,
    wf buf -> (remaining buf < fuel)%nat ->
    ends buf (extract_string_loop fuel buf acc).
Proof.
  induction fuel as [| fuel IH]; intros buf acc Hwf Hf; [lia |].
  cbn [extract_string_loop].
  destruct (Nat.eqb (length acc) LITERAL_STRING_MAX_SIZE); [exact I |].
  rewrite current_char_lookup_cur.
  destruct (next_char_measure buf Hwf) as (Hwf2 & Hm2 & Hc2).
  destruct (next_char buf) as [c buf2]. cbn [fst snd] in *.
  destruct (negb (cur buf =? BACKSLASH) && (c =? DQUOTE));
    [cbn [ends]; now split |].
  destruct (Z.eqb_spec c NUL) as [E0 | N0]; [exact I |].
  destruct (Z.eqb_spec c EOF) as [E1 | N1]; [exact I |].
  cbn [orb]. specialize (Hc2 N1).
  destruct (next_char_lookup_measure buf2 Hwf2) as [Hwf3 Hm3].
  destruct (next_char_lookup buf2) as [la buf3]. cbn [snd] in *.
  destruct (la =? NEWLINE).
  - destruct (c =? BACKSLASH); [| exact I].
    destruct (next_char_measure buf3 Hwf3) as (Hwf4 & Hm4 & _).
    destruct (next_char buf3) as [c4 buf4]. cbn [snd] in *.
    apply (ends_weaken buf buf4); [lia |].
    apply IH; [exact Hwf4 | lia].
  - apply (ends_weaken buf buf3); [lia |].
    apply IH; [exact Hwf3 | lia].
Qed.

Lemma extract_string_ends buf : wf buf -> ends buf (extract_string buf).
Proof.
  intros Hwf. apply extract_string_loop_ends; [exact Hwf |].
  unfold remaining. lia.
Qed.

Lemma extract_terminal_measure buf :
  wf buf ->
  wf (snd (extract_terminal buf))
  /\ (remaining (snd (extract_terminal buf)) <= remaining buf)%nat.
Proof.
  intros Hwf. unfold extract_terminal. rewrite current_char_lookup_cur.
  destruct (next_char_lookup_measure buf Hwf) as [Hwf1 Hm1].
  destruct (next_char_lookup buf) as [la buf1]. cbn [snd] in *.
  destruct (next_char_measure buf1 Hwf1) as (Hwf2 & Hm2 & _).
  destruct (next_char buf1) as [c2 buf2]. cbn [snd] in *.
  repeat match goal with
         | |- context [if ?b then _ else _] => destruct b
         end; cbn [snd]; split; (assumption || lia).
Qed.

Lemma line_comment_loop_ends fuel :
  forall buf,
    wf buf -> (remaining buf < fuel)%nat ->
    ends buf (line_comment_loop fuel buf).
Proof.
  induction fuel as [| fuel IH]; intros buf Hwf Hf; [lia |].
  cbn [line_comment_loop].
  destruct (next_char_measure buf Hwf) as (Hwf1 & Hm1 & Hc1).
  destruct (next_char buf) as [c buf1]. cbn [fst snd] in *.
  destruct (Z.eqb_spec c NEWLINE) as [E0 | N0];
    [cbn [negb andb ends]; now split |].
  destruct (Z.eqb_spec c EOF) as [E1 | N1];
    [cbn [negb andb ends]; now split |].
  cbn [negb andb]. specialize (Hc1 N1).
  apply (ends_weaken buf buf1); [lia |].
  apply IH; [exact Hwf1 | lia].
Qed.

Lemma block_comment_loop_ends fuel :
  forall buf c,
    wf buf -> (1 <= fuel)%nat ->
    (c <> EOF -> remaining buf + 2 <= fuel)%nat ->
    ends buf (block_comment_loop fuel buf c).
Proof.
  induction fuel as [| fuel IH]; intros buf c Hwf H1 Hf; [lia |].
  cbn [block_comment_loop].
  destruct (Z.eqb_spec c EOF) as [E | N]; [cbn [ends]; now split |].
  specialize (Hf N).
  assert (Hnext : forall buf1,
             wf buf1 -> (remaining buf1 <= remaining buf)%nat ->
             ends buf (let '(c', buf2) := next_char buf1 in
                       block_comment_loop fuel buf2 c')).
  { intros buf1 Hwf1 Hm1.
    destruct (next_char_measure buf1 Hwf1) as (Hwf2 & Hm2 & Hc2).
    destruct (next_char buf1) as [c' buf2]. cbn [fst snd] in *.
    apply (ends_weaken buf buf2); [lia |].
    apply IH; [exact Hwf2 | lia |].
    intros N'. specialize (Hc2 N'). lia. }
  destruct (c =? "*"%c).
  - destruct (next_char_lookup_measure buf Hwf) as [Hwf1 Hm1].
    destruct (next_char_lookup buf) as [la buf1]. cbn [snd] in *.
    destruct (la =? ")"%c); [cbn [ends]; now split |].
    now apply Hnext.
  - now apply Hnext.
Qed.

Lemma remove_comments_ends buf : wf buf -> ends buf (remove_comments buf).
Proof.
  intros Hwf. unfold remove_comments. rewrite current_char_lookup_cur.
  destruct (next_char_lookup_measure buf Hwf) as [Hwf1 Hm1].
  assert (Hline : forall b,
             wf b -> (remaining b <= remaining buf)%nat ->
             ends buf
               match line_comment_loop (S (length (pending b))) b with
               | Ok _ buf2 => Ok 1 buf2
               | Exit code => Exit code
               | OutOfFuel => OutOfFuel
               end).
  { intros b Hb Hmb.
    pose proof (line_comment_loop_ends (S (length (pending b))) b Hb
                  ltac:(unfold remaining; lia)) as H.
    destruct (line_comment_loop (S (length (pending b))) b);
      cbn [ends] in *; [split; [easy | lia] | easy | easy]. }
  assert (Hblock : forall b c,
             wf b -> (remaining b <= remaining buf)%nat ->
             ends buf
               match block_comment_loop (2 + length (pending b)) b c with
               | Ok _ buf3 => let '(_, buf4) := next_char buf3 in Ok 1 buf4
               | Exit code => Exit code
               | OutOfFuel => OutOfFuel
               end).
  { intros b c Hb Hmb.
    pose proof (block_comment_loop_ends (2 + length (pending b)) b c Hb
                  ltac:(lia) ltac:(unfold remaining; lia)) as H.
    destruct (block_comment_loop (2 + length (pending b)) b c)
      as [u buf3 | |]; cbn [ends] in *; [| easy | easy].
    destruct H as [Hwf3 Hm3].
    destruct (next_char_measure buf3 Hwf3) as (Hwf4 & Hm4 & _).
    destruct (next_char buf3) as [c4 buf4]. cbn [snd ends] in *.
    split; [exact Hwf4 | lia]. }
  assert (Hsecond : forall b,
             wf b -> (remaining b <= remaining buf)%nat ->
             ends buf
               (let '(is_block, buf2) :=
                  if cur buf =? "("%c
                  then let '(la, b') := next_char_lookup b in
                       (la =? "*"%c, b')
                  else (false, b) in
                if is_block
                then match block_comment_loop (2 + length (pending buf2))
                             buf2 (cur buf) with
                     | Ok _ buf3 =>
                         let '(_, buf4) := next_char buf3 in Ok 1 buf4
                     | Exit code => Exit code
                     | OutOfFuel => OutOfFuel
                     end
                else Ok 0 buf2)).
  { intros b Hb Hmb.
    destruct (cur buf =? "("%c); [| cbn [ends]; now split].
    destruct (next_char_lookup_measure b Hb) as [Hb1 Hmb1].
    destruct (next_char_lookup b) as [la b']. cbn [snd] in *.
    destruct (la =? "*"%c); [| cbn [ends]; split; [easy | lia]].
    apply Hblock; [exact Hb1 | lia]. }
  destruct (cur buf =? "-"%c).
  - destruct (next_char_lookup buf) as [la buf1]. cbn [snd] in *.
    destruct (la =? "-"%c).
    + apply Hline; [exact Hwf1 | exact Hm1].
    + apply Hsecond; [exact Hwf1 | exact Hm1].
  - apply Hsecond; [exact Hwf | lia].
Qed.

Lemma lexer_loop_ends fuel :
  forall buf out,
    wf buf -> (remaining buf < fuel)%nat ->
    lexer_loop fuel buf out <> NoFuel.
Proof.
  induction fuel as [| fuel IH]; intros buf out Hwf Hf; [lia |].
  cbn [lexer_loop].
  destruct (next_char_measure buf Hwf) as (Hwf1 & Hm1 & Hc1).
  destruct (next_char buf) as [c buf1]. cbn [fst snd] in *.
  destruct (Z.eqb_spec c EOF) as [E | N]; [discriminate |].
  specialize (Hc1 N).
  destruct (iswhitespace c); [apply IH; [exact Hwf1 | lia] |].
  pose proof (remove_comments_ends buf1 Hwf1) as Hrm.
  destruct (remove_comments buf1) as [removed buf2 | code |];
    cbn [ends] in Hrm; [| discriminate | contradiction].
  destruct Hrm as [Hwf2 Hm2].
  destruct (negb (removed =? 0)); [apply IH; [exact Hwf2 | lia] |].
  destruct (c =? DQUOTE).
  - pose proof (extract_string_ends buf2 Hwf2) as He.
    destruct (extract_string buf2) as [name buf3 | code |];
      cbn [ends] in He; [| discriminate | contradiction].
    apply IH; [apply He | lia].
  - destruct (negb (isname c)).
    + destruct (extract_terminal_measure buf2 Hwf2) as [Hwf3 Hm3].
      destruct (extract_terminal buf2) as [[t |] buf3]; cbn [snd] in *;
        [| discriminate].
      apply IH; [exact Hwf3 | lia].
    + pose proof (extract_general_name_ends buf2 Hwf2) as He.
      destruct (extract_general_name buf2) as [name buf3 | code |];
        cbn [ends] in He; [| discriminate | contradiction].
      destruct (classify_name name); [discriminate |].
      apply IH; [apply He | lia].
Qed.

(** Whatever the bytes of the file, the scan ends: at the end of the input
    or with an exit code. *)
Theorem lexer_ends (data : list Z) :
  exists out, lexer data = Finished out
              \/ exists code, lexer data = Exited code out.
Proof.
  pose proof (lexer_loop_ends (S (length data)) (init_buffer (mkFILE data 0))
                [] (sa_wf _ _ _ (proj1 (init_buffer_stream data)))) as H.
  unfold lexer.
  destruct (lexer_loop (S (length data)) (init_buffer (mkFILE data 0)) [])
    as [out | code out |].
  - exists out. now left.
  - exists out. right. now exists code.
  - exfalso. apply H; [| reflexivity].
    unfold remaining.
    rewrite (sa_pending _ _ _ (proj1 (init_buffer_stream data))). lia.
Qed.

(** * check_integer *)

Lemma decimal_value_rev s : decimal_value s = value_rev (rev s).
Proof. unfold decimal_value, value_rev. now rewrite fold_left_rev_right. Qed.

Lemma isdigit_spec c : isdigit c = true <-> is_decimal_digit c.
Proof. unfold isdigit, is_decimal_digit. lia. Qed.

Lemma forallb_isdigit s :
  forallb isdigit s = true <-> Forall is_decimal_digit s.
Proof.
  rewrite forallb_forall, Forall_forall.
  split; intros H x Hx; apply isdigit_spec, H, Hx.
Qed.

Lemma value_rev_bounds l :
  Forall is_decimal_digit l -> 0 <= value_rev l < 10 ^ Z.of_nat (length l).
Proof.
  induction 1 as [| c l Hc _ IH].
  - simpl. lia.
  - cbn [length]. rewrite Nat2Z.inj_succ, Z.pow_succ_r by lia.
    change (value_rev (c :: l)) with (10 * value_rev l + (c - 48)).
    unfold is_decimal_digit in Hc. lia.
Qed.

Lemma value_rev_app l d :
  value_rev (l ++ [d]) = value_rev l + 10 ^ Z.of_nat (length l) * (d - 48).
Proof.
  induction l as [| c l IH].
  - unfold value_rev. cbn [app fold_right length].
    change (10 ^ Z.of_nat 0) with 1. lia.
  - cbn [length app]. rewrite Nat2Z.inj_succ, Z.pow_succ_r by lia.
    change (value_rev (c :: l ++ [d]))
      with (10 * value_rev (l ++ [d]) + (c - 48)).
    change (value_rev (c :: l)) with (10 * value_rev l + (c - 48)).
    rewrite IH. ring.
Qed.

Lemma wrap_int32_id x : -2147483648 <= x < 2147483648 -> wrap_int32 x = x.
Proof.
  intros H. unfold wrap_int32, UINT32_MODULUS.
  change (2 ^ 31) with 2147483648. change (2 ^ 32) with 4294967296.
  rewrite Z.mod_small; lia.
Qed.

Lemma pow10_le k n : (k <= n)%nat -> 0 < 10 ^ Z.of_nat k <= 10 ^ Z.of_nat n.
Proof.
  intros H. split.
  - apply Z.pow_pos_nonneg; lia.
  - apply Z.pow_le_mono_r; lia.
Qed.

(** While the digits processed so far and those still to come denote a
    number below [2 ^ 32], nothing wraps around and the loop adds up the
    decimal value.  The power that is computed after the last digit is never
    used. *)
Lemma convert_loop_exact l :
  forall (k : nat) (power num : Z),
    Forall is_decimal_digit l ->
    (l <> [] -> power = 10 ^ Z.of_nat k) ->
    (k + length l <= 10)%nat ->
    ((k + length l = 10)%nat -> last l 0 <= "2"%c) ->
    0 <= num ->
    num + 10 ^ Z.of_nat k * value_rev l < UINT32_MODULUS ->
    convert_loop l power num = num + 10 ^ Z.of_nat k * value_rev l.
Proof.
  induction l as [| c l IH]; intros k power num Hd Hp Hk Htop Hnum Hlt.
  - simpl. lia.
  - inversion Hd as [| c' l' Hc Hl]; subst c' l'.
    rewrite (Hp ltac:(discriminate)).
    cbn [length] in Hk, Htop.
    change (value_rev (c :: l)) with (10 * value_rev l + (c - 48)) in *.
    pose proof (value_rev_bounds l Hl) as Hv.
    pose proof (pow10_le k k (le_n k)) as Hk0.
    unfold is_decimal_digit in Hc.
    assert (Hterm : 0 <= (c - 48) * 10 ^ Z.of_nat k < 2147483648).
    { destruct (Nat.eq_dec k 9) as [-> | Hk9].
      - assert (l = []) by (destruct l; [reflexivity | simpl in Hk; lia]).
        subst l. simpl in Htop. specialize (Htop eq_refl).
        change (10 ^ Z.of_nat 9) with 1000000000. lia.
      - pose proof (pow10_le k 8 ltac:(lia)) as Hk8.
        change (10 ^ Z.of_nat 8) with 100000000 in Hk8. nia. }
    cbn [convert_loop].
    rewrite (wrap_int32_id ((c - 48) * 10 ^ Z.of_nat k)) by lia.
    assert (Hstep : 0 <= num + (c - 48) * 10 ^ Z.of_nat k < UINT32_MODULUS).
    { unfold UINT32_MODULUS in *. change (2 ^ 32) with 4294967296 in *.
      nia. }
    rewrite Z.mod_small by exact Hstep.
    rewrite (IH (S k)).
    + rewrite Nat2Z.inj_succ, Z.pow_succ_r by lia. ring.
    + exact Hl.
    + intros Hne.
      assert (Hk8 : (k <= 8)%nat)
        by (destruct l; [contradiction | simpl in Hk; lia]).
      pose proof (pow10_le k 8 Hk8) as Hb.
      change (10 ^ Z.of_nat 8) with 100000000 in Hb.
      rewrite Nat2Z.inj_succ, Z.pow_succ_r by lia.
      rewrite wrap_int32_id by lia. ring.
    + lia.
    + intros E. destruct l as [| c2 l2]; [simpl; lia |].
      apply Htop. cbn [length] in *. lia.
    + lia.
    + rewrite Nat2Z.inj_succ, Z.pow_succ_r by lia. nia.
Qed.

(** A string that passes the first three checks denotes a number that fits a
    [uint32_t]: it is at most 2999999999. *)
Lemma decimal_value_fits s :
  (length s <= 10)%nat -> Forall is_decimal_digit s ->
  ((length s < 10)%nat \/ nth 0 s 0 <= "2"%c) ->
  0 <= decimal_value s < 3000000000.
Proof.
  intros Hlen Hd Htop. rewrite decimal_value_rev.
  destruct s as [| c0 s].
  - simpl. lia.
  - cbn [rev]. rewrite value_rev_app, length_rev.
    inversion Hd as [| c' l' Hc Hl]; subst c' l'.
    pose proof (value_rev_bounds (rev s) ltac:(now apply Forall_rev)) as Hv.
    rewrite length_rev in Hv.
    cbn [length nth] in Hlen, Htop.
    unfold is_decimal_digit in Hc.
    destruct (Nat.eq_dec (length s) 9) as [E | E].
    + rewrite E in *. change (10 ^ Z.of_nat 9) with 1000000000 in *.
      destruct Htop as [Htop | Htop]; [lia |]. lia.
    + pose proof (pow10_le (length s) 8 ltac:(lia)) as Hb.
      change (10 ^ Z.of_nat 8) with 100000000 in Hb. nia.
Qed.

Lemma last_rev_cons (c : Z) s d : last (rev (c :: s)) d = c.
Proof. cbn [rev]. apply last_last. Qed.

Lemma check_integer_convert s :
  (length s <= 10)%nat -> Forall is_decimal_digit s ->
  ((length s < 10)%nat \/ nth 0 s 0 <= "2"%c) ->
  convert_loop (rev s) 1 0 = decimal_value s.
Proof.
  intros Hlen Hd Htop.
  pose proof (decimal_value_fits s Hlen Hd Htop) as Hfit.
  rewrite decimal_value_rev in *.
  rewrite (convert_loop_exact (rev s) 0 1 0).
  - change (10 ^ Z.of_nat 0) with 1. lia.
  - now apply Forall_rev.
  - reflexivity.
  - rewrite length_rev. lia.
  - rewrite length_rev. intros E.
    destruct s as [| c s]; [simpl in E; lia |].
    rewrite last_rev_cons. destruct Htop as [Htop | Htop]; [lia | exact Htop].
  - lia.
  - change (10 ^ Z.of_nat 0) with 1. unfold UINT32_MODULUS.
    change (2 ^ 32) with 4294967296. lia.
Qed.

(** * Names *)

Lemma name_byte_range b : name_byte b -> "0"%c <= b <= "z"%c.
Proof.
  unfold name_byte, isname, isalnum, isdigit, isupper, islower. lia.
Qed.

Lemma name_byte_char b : name_byte b -> char_of_byte b = b.
Proof.
  intros H. apply name_byte_range in H. apply char_of_byte_small. lia.
Qed.

Lemma name_byte_ok b : name_byte b -> byte_ok b.
Proof. intros H. apply name_byte_range in H. unfold byte_ok. lia. Qed.

Lemma last_cons_shift (b : Z) cs prev : last (b :: cs) prev = last cs b.
Proof.
  revert b prev. induction cs as [| c cs IH]; intros b prev; [reflexivity |].
  change (last (b :: c :: cs) prev) with (last (c :: cs) prev).
  rewrite IH. symmetry. apply IH.
Qed.

Lemma extract_general_name_loop_run tail :
  stops_name tail ->
  forall cs fuel buf prev acc,
    stream_at buf prev (cs ++ tail) ->
    Forall name_byte cs ->
    (length acc + length cs <= GENERAL_NAME_MAX_SIZE)%nat ->
    (length cs < fuel)%nat ->
    exists buf',
      extract_general_name_loop fuel buf acc = Ok (acc ++ cs) buf'
      /\ stream_at buf' (last cs prev) tail
      /\ current_line buf' = current_line buf.
Proof.
  intros Htail.
  induction cs as [| b cs IH]; intros fuel buf prev acc Hs Hcs Hlen Hfuel.
  - destruct fuel as [| fuel]; [simpl in Hfuel; lia |].
    cbn [extract_general_name_loop app last] in *.
    exists buf. rewrite app_nil_r.
    destruct tail as [| t tail].
    + rewrite (next_char_lookup_nil buf prev Hs).
      split; [reflexivity | split; [exact Hs | reflexivity]].
    + destruct Htail as [Hok Hno].
      rewrite (next_char_lookup_cons buf prev t tail Hs Hok), Hno.
      split; [reflexivity | split; [exact Hs | reflexivity]].
  - destruct fuel as [| fuel]; [simpl in Hfuel; lia |].
    inversion Hcs as [| b' cs' Hb Hcs']; subst b' cs'.
    cbn [extract_general_name_loop app length] in *.
    rewrite (next_char_lookup_cons buf prev b _ Hs (name_byte_ok b Hb)).
    rewrite (name_byte_char b Hb). unfold name_byte in Hb. rewrite Hb.
    cbn [negb].
    destruct (Nat.eqb_spec (length acc) GENERAL_NAME_MAX_SIZE) as [E | _];
      [lia |].
    destruct (next_char_cons buf prev b _ Hs) as (buf1 & Hn & Hs1 & Hl1).
    rewrite Hn. rewrite (name_byte_char b Hb) in *.
    destruct (IH fuel buf1 b (acc ++ [b]) Hs1 Hcs') as (buf' & Hr & Hs' & Hl').
    + rewrite length_app. simpl. lia.
    + lia.
    + exists buf'. rewrite Hr, <- app_assoc. split; [reflexivity |].
      split.
      * rewrite last_cons_shift. exact Hs'.
      * rewrite Hl', Hl1.
        apply name_byte_range in Hb.
        destruct (Z.eqb_spec b NEWLINE) as [E | _]; [| reflexivity].
        unfold NEWLINE in E. lia.
Qed.

(** The name that starts at the last consumed character [c0] and runs over
    the pending name bytes [cs] is extracted whole when it has at most
    [GENERAL_NAME_MAX_SIZE] characters. *)
Lemma extract_general_name_run buf c0 cs tail :
  stream_at buf c0 (cs ++ tail) ->
  Forall name_byte cs -> stops_name tail ->
  (S (length cs) <= GENERAL_NAME_MAX_SIZE)%nat ->
  exists buf',
    extract_general_name buf = Ok (c0 :: cs) buf'
    /\ stream_at buf' (last cs c0) tail
    /\ current_line buf' = current_line buf.
Proof.
  intros Hs Hcs Htail Hlen. unfold extract_general_name.
  rewrite current_char_lookup_cur, (sa_cur _ _ _ Hs).
  apply (extract_general_name_loop_run tail Htail cs _ buf c0 [c0] Hs Hcs).
  - simpl. lia.
  - lia.
Qed.

(** * The driver on a name *)

Lemma remove_comments_other buf c :
  cur buf = c -> c <> "-"%c -> c <> "("%c ->
  remove_comments buf = Ok 0 buf.
Proof.
  intros Hc Hm Hp. unfold remove_comments.
  rewrite current_char_lookup_cur, Hc.
  destruct (Z.eqb_spec c "-"%c); [contradiction |].
  destruct (Z.eqb_spec c "("%c); [contradiction |].
  reflexivity.
Qed.

Lemma name_byte_not_space b : name_byte b -> iswhitespace b = false.
Proof.
  intros H. apply name_byte_range in H.
  unfold iswhitespace, NEWLINE, FORMFEED, CARRIAGE_RETURN, TAB, VTAB. lia.
Qed.

(** One turn of the main loop on a name: the name is read up to the byte
    that ends it and classified. *)
Lemma lexer_loop_name fuel buf prev b0 cs tail out :
  stream_at buf prev (b0 :: cs ++ tail) ->
  name_byte b0 -> Forall name_byte cs -> stops_name tail ->
  (S (length cs) <= GENERAL_NAME_MAX_SIZE)%nat ->
  exists buf',
    stream_at buf' (last cs b0) tail
    /\ current_line buf' = current_line buf
    /\ lexer_loop (S fuel) buf out
       = match classify_name (b0 :: cs) with
         | inl code => Exited code (out ++ [LineNumber (current_line buf)])
         | inr lines =>
             lexer_loop fuel buf'
                        ((out ++ [LineNumber (current_line buf)]) ++ lines)
         end.
Proof.
  intros Hs Hb0 Hcs Htail Hlen.
  destruct (next_char_cons buf prev b0 _ Hs) as (buf1 & Hn & Hs1 & Hl1).
  rewrite (name_byte_char b0 Hb0) in *.
  pose proof (name_byte_range b0 Hb0) as Hr.
  assert (Hline : current_line buf1 = current_line buf).
  { rewrite Hl1. destruct (Z.eqb_spec b0 NEWLINE) as [E | _];
      [unfold NEWLINE in E; lia | reflexivity]. }
  destruct (extract_general_name_run buf1 b0 cs tail Hs1 Hcs Htail Hlen)
    as (buf' & He & Hs' & Hl').
  exists buf'. split; [exact Hs' |]. split; [congruence |].
  cbn [lexer_loop]. rewrite Hn.
  destruct (Z.eqb_spec b0 EOF) as [E | _]; [unfold EOF in E; lia |].
  rewrite (name_byte_not_space b0 Hb0).
  rewrite (remove_comments_other buf1 b0 (sa_cur _ _ _ Hs1)) by lia.
  cbn [Z.eqb negb].
  destruct (Z.eqb_spec b0 DQUOTE) as [E | _]; [unfold DQUOTE in E; lia |].
  unfold name_byte in Hb0. rewrite Hb0. cbn [negb].
  rewrite He, Hline. reflexivity.
Qed.

(** * Keywords *)

Lemma strcmp_refl s : strcmp s s = 0.
Proof.
  induction s as [| c s IH]; [reflexivity |].
  cbn [strcmp]. now rewrite Z.eqb_refl.
Qed.

(** The keyword table holds lower-case letters only. *)
Lemma keywords_lower :
  forallb (fun k => lower_word (cstr k)) keywords = true.
Proof. reflexivity. Qed.

Lemma check_keyword_found name kw :
  In kw keywords -> map tolower name = cstr kw ->
  check_keyword name = Some kw.
Proof.
  intros Hin Hlow. unfold check_keyword. rewrite Hlow.
  unfold keywords in Hin. cbn [In] in Hin.
  repeat (destruct Hin as [<- | Hin]; [reflexivity |]).
  contradiction.
Qed.

Lemma strcmp_head c1 s1 c2 s2 :
  strcmp (c1 :: s1) (c2 :: s2) = 0 -> uchar c1 = uchar c2.
Proof.
  cbn [strcmp]. destruct (Z.eqb_spec (uchar c1) (uchar c2)); [easy | lia].
Qed.

(** No string equals both boolean literals: the guard of the capital-letter
    test, [strcmp (keyword, "true") || strcmp (keyword, "false")], holds for
    every keyword. *)
Lemma boolean_guard_always kw :
  negb (strcmp (cstr kw) (cstr "true") =? 0)
  || negb (strcmp (cstr kw) (cstr "false") =? 0) = true.
Proof.
  destruct (Z.eqb_spec (strcmp (cstr kw) (cstr "true")) 0) as [Et | _];
    [| reflexivity].
  destruct (Z.eqb_spec (strcmp (cstr kw) (cstr "false")) 0) as [Ef | _];
    [| reflexivity].
  exfalso. destruct kw as [| a kw]; [discriminate Et |].
  cbn [cstr] in Et, Ef.
  apply strcmp_head in Et. apply strcmp_head in Ef.
  rewrite Et in Ef. discriminate Ef.
Qed.

Lemma tolower_islower_name c : islower (tolower c) = true -> name_byte c.
Proof.
  unfold name_byte, isname, isalnum, tolower, islower.
  destruct (isupper c) eqn:E; unfold isupper, isdigit in *; lia.
Qed.

Lemma keyword_length kw : In kw keywords -> (length (cstr kw) <= 8)%nat.
Proof.
  unfold keywords. cbn [In]. intros Hin.
  repeat (destruct Hin as [<- | Hin]; [simpl; lia |]).
  contradiction.
Qed.

(** A name that is a keyword up to case is made of letters, is short, and
    does not start with a digit. *)
Lemma keyword_name_facts name kw :
  In kw keywords -> map tolower name = cstr kw ->
  Forall name_byte name
  /\ (length name <= 8)%nat
  /\ isdigit (nth 0 name 0) = false.
Proof.
  intros Hin Hlow.
  assert (Hlw : lower_word (cstr kw) = true).
  { pose proof keywords_lower as H. rewrite forallb_forall in H.
    exact (H kw Hin). }
  unfold lower_word in Hlw. rewrite <- Hlow, forallb_forall in Hlw.
  assert (Hall : Forall name_byte name).
  { apply Forall_forall. intros c Hc.
    apply tolower_islower_name, Hlw, in_map, Hc. }
  split; [exact Hall |]. split.
  - rewrite <- (length_map tolower), Hlow. apply keyword_length, Hin.
  - destruct name as [| c name].
    + reflexivity.
    + cbn [nth]. specialize (Hlw (tolower c) (in_eq _ _)).
      unfold tolower, islower, isupper, isdigit in *.
      destruct ((65 <=? c) && (c <=? 90)) eqn:E; lia.
Qed.

(** The classification of a keyword: whatever the keyword, a capital first
    letter is an error. *)
Lemma classify_keyword name kw :
  In kw keywords -> map tolower name = cstr kw ->
  classify_name name
  = if isupper (nth 0 name 0)
    then inl LEXER_ERROR_UPPERCASE_BOOLEAN_KEYWORD
    else inr [Name kw].
Proof.
  intros Hin Hlow.
  destruct (keyword_name_facts name kw Hin Hlow) as (_ & _ & Hnd).
  unfold classify_name.
  rewrite Hnd, (check_keyword_found name kw Hin Hlow), boolean_guard_always.
  reflexivity.
Qed.

(** C1.  A name that equals one of the nineteen keywords when its letters
    are lowered is read by the main loop as follows, whichever keyword it
    is: when its first character is a capital letter the scan exits with
    code 6 (after the line number of the token has been written); otherwise
    the keyword of the table, in lower case, is written and the scan goes on
    behind the name. *)
Theorem keyword_capital_rule b0 cs tail kw :
  stops_name tail ->
  In kw keywords ->
  map tolower (b0 :: cs) = cstr kw ->
  (forall fuel buf prev out,
      stream_at buf prev (b0 :: cs ++ tail) ->
      if isupper b0
      then lexer_loop (S fuel) buf out
           = Exited LEXER_ERROR_UPPERCASE_BOOLEAN_KEYWORD
                    (out ++ [LineNumber (current_line buf)])
      else exists buf',
          stream_at buf' (last cs b0) tail
          /\ current_line buf' = current_line buf
          /\ lexer_loop (S fuel) buf out
             = lexer_loop fuel buf'
                          (out ++ [LineNumber (current_line buf); Name kw]))
  /\ (isupper b0 = true ->
      lexer (b0 :: cs ++ tail)
      = Exited LEXER_ERROR_UPPERCASE_BOOLEAN_KEYWORD [LineNumber 1])
  /\ classify_name (b0 :: cs)
     = (if isupper b0
        then inl LEXER_ERROR_UPPERCASE_BOOLEAN_KEYWORD
        else inr [Name kw]).
Proof.
  intros Htail Hin Hlow.
  destruct (keyword_name_facts _ kw Hin Hlow) as (Hall & Hlen & _).
  inversion Hall as [| b cs' Hb0 Hcs]; subst b cs'.
  cbn [length] in Hlen.
  pose proof (classify_keyword _ kw Hin Hlow) as Hclass.
  cbn [nth] in Hclass.
  assert (Hloop : forall fuel buf prev out,
             stream_at buf prev (b0 :: cs ++ tail) ->
             if isupper b0
             then lexer_loop (S fuel) buf out
                  = Exited LEXER_ERROR_UPPERCASE_BOOLEAN_KEYWORD
                           (out ++ [LineNumber (current_line buf)])
             else exists buf',
                 stream_at buf' (last cs b0) tail
                 /\ current_line buf' = current_line buf
                 /\ lexer_loop (S fuel) buf out
                    = lexer_loop fuel buf'
                        (out ++ [LineNumber (current_line buf); Name kw])).
  { intros fuel buf prev out Hs.
    destruct (lexer_loop_name fuel buf prev b0 cs tail out Hs Hb0 Hcs Htail)
      as (buf' & Hs' & Hl' & Hrun).
    { unfold GENERAL_NAME_MAX_SIZE. lia. }
    rewrite Hclass in Hrun.
    destruct (isupper b0); [exact Hrun |].
    exists buf'. split; [exact Hs' |]. split; [exact Hl' |].
    rewrite Hrun, <- app_assoc. reflexivity. }
  split; [exact Hloop |]. split; [| exact Hclass].
  intros Hup. unfold lexer.
  destruct (init_buffer_stream (b0 :: cs ++ tail)) as [Hs Hline].
  specialize (Hloop (length (b0 :: cs ++ tail)) _ EOF [] Hs).
  rewrite Hup, Hline in Hloop. exact Hloop.
Qed.

Lemma keyword_capital_rule_witness :
  lexer (cstr "If x") = Exited 6 [LineNumber 1]
  /\ exists buf',
       lexer_loop 3 (init_buffer (mkFILE (cstr "iF x") 0)) []
       = lexer_loop 2 buf' [LineNumber 1; Name "if"%string].
Proof.
  split.
  - apply (keyword_capital_rule 73 [102] [32; 120] "if"%string).
    + unfold stops_name, byte_ok. split; [lia | reflexivity].
    + simpl. tauto.
    + reflexivity.
    + reflexivity.
  - destruct (keyword_capital_rule 105 [70] [32; 120] "if"%string)
      as [H _].
    + unfold stops_name, byte_ok. split; [lia | reflexivity].
    + simpl. tauto.
    + reflexivity.
    + destruct (H 2%nat (init_buffer (mkFILE (cstr "iF x") 0)) EOF [])
        as (buf' & _ & _ & Hrun).
      * stream_by_compute.
      * exists buf'. exact Hrun.
Defined.

(** * The integer validator *)

Lemma check_integer_values s : check_integer s = 0 \/ check_integer s = 1.
Proof.
  unfold check_integer.
  repeat match goal with
         | |- context [if ?b then _ else _] => destruct b
         end; auto.
Qed.

(** C2.  The validator accepts a string exactly when it has at most ten
    characters, all of them decimal digits, fewer than ten characters or a
    first character that is at most the digit 2, and a decimal value of at
    most 2147483647.  A name that starts with a digit and that the validator
    rejects ends the scan with exit code 5. *)
Theorem check_integer_accepts (s : list Z) :
  (check_integer s = 1 <->
   (length s <= 10)%nat
   /\ Forall is_decimal_digit s
   /\ ((length s < 10)%nat \/ nth 0 s 0 <= "2"%c)
   /\ decimal_value s <= 2147483647)
  /\ (forall tail,
        isdigit (nth 0 s 0) = true ->
        Forall name_byte s ->
        stops_name tail ->
        (length s <= GENERAL_NAME_MAX_SIZE)%nat ->
        check_integer s <> 1 ->
        (forall fuel buf prev out,
            stream_at buf prev (s ++ tail) ->
            lexer_loop (S fuel) buf out
            = Exited LEXER_ERROR_WRONG_INTEGER32_FORMAT
                     (out ++ [LineNumber (current_line buf)]))
        /\ lexer (s ++ tail)
           = Exited LEXER_ERROR_WRONG_INTEGER32_FORMAT [LineNumber 1]).
Proof.
  split.
  - unfold check_integer.
    destruct (Nat.ltb_spec 10 (length s)) as [Hlong | Hlen].
    { split; [discriminate | intros (H & _); lia]. }
    destruct (forallb isdigit s) eqn:Hdig; cbn [negb].
    2:{ split; [discriminate |]. intros (_ & H & _).
        apply forallb_isdigit in H. congruence. }
    apply forallb_isdigit in Hdig.
    destruct (Nat.eqb_spec (length s) 10) as [Hten | Hten]; cbn [andb].
    + destruct (Z.gtb_spec (nth 0 s 0) "2"%c) as [Hbig | Htop].
      { split; [discriminate |]. intros (_ & _ & [H | H] & _); lia. }
      rewrite (check_integer_convert s Hlen Hdig (or_intror Htop)).
      unfold INT32_MAX.
      destruct (Z.leb_spec (decimal_value s) 2147483647) as [Hv | Hv].
      * split; [intros _ | reflexivity].
        repeat split; auto.
      * split; [discriminate | intros (_ & _ & _ & Hle); lia].
    + assert (Hshort : (length s < 10)%nat) by lia.
      rewrite (check_integer_convert s Hlen Hdig (or_introl Hshort)).
      unfold INT32_MAX.
      destruct (Z.leb_spec (decimal_value s) 2147483647) as [Hv | Hv].
      * split; [intros _ | reflexivity].
        repeat split; auto.
      * split; [discriminate | intros (_ & _ & _ & Hle); lia].
  - intros tail Hd Hall Htail Hlen Hrej.
    assert (Hloop : forall fuel buf prev out,
               stream_at buf prev (s ++ tail) ->
               lexer_loop (S fuel) buf out
               = Exited LEXER_ERROR_WRONG_INTEGER32_FORMAT
                        (out ++ [LineNumber (current_line buf)])).
    { intros fuel buf prev out Hs.
      destruct s as [| b0 cs]; [discriminate Hd |].
      inversion Hall as [| b cs' Hb0 Hcs]; subst b cs'.
      cbn [app length nth] in *.
      destruct (lexer_loop_name fuel buf prev b0 cs tail out Hs Hb0 Hcs Htail
                                Hlen) as (buf' & _ & _ & Hrun).
      rewrite Hrun. unfold classify_name. cbn [nth]. rewrite Hd.
      destruct (Z.eqb_spec (check_integer (b0 :: cs)) 1) as [E | _];
        [contradiction | reflexivity]. }
    split; [exact Hloop |].
    unfold lexer. destruct (init_buffer_stream (s ++ tail)) as [Hs Hline].
    rewrite (Hloop _ _ EOF [] Hs), Hline. reflexivity.
Qed.

Lemma check_integer_accepts_witness :
  check_integer (cstr "2147483647") = 1
  /\ lexer (cstr "2147483648;") = Exited 5 [LineNumber 1].
Proof.
  split.
  - apply (proj1 (check_integer_accepts (cstr "2147483647"))).
    split; [simpl; lia |]. split.
    + repeat constructor; unfold is_decimal_digit; simpl; lia.
    + split; [right; simpl; lia | vm_compute; discriminate].
  - apply (proj2 (check_integer_accepts (cstr "2147483648")) (cstr ";")).
    + reflexivity.
    + repeat constructor.
    + unfold stops_name, byte_ok. split; [simpl; lia | reflexivity].
    + unfold GENERAL_NAME_MAX_SIZE. simpl. lia.
    + vm_compute. discriminate.
Defined.

(** * Looking ahead *)

Lemma next_char_lookup_cursor buf :
  same_cursor buf (snd (next_char_lookup buf)).
Proof.
  unfold same_cursor, next_char_lookup.
  destruct (Nat.eqb (current_position buf) (total_size buf)).
  - destruct (fgetc (fp buf)) as [i fp1].
    destruct ((if i =? EOF then EOF else char_of_byte i) =? EOF);
      repeat split.
  - repeat split.
Qed.

(** C9.  Neither [next_char_lookup] nor [current_char_lookup] changes the
    cursor, the number of valid bytes or the line counter of the buffer, in
    any state; this includes the states in which the block is exhausted and
    [next_char_lookup] reads a byte from the file itself. *)
Theorem lookups_keep_cursor_and_line (buf : ReadBuffer) :
  same_cursor buf (snd (next_char_lookup buf))
  /\ same_cursor buf (snd (current_char_lookup buf)).
Proof.
  split.
  - apply next_char_lookup_cursor.
  - rewrite current_char_lookup_cur. repeat split.
Qed.

(** * Terminals *)

Lemma next_char_lookup_value buf prev rest :
  stream_at buf prev rest -> head_byte rest ->
  fst (next_char_lookup buf) = lookahead rest
  /\ (lookahead rest <> EOF \/ rest = [] ->
      snd (next_char_lookup buf) = buf).
Proof.
  intros Hs Hb. destruct rest as [| b rest].
  - rewrite (next_char_lookup_nil buf prev Hs). split; [reflexivity | easy].
  - cbn [head_byte lookahead] in *.
    destruct (Z.eq_dec b 255) as [-> | Hne].
    + split; [| intros [H | H]; [now contradiction H | discriminate H]].
      destruct Hs as [(Hpt & Htl & Hlen) Hpend _].
      destruct buf as [[data off] cont pos tot line].
      unfold pending in Hpend. unfold next_char_lookup, fgetc. fields.
      destruct (Nat.eqb_spec pos tot) as [-> | Hlt].
      * rewrite Nat.sub_diag in Hpend. cbn [firstn app] in Hpend.
        apply skipn_nth_error_cons in Hpend. destruct Hpend as [Hnth _].
        rewrite Hnth. reflexivity.
      * rewrite (firstn_skipn_cons Z 0 pos tot cont) in Hpend by lia.
        cbn [app] in Hpend. injection Hpend as Hnth _.
        now rewrite Hnth.
    + rewrite (next_char_lookup_cons buf prev b rest Hs)
        by (unfold byte_ok; lia).
      split; [reflexivity | easy].
Qed.

Lemma extract_terminal_consume buf rest c la (name : string) :
  stream_at buf c rest -> head_byte rest ->
  lookahead rest = la -> la <> EOF ->
  (let '(_, buf2) := next_char buf in (Some name, buf2))
  = (Some name, snd (next_char buf))
  /\ stream_at (snd (next_char buf)) la (tl rest).
Proof.
  intros Hs Hb Hla Hne. destruct rest as [| b rest].
  - cbn [lookahead] in Hla. congruence.
  - destruct (next_char_cons buf c b rest Hs) as (buf' & Hn & Hs' & _).
    cbn [lookahead] in Hla. rewrite Hn, Hla in *. cbn [snd tl].
    split; [reflexivity | exact Hs'].
Qed.

(** With the less-than sign as the last consumed character,
    [extract_terminal] returns [larrow] and consumes the next character when
    that is a minus sign, returns [le] and consumes it when it is an equals
    sign, and otherwise returns [lt] without moving the cursor; with the
    equals sign it returns [rarrow] and consumes the next character when that
    is a greater-than sign, and otherwise returns [equals] without moving the
    cursor.  In the two other cases the whole buffer is unchanged unless the
    lookup read a byte as [EOF]. *)
Lemma extract_terminal_cases buf prev rest :
  stream_at buf prev rest -> head_byte rest ->
  (prev = "<"%c ->
   (lookahead rest = "-"%c ->
    fst (extract_terminal buf) = Some "larrow"%string
    /\ stream_at (snd (extract_terminal buf)) "-"%c (tl rest))
   /\ (lookahead rest = "="%c ->
       fst (extract_terminal buf) = Some "le"%string
       /\ stream_at (snd (extract_terminal buf)) "="%c (tl rest))
   /\ (lookahead rest <> "-"%c -> lookahead rest <> "="%c ->
       fst (extract_terminal buf) = Some "lt"%string
       /\ same_cursor buf (snd (extract_terminal buf))
       /\ (lookahead rest <> EOF \/ rest = [] ->
           snd (extract_terminal buf) = buf)))
  /\ (prev = "="%c ->
      (lookahead rest = ">"%c ->
       fst (extract_terminal buf) = Some "rarrow"%string
       /\ stream_at (snd (extract_terminal buf)) ">"%c (tl rest))
      /\ (lookahead rest <> ">"%c ->
          fst (extract_terminal buf) = Some "equals"%string
          /\ same_cursor buf (snd (extract_terminal buf))
          /\ (lookahead rest <> EOF \/ rest = [] ->
              snd (extract_terminal buf) = buf))).
Proof.
  intros Hs Hb.
  destruct (next_char_lookup_value buf prev rest Hs Hb) as [Hla Hsame].
  pose proof (next_char_lookup_cursor buf) as Hcur.
  unfold extract_terminal.
  rewrite current_char_lookup_cur, (sa_cur _ _ _ Hs).
  destruct (next_char_lookup buf) as [la buf1] eqn:Hlk.
  cbn [fst snd] in Hla, Hsame, Hcur. subst la.
  split; intros ->; cbn [Z.eqb Pos.eqb].
  - split; [| split].
    + intros E. rewrite E in *. cbn [Z.eqb Pos.eqb].
      rewrite (Hsame ltac:(left; discriminate)) in *.
      destruct (extract_terminal_consume buf rest _ _ "larrow"%string
                  Hs Hb E ltac:(discriminate)) as [-> Hs'].
      split; [reflexivity | exact Hs'].
    + intros E. rewrite E in *. cbn [Z.eqb Pos.eqb].
      rewrite (Hsame ltac:(left; discriminate)) in *.
      destruct (extract_terminal_consume buf rest _ _ "le"%string
                  Hs Hb E ltac:(discriminate)) as [-> Hs'].
      split; [reflexivity | exact Hs'].
    + intros N1 N2.
      destruct (Z.eqb_spec (lookahead rest) "-"%c); [contradiction |].
      destruct (Z.eqb_spec (lookahead rest) "="%c); [contradiction |].
      cbn [fst snd]. split; [reflexivity |]. split; [exact Hcur | exact Hsame].
  - split.
    + intros E. rewrite E in *. cbn [Z.eqb Pos.eqb].
      rewrite (Hsame ltac:(left; discriminate)) in *.
      destruct (extract_terminal_consume buf rest _ _ "rarrow"%string
                  Hs Hb E ltac:(discriminate)) as [-> Hs'].
      split; [reflexivity | exact Hs'].
    + intros N1.
      destruct (Z.eqb_spec (lookahead rest) ">"%c); [contradiction |].
      cbn [fst snd]. split; [reflexivity |]. split; [exact Hcur | exact Hsame].
Qed.

(** C8, and where the code departs from it.  The five cases hold in every
    state of the buffer; in the two default cases the cursor never moves and
    the whole buffer is unchanged, except when the lookup reads a byte as
    [EOF].  That is the failing input: a less-than sign that is the last
    byte of a block, followed in the file by the byte 255.  [extract_terminal]
    returns [lt], and the byte 255 is consumed with it (the lookup returns
    before it restores the file position), so that the scan goes on with the
    byte behind it; one position earlier in the block the same byte is left
    in place. *)
Theorem extract_terminal_lookahead :
  (forall buf prev rest,
      stream_at buf prev rest -> head_byte rest ->
      (prev = "<"%c ->
       (lookahead rest = "-"%c ->
        fst (extract_terminal buf) = Some "larrow"%string
        /\ stream_at (snd (extract_terminal buf)) "-"%c (tl rest))
       /\ (lookahead rest = "="%c ->
           fst (extract_terminal buf) = Some "le"%string
           /\ stream_at (snd (extract_terminal buf)) "="%c (tl rest))
       /\ (lookahead rest <> "-"%c -> lookahead rest <> "="%c ->
           fst (extract_terminal buf) = Some "lt"%string
           /\ same_cursor buf (snd (extract_terminal buf))
           /\ (lookahead rest <> EOF \/ rest = [] ->
               snd (extract_terminal buf) = buf)))
      /\ (prev = "="%c ->
          (lookahead rest = ">"%c ->
           fst (extract_terminal buf) = Some "rarrow"%string
           /\ stream_at (snd (extract_terminal buf)) ">"%c (tl rest))
          /\ (lookahead rest <> ">"%c ->
              fst (extract_terminal buf) = Some "equals"%string
              /\ same_cursor buf (snd (extract_terminal buf))
              /\ (lookahead rest <> EOF \/ rest = [] ->
                  snd (extract_terminal buf) = buf))))
  /\ (let buf :=
         snd (next_chars 4096
                (init_buffer
                   (mkFILE (repeat " "%c 4095 ++ cstr "<" ++ [255]
                                   ++ cstr "x") 0))) in
       cur buf = "<"%c
       /\ pending buf = 255 :: cstr "x"
       /\ fst (extract_terminal buf) = Some "lt"%string
       /\ pending (snd (extract_terminal buf)) = cstr "x")
  /\ lexer (repeat " "%c 4095 ++ cstr "<" ++ [255] ++ cstr "x")
     = Finished [LineNumber 1; Name "lt";
                 LineNumber 1; Name "identifier"; Text (cstr "x")]
  /\ lexer (repeat " "%c 4094 ++ cstr "<" ++ [255] ++ cstr "x")
     = Finished [LineNumber 1; Name "lt"].
Proof.
  split; [exact extract_terminal_cases |].
  split; [| split]; vm_compute; repeat split; reflexivity.
Qed.

Lemma extract_terminal_lookahead_witness :
  let buf := snd (next_char (init_buffer (mkFILE (cstr "<-x") 0))) in
  fst (extract_terminal buf) = Some "larrow"%string
  /\ stream_at (snd (extract_terminal buf)) "-"%c [120].
Proof.
  intros buf.
  refine (proj1 (proj1 (proj1 extract_terminal_lookahead
                              buf "<"%c [45; 120] _ _)
                       eq_refl) eq_refl).
  - stream_by_compute.
  - unfold head_byte. lia.
Defined.

(** A byte 255 that the lookup reads from the file, past the end of the
    block, is taken for [EOF] and the file position is not restored: the
    byte is lost and the scan goes on behind it.  The same byte inside the
    block ends the scan when [next_char] returns it. *)
Example lookup_at_block_end_loses_byte_255 :
  lexer (repeat " "%c 4095 ++ cstr "<" ++ [255] ++ cstr "x")
  = Finished [LineNumber 1; Name "lt";
              LineNumber 1; Name "identifier"; Text (cstr "x")]
  /\ lexer (repeat " "%c 4094 ++ cstr "<" ++ [255] ++ cstr "x")
     = Finished [LineNumber 1; Name "lt"].
Proof. split; vm_compute; reflexivity. Qed.

(** The examples of the specification, scanned from a file. *)
Example lexer_examples :
  lexer (cstr "3") = Finished [LineNumber 1; Name "integer"; Text (cstr "3")]
  /\ lexer (cstr "x")
     = Finished [LineNumber 1; Name "identifier"; Text (cstr "x")]
  /\ lexer (cstr "Foo")
     = Finished [LineNumber 1; Name "type"; Text (cstr "Foo")]
  /\ lexer (cstr "-- comment" ++ [NEWLINE] ++ cstr "x")
     = Finished [LineNumber 2; Name "identifier"; Text (cstr "x")]
  /\ lexer (repeat "a"%c 1025)
     = Exited LEXER_ERROR_IDENTIFIER_NAME_TOO_LONG [LineNumber 1].
Proof. repeat split; vm_compute; reflexivity. Qed.

Example lexer_operators :
  lexer (cstr "<- <= < => =")
  = Finished [LineNumber 1; Name "larrow"; LineNumber 1; Name "le";
              LineNumber 1; Name "lt"; LineNumber 1; Name "rarrow";
              LineNumber 1; Name "equals"].
Proof. vm_compute. reflexivity. Qed.

(** * Block comments *)

Lemma byte_ok_char_eq b c :
  byte_ok b -> 0 <= c < 128 -> (char_of_byte b =? c) = (b =? c).
Proof.
  unfold byte_ok, char_of_byte. intros Hb Hc.
  destruct (Z.ltb_spec b 128); lia.
Qed.

Lemma has_closer_char b r :
  byte_ok b -> has_closer (char_of_byte b :: r) = has_closer (b :: r).
Proof.
  intros Hb. destruct r as [| n r]; [reflexivity |].
  cbn [has_closer]. rewrite (byte_ok_char_eq b "*"%c Hb) by lia.
  reflexivity.
Qed.

(** Without a closer the loop of the block comment runs to the end of the
    input. *)
Lemma block_comment_loop_unterminated body :
  forall fuel buf c,
    stream_at buf c body ->
    c <> EOF ->
    has_closer (c :: body) = false ->
    Forall byte_ok body ->
    (length body + 2 <= fuel)%nat ->
    exists buf',
      block_comment_loop fuel buf c = Ok tt buf'
      /\ stream_at buf' EOF [].
Proof.
  induction body as [| b body IH]; intros fuel buf c Hs Hc Hno Hok Hfuel.
  - destruct fuel as [| [| fuel]]; [simpl in Hfuel; lia .. |].
    destruct (next_char_nil buf c Hs) as (buf' & Hn & Hs' & _).
    exists buf'. split; [| exact Hs'].
    cbn [block_comment_loop].
    destruct (Z.eqb_spec c EOF) as [E | _]; [contradiction |].
    rewrite (next_char_lookup_nil buf c Hs), Hn.
    destruct (c =? "*"%c); reflexivity.
  - destruct fuel as [| fuel]; [simpl in Hfuel; lia |].
    inversion Hok as [| b' body' Hb Hbody]; subst b' body'.
    destruct (next_char_cons buf c b body Hs) as (buf1 & Hn & Hs1 & _).
    assert (Hrest : has_closer (char_of_byte b :: body) = false).
    { rewrite (has_closer_char b body Hb).
      cbn [has_closer] in Hno. apply orb_false_iff in Hno. apply Hno. }
    destruct (IH fuel buf1 (char_of_byte b) Hs1 (char_of_byte_eof b Hb)
                 Hrest Hbody) as (buf' & Hrun & Hs').
    { simpl in Hfuel. lia. }
    exists buf'. split; [| exact Hs'].
    cbn [block_comment_loop].
    destruct (Z.eqb_spec c EOF) as [E | _]; [contradiction |].
    rewrite (next_char_lookup_cons buf c b body Hs Hb), Hn.
    destruct (Z.eqb_spec c "*"%c) as [-> | _]; [| exact Hrun].
    cbn [has_closer] in Hno. apply orb_false_iff in Hno.
    destruct Hno as [Hno _]. cbn [Z.eqb Pos.eqb andb] in Hno.
    rewrite (byte_ok_char_eq b ")"%c Hb), Hno by lia.
    exact Hrun.
Qed.

Lemma remove_comments_unterminated buf body :
  stream_at buf "("%c ("*"%c :: body) ->
  has_closer ("*"%c :: body) = false ->
  Forall byte_ok body ->
  exists buf',
    remove_comments buf = Ok 1 buf' /\ stream_at buf' EOF [].
Proof.
  intros Hs Hno Hok.
  assert (Hstar : byte_ok "*"%c) by (unfold byte_ok; lia).
  destruct (block_comment_loop_unterminated ("*"%c :: body)
              (2 + length ("*"%c :: body)) buf "("%c Hs)
    as (buf1 & Hrun & Hs1).
  { discriminate. }
  { exact Hno. }
  { constructor; assumption. }
  { lia. }
  destruct (next_char_nil buf1 EOF Hs1) as (buf2 & Hn & Hs2 & _).
  exists buf2. split; [| exact Hs2].
  unfold remove_comments.
  rewrite current_char_lookup_cur, (sa_cur _ _ _ Hs).
  cbn [Z.eqb Pos.eqb].
  rewrite (next_char_lookup_cons buf _ _ _ Hs Hstar).
  cbn [char_of_byte Z.ltb Z.compare Pos.compare Pos.compare_cont Z.eqb
       Pos.eqb].
  rewrite (sa_pending _ _ _ Hs), Hrun, Hn. reflexivity.
Qed.

(** C7, and where the code departs from it.  When the bytes that follow
    the opening parenthesis of a block comment are not read as [EOF] and
    hold no asterisk immediately followed by a closing parenthesis,
    [remove_comments] takes every byte up to the end of the input and
    returns 1, the main loop then ends normally with nothing written for the
    comment, and a file that starts with such a comment yields no token.
    The failing input has the byte 255 in the comment: the loop takes it for
    [EOF] and ends the comment there, the byte behind it is dropped in place
    of the closing parenthesis, and the rest is scanned as code, here to
    exit code 7 or to a token. *)
Theorem unterminated_block_comment :
  (forall body,
      has_closer ("*"%c :: body) = false ->
      Forall byte_ok body ->
      (forall buf,
          stream_at buf "("%c ("*"%c :: body) ->
          exists buf',
            remove_comments buf = Ok 1 buf' /\ stream_at buf' EOF [])
      /\ (forall fuel buf prev out,
             stream_at buf prev ("("%c :: "*"%c :: body) ->
             (2 <= fuel)%nat ->
             lexer_loop fuel buf out = Finished out)
      /\ lexer ("("%c :: "*"%c :: body) = Finished [])
  /\ lexer (cstr "(*" ++ [255] ++ cstr " #")
     = Exited LEXER_ERROR_INVALID_CHARACTER [LineNumber 1]
  /\ lexer (cstr "(* a" ++ [255] ++ cstr " b")
     = Finished [LineNumber 1; Name "identifier"; Text (cstr "b")].
Proof.
  split; [| split; vm_compute; reflexivity].
  intros body Hno Hok.
  assert (Hloop : forall fuel buf prev out,
             stream_at buf prev ("("%c :: "*"%c :: body) ->
             (2 <= fuel)%nat ->
             lexer_loop fuel buf out = Finished out).
  { intros fuel buf prev out Hs Hfuel.
    destruct fuel as [| [| fuel]]; [lia .. |].
    destruct (next_char_cons buf prev _ _ Hs) as (buf1 & Hn & Hs1 & _).
    change (char_of_byte "("%c) with "("%c in *.
    destruct (remove_comments_unterminated buf1 body Hs1 Hno Hok)
      as (buf2 & Hrm & Hs2).
    destruct (next_char_nil buf2 EOF Hs2) as (buf3 & Hn3 & _).
    cbn [lexer_loop]. rewrite Hn.
    cbn [Z.eqb iswhitespace orb]. rewrite Hrm.
    cbn [Z.eqb negb]. rewrite Hn3. reflexivity. }
  split; [| split; [exact Hloop |]].
  - intros buf Hs. exact (remove_comments_unterminated buf body Hs Hno Hok).
  - unfold lexer.
    apply (Hloop _ _ EOF).
    + apply init_buffer_stream.
    + cbn [length]. lia.
Qed.

Lemma unterminated_block_comment_witness :
  lexer (cstr "(* unterminated") = Finished [].
Proof.
  apply (proj1 unterminated_block_comment (cstr " unterminated")).
  - reflexivity.
  - repeat constructor; unfold byte_ok; simpl; lia.
Defined.

(** C10.  The three characters open parenthesis, asterisk, close parenthesis
    are one complete comment: the asterisk of the opener is also taken as the
    asterisk of the closer.  The main loop consumes the three of them in one
    turn, writes nothing, and goes on with the byte that follows. *)
Theorem star_paren_is_comment :
  (forall fuel buf prev rest out,
      stream_at buf prev ("("%c :: "*"%c :: ")"%c :: rest) ->
      exists buf',
        stream_at buf' ")"%c rest
        /\ current_line buf' = current_line buf
        /\ lexer_loop (S fuel) buf out = lexer_loop fuel buf' out)
  /\ lexer (cstr "(*)") = Finished []
  /\ lexer (cstr "(*)x")
     = Finished [LineNumber 1; Name "identifier"; Text (cstr "x")].
Proof.
  split; [| split; vm_compute; reflexivity].
  intros fuel buf prev rest out Hs.
  assert (Hstar : byte_ok "*"%c) by (unfold byte_ok; lia).
  assert (Hpar : byte_ok ")"%c) by (unfold byte_ok; lia).
  destruct (next_char_cons buf prev _ _ Hs) as (buf1 & Hn1 & Hs1 & Hl1).
  destruct (next_char_cons buf1 _ _ _ Hs1) as (buf2 & Hn2 & Hs2 & Hl2).
  destruct (next_char_cons buf2 _ _ _ Hs2) as (buf3 & Hn3 & Hs3 & Hl3).
  change (char_of_byte "("%c) with "("%c in *.
  change (char_of_byte "*"%c) with "*"%c in *.
  change (char_of_byte ")"%c) with ")"%c in *.
  exists buf3. split; [exact Hs3 |]. split.
  { rewrite Hl3, Hl2, Hl1. reflexivity. }
  cbn [lexer_loop]. rewrite Hn1. chars.
  unfold remove_comments.
  rewrite current_char_lookup_cur, (sa_cur _ _ _ Hs1). chars.
  rewrite (next_char_lookup_cons buf1 _ _ _ Hs1 Hstar). chars.
  rewrite (sa_pending _ _ _ Hs1).
  cbn [length Nat.add block_comment_loop]. chars.
  rewrite Hn2. chars.
  rewrite (next_char_lookup_cons buf2 _ _ _ Hs2 Hpar). chars.
  rewrite Hn3. chars. reflexivity.
Qed.

Lemma star_paren_is_comment_witness :
  exists buf',
    lexer_loop 4 (init_buffer (mkFILE (cstr "(*)x") 0)) []
    = lexer_loop 3 buf' [] /\ pending buf' = cstr "x".
Proof.
  destruct (proj1 star_paren_is_comment 3%nat
                  (init_buffer (mkFILE (cstr "(*)x") 0)) EOF (cstr "x") [])
    as (buf' & Hs & _ & Hrun).
  - stream_by_compute.
  - exists buf'. split; [exact Hrun | exact (sa_pending _ _ _ Hs)].
Defined.

(** * String literals *)

Lemma clean_prev p q body :
  (p = BACKSLASH <-> q = BACKSLASH) -> clean p body -> clean q body.
Proof.
  intros Hpq. destruct body as [| b r]; [easy |].
  cbn [clean]. intros (H1 & H2 & H3 & H4 & H5).
  split; [exact H1 |]. split; [exact H2 |].
  split; [| split; [| exact H5]]; intros E; apply Hpq; auto.
Qed.

Lemma byte_ok_char_is b c :
  byte_ok b -> 0 <= c < 128 -> char_of_byte b = c <-> b = c.
Proof.
  unfold byte_ok, char_of_byte. intros Hb Hc.
  destruct (Z.ltb_spec b 128); lia.
Qed.

Lemma head_ok_byte rest : head_ok rest -> head_byte rest.
Proof. destruct rest; [easy |]. cbn. unfold byte_ok. lia. Qed.

Lemma head_ok_lookahead rest :
  head_ok rest -> lookahead rest <> EOF \/ rest = [].
Proof.
  destruct rest as [| b r]; [now right |].
  cbn. intros H. left. apply char_of_byte_eof, H.
Qed.

Lemma head_ok_app body tail prev :
  clean prev body -> head_ok tail -> head_ok (body ++ tail).
Proof.
  destruct body as [| b r]; [easy |].
  cbn [clean app head_ok]. now intros (H & _) _.
Qed.

Lemma last_char_cons prev b r :
  last_char prev (b :: r) = last_char (char_of_byte b) r.
Proof. unfold last_char. cbn [map]. apply last_cons_shift. Qed.

(** One turn of the loop of [extract_string] on the first byte of a clean
    content: a backslash and the newline behind it are dropped, any other
    byte is stored. *)
Lemma extract_string_loop_step tail fuel buf prev acc b r :
  head_ok tail -> lookahead tail <> NEWLINE ->
  stream_at buf prev (b :: r ++ tail) ->
  clean prev (b :: r) ->
  (length acc < LITERAL_STRING_MAX_SIZE)%nat ->
  (exists r' buf',
      r = NEWLINE :: r'
      /\ extract_string_loop (S fuel) buf acc
         = extract_string_loop fuel buf' acc
      /\ stream_at buf' NEWLINE (r' ++ tail)
      /\ clean NEWLINE r'
      /\ lookahead (r' ++ tail) <> NEWLINE
      /\ literal_text (b :: r) = literal_text r'
      /\ last_char prev (b :: r) = last_char NEWLINE r')
  \/ (exists buf',
         extract_string_loop (S fuel) buf acc
         = extract_string_loop fuel buf' (acc ++ [char_of_byte b])
         /\ stream_at buf' (char_of_byte b) (r ++ tail)
         /\ clean (char_of_byte b) r
         /\ lookahead (r ++ tail) <> NEWLINE
         /\ literal_text (b :: r) = char_of_byte b :: literal_text r
         /\ last_char prev (b :: r) = last_char (char_of_byte b) r).
Proof.
  intros Htb Htn Hs Hc Hlen.
  cbn [clean] in Hc. destruct Hc as (Hb & Hnul & Hq & Hnl & Hr).
  destruct (next_char_cons buf prev b _ Hs) as (buf1 & Hn1 & Hs1 & _).
  assert (Hhead : head_ok (r ++ tail))
    by (apply (head_ok_app r tail b Hr Htb)).
  destruct (next_char_lookup_value buf1 _ _ Hs1 (head_ok_byte _ Hhead))
    as [Hv Hsame].
  specialize (Hsame (head_ok_lookahead _ Hhead)).
  assert (Hclose :
            negb (prev =? BACKSLASH) && (char_of_byte b =? DQUOTE) = false).
  { destruct (Z.eqb_spec (char_of_byte b) DQUOTE) as [E | _];
      [| apply andb_false_r].
    apply (byte_ok_char_is b DQUOTE Hb) in E; [| unfold DQUOTE; lia].
    rewrite (Hq E), Z.eqb_refl. reflexivity. }
  assert (Hvalid :
            (char_of_byte b =? NUL) || (char_of_byte b =? EOF) = false).
  { apply orb_false_iff. split; apply Z.eqb_neq.
    - intros E. apply (byte_ok_char_is b NUL Hb) in E;
        [contradiction | unfold NUL; lia].
    - apply char_of_byte_eof, Hb. }
  assert (Hsize : Nat.eqb (length acc) LITERAL_STRING_MAX_SIZE = false).
  { apply Nat.eqb_neq. lia. }
  destruct (next_char_lookup buf1) as [la buf1'] eqn:Hlk.
  cbn [fst snd] in Hv, Hsame. subst la buf1'.
  assert (Hrun : extract_string_loop (S fuel) buf acc
                 = if lookahead (r ++ tail) =? NEWLINE
                   then if char_of_byte b =? BACKSLASH
                        then let '(_, buf4) := next_char buf1 in
                             extract_string_loop fuel buf4 acc
                        else Exit LEXER_ERROR_NON_ESCAPED_NEWLINE
                   else extract_string_loop fuel buf1
                                            (acc ++ [char_of_byte b])).
  { cbn [extract_string_loop].
    rewrite Hsize, current_char_lookup_cur, (sa_cur _ _ _ Hs), Hn1.
    cbv beta iota. rewrite Hclose, Hvalid, Hlk. reflexivity. }
  destruct (Z.eqb_spec (lookahead (r ++ tail)) NEWLINE) as [Enl | Enl].
  - (* a backslash and a newline *)
    left. destruct r as [| m r']; [contradiction |].
    cbn [app lookahead clean] in *.
    destruct Hr as (Hm & _ & _ & Hmb & Hr').
    apply (byte_ok_char_is m NEWLINE Hm) in Enl; [| unfold NEWLINE; lia].
    subst m. specialize (Hmb eq_refl). subst b.
    destruct (next_char_cons buf1 _ _ _ Hs1) as (buf2 & Hn2 & Hs2 & _).
    change (char_of_byte NEWLINE) with NEWLINE in *.
    change (char_of_byte BACKSLASH =? BACKSLASH) with true in Hrun.
    cbv beta iota in Hrun. rewrite Hn2 in Hrun.
    exists r', buf2.
    split; [reflexivity |]. split; [exact Hrun |]. split; [exact Hs2 |].
    split; [exact Hr' |]. split; [| split; [reflexivity |]].
    + destruct r' as [| k r'']; [exact Htn |].
      cbn [app lookahead clean] in *.
      destruct Hr' as (Hk & _ & _ & Hkb & _).
      intros E. apply (byte_ok_char_is k NEWLINE Hk) in E;
        [| unfold NEWLINE; lia].
      specialize (Hkb E). discriminate Hkb.
    + now rewrite !last_char_cons.
  - (* a stored character *)
    right. exists buf1.
    split; [exact Hrun |]. split; [exact Hs1 |].
    split; [| split; [exact Enl | split]].
    + apply (clean_prev b); [| exact Hr].
      symmetry. apply (byte_ok_char_is b BACKSLASH Hb).
      unfold BACKSLASH. lia.
    + destruct r as [| m r']; [reflexivity |].
      cbn [literal_text]. cbn [app lookahead clean] in *.
      destruct Hr as (Hm & _).
      destruct (Z.eqb_spec m NEWLINE) as [E | _];
        [| now rewrite andb_false_r].
      exfalso. apply Enl. subst m. reflexivity.
    + apply last_char_cons.
Qed.

(** The loop of [extract_string] over a clean content whose text fits: it
    stores the text and arrives in front of what follows the content. *)
Lemma extract_string_loop_clean tail :
  head_ok tail -> lookahead tail <> NEWLINE ->
  forall n body,
    (length body <= n)%nat ->
    forall fuel buf prev acc,
      stream_at buf prev (body ++ tail) ->
      clean prev body ->
      (length acc + length (literal_text body)
       < LITERAL_STRING_MAX_SIZE)%nat ->
      (length body < fuel)%nat ->
      exists fuel' buf',
        extract_string_loop fuel buf acc
        = extract_string_loop fuel' buf' (acc ++ literal_text body)
        /\ stream_at buf' (last_char prev body) tail
        /\ (fuel <= fuel' + length body)%nat.
Proof.
  intros Htb Htn.
  induction n as [| n IH]; intros body Hn fuel buf prev acc Hs Hc Hlen Hf.
  - destruct body; [| simpl in Hn; lia].
    exists fuel, buf. cbn [literal_text app length] in *.
    rewrite app_nil_r. split; [reflexivity |]. split; [exact Hs | lia].
  - destruct body as [| b r].
    { exists fuel, buf. cbn [literal_text app length] in *.
      rewrite app_nil_r. split; [reflexivity |]. split; [exact Hs | lia]. }
    destruct fuel as [| fuel]; [lia |].
    cbn [app length] in Hs, Hn, Hf.
    destruct (extract_string_loop_step tail fuel buf prev acc b r
                Htb Htn Hs Hc ltac:(lia))
      as [(r' & buf1 & -> & Hrun & Hs1 & Hc1 & _ & Ht & Hl)
         | (buf1 & Hrun & Hs1 & Hc1 & _ & Ht & Hl)];
      rewrite Hrun, Ht, Hl in *; cbn [length] in Hn, Hf, Hlen.
    + destruct (IH r' ltac:(lia) fuel buf1 NEWLINE acc Hs1 Hc1 Hlen)
        as (fuel' & buf' & Hrun' & Hs' & Hf'); [lia |].
      exists fuel', buf'. split; [exact Hrun' |].
      split; [exact Hs' | cbn [length]; lia].
    + destruct (IH r ltac:(lia) fuel buf1 (char_of_byte b)
                   (acc ++ [char_of_byte b]) Hs1 Hc1)
        as (fuel' & buf' & Hrun' & Hs' & Hf').
      * rewrite length_app. cbn [length]. lia.
      * lia.
      * exists fuel', buf'. rewrite Hrun', <- app_assoc.
        split; [reflexivity |].
        split; [exact Hs' | cbn [length]; lia].
Qed.

(** The loop exits with code 4 as soon as the text of a clean content has
    [LITERAL_STRING_MAX_SIZE] characters. *)
Lemma extract_string_loop_full tail :
  head_ok tail -> lookahead tail <> NEWLINE ->
  forall n body,
    (length body <= n)%nat ->
    forall fuel buf prev acc,
      stream_at buf prev (body ++ tail) ->
      clean prev body ->
      (length acc <= LITERAL_STRING_MAX_SIZE)%nat ->
      (LITERAL_STRING_MAX_SIZE
       <= length acc + length (literal_text body))%nat ->
      (length body < fuel)%nat ->
      extract_string_loop fuel buf acc
      = Exit LEXER_ERROR_STRING_LITERAL_TOO_LONG.
Proof.
  intros Htb Htn.
  assert (Hfull : forall fuel buf acc,
             length acc = LITERAL_STRING_MAX_SIZE ->
             extract_string_loop (S fuel) buf acc
             = Exit LEXER_ERROR_STRING_LITERAL_TOO_LONG).
  { intros fuel buf acc E. cbn [extract_string_loop].
    now rewrite E, Nat.eqb_refl. }
  induction n as [| n IH];
    intros body Hn fuel buf prev acc Hs Hc Hle Hge Hf;
    (destruct fuel as [| fuel]; [lia |]).
  - destruct body; [| simpl in Hn; lia].
    cbn [literal_text length] in Hge. apply Hfull. lia.
  - destruct (Nat.eq_dec (length acc) LITERAL_STRING_MAX_SIZE) as [E | Hlt];
      [now apply Hfull |].
    destruct body as [| b r].
    { cbn [literal_text length] in Hge. lia. }
    cbn [app length] in Hs, Hn, Hf.
    destruct (extract_string_loop_step tail fuel buf prev acc b r
                Htb Htn Hs Hc ltac:(lia))
      as [(r' & buf1 & -> & Hrun & Hs1 & Hc1 & _ & Ht & _)
         | (buf1 & Hrun & Hs1 & Hc1 & _ & Ht & _)];
      rewrite Hrun; rewrite Ht in Hge; cbn [length] in Hn, Hf, Hge.
    + apply (IH r' ltac:(lia) fuel buf1 NEWLINE acc Hs1 Hc1); lia.
    + apply (IH r ltac:(lia) fuel buf1 (char_of_byte b) _ Hs1 Hc1);
        rewrite ?length_app; cbn [length]; lia.
Qed.

Lemma clean_app p l1 l2 :
  clean p (l1 ++ l2) -> clean p l1 /\ clean (last l1 p) l2.
Proof.
  revert p. induction l1 as [| b l1 IH]; intros p H; [now split |].
  cbn [app clean] in H. destruct H as (H1 & H2 & H3 & H4 & H5).
  apply IH in H5. destruct H5 as [H5 H6].
  split; [cbn [clean]; auto |].
  rewrite last_cons_shift. exact H6.
Qed.

Lemma clean_last_char p body l :
  clean p body -> clean (last body p) l -> clean (last_char p body) l.
Proof.
  intros Hc. apply clean_prev.
  unfold last_char. revert p Hc.
  induction body as [| b body IH]; intros p Hc; [reflexivity |].
  cbn [map]. rewrite !last_cons_shift.
  cbn [clean] in Hc. destruct Hc as (Hb & _ & _ & _ & Hc).
  destruct body as [| b2 body2].
  - cbn [map last]. symmetry. apply (byte_ok_char_is b BACKSLASH Hb).
    unfold BACKSLASH. lia.
  - specialize (IH b Hc). cbn [map] in IH. rewrite !last_cons_shift in IH.
    cbn [map]. rewrite !last_cons_shift. exact IH.
Qed.

(** The main loop on a double quote hands over to [extract_string]. *)
Lemma lexer_loop_string fuel buf prev rest out :
  stream_at buf prev (DQUOTE :: rest) ->
  exists buf1,
    stream_at buf1 DQUOTE rest
    /\ current_line buf1 = current_line buf
    /\ lexer_loop (S fuel) buf out
       = match extract_string buf1 with
         | OutOfFuel => NoFuel
         | Exit code => Exited code (out ++ [LineNumber (current_line buf)])
         | Ok name_buffer buf3 =>
             lexer_loop fuel buf3
                        ((out ++ [LineNumber (current_line buf)])
                           ++ [Name "string"; Text name_buffer])
         end.
Proof.
  intros Hs.
  destruct (next_char_cons buf prev _ _ Hs) as (buf1 & Hn & Hs1 & Hl).
  change (char_of_byte DQUOTE) with DQUOTE in *.
  change (DQUOTE =? NEWLINE) with false in Hl.
  exists buf1. split; [exact Hs1 |]. split; [exact Hl |].
  cbn [lexer_loop]. rewrite Hn.
  change (DQUOTE =? EOF) with false.
  change (iswhitespace DQUOTE) with false. cbv beta iota.
  rewrite (remove_comments_other buf1 DQUOTE (sa_cur _ _ _ Hs1))
    by discriminate.
  change (negb (0 =? 0)) with false.
  change (DQUOTE =? DQUOTE) with true. cbv beta iota.
  rewrite Hl. reflexivity.
Qed.

(** The loop over a clean content that is closed by a double quote which
    does not follow a backslash: the text is returned. *)
Lemma extract_string_loop_closed fuel buf prev acc body rest :
  stream_at buf prev (body ++ DQUOTE :: rest) ->
  clean prev body ->
  last_char prev body <> BACKSLASH ->
  (length acc + length (literal_text body) < LITERAL_STRING_MAX_SIZE)%nat ->
  (S (length body) < fuel)%nat ->
  exists buf',
    extract_string_loop fuel buf acc = Ok (acc ++ literal_text body) buf'
    /\ stream_at buf' DQUOTE rest.
Proof.
  intros Hs Hc Hlast Hlen Hfuel.
  destruct (extract_string_loop_clean (DQUOTE :: rest)
              ltac:(unfold head_ok, byte_ok, DQUOTE; lia)
              ltac:(discriminate)
              (length body) body (le_n _) fuel buf prev acc Hs Hc Hlen
              ltac:(lia))
    as (fuel' & buf1 & Hrun & Hs1 & Hf).
  rewrite Hrun.
  destruct fuel' as [| fuel']; [lia |].
  destruct (next_char_cons buf1 _ _ _ Hs1) as (buf2 & Hn & Hs2 & _).
  change (char_of_byte DQUOTE) with DQUOTE in *.
  exists buf2. split; [| exact Hs2].
  cbn [extract_string_loop].
  destruct (Nat.eqb_spec (length (acc ++ literal_text body))
                         LITERAL_STRING_MAX_SIZE) as [E | _];
    [rewrite length_app in E; lia |].
  rewrite current_char_lookup_cur, (sa_cur _ _ _ Hs1), Hn.
  cbv beta iota.
  destruct (Z.eqb_spec (last_char prev body) BACKSLASH);
    [contradiction | reflexivity].
Qed.

(** A clean content with fewer than [LITERAL_STRING_MAX_SIZE] characters of
    text, closed by a double quote that does not follow a backslash, is
    extracted whole; a backslash followed by a newline leaves nothing in the
    text. *)
Lemma extract_string_closed buf body rest :
  stream_at buf DQUOTE (body ++ DQUOTE :: rest) ->
  clean DQUOTE body ->
  last_char DQUOTE body <> BACKSLASH ->
  (length (literal_text body) < LITERAL_STRING_MAX_SIZE)%nat ->
  exists buf',
    extract_string buf = Ok (literal_text body) buf'
    /\ stream_at buf' DQUOTE rest.
Proof.
  intros Hs Hc Hlast Hlen. unfold extract_string.
  rewrite (sa_pending _ _ _ Hs).
  apply (extract_string_loop_closed _ buf DQUOTE [] body rest Hs Hc Hlast).
  - exact Hlen.
  - rewrite length_app. cbn [length]. lia.
Qed.

(** A newline right after the opening quote is stored like any character:
    the test for a newline is made on the character after the current one
    only. *)
Lemma extract_string_newline_first buf body rest :
  stream_at buf DQUOTE (NEWLINE :: body ++ DQUOTE :: rest) ->
  clean NEWLINE body ->
  last_char NEWLINE body <> BACKSLASH ->
  (S (length (literal_text body)) < LITERAL_STRING_MAX_SIZE)%nat ->
  exists buf',
    extract_string buf = Ok (NEWLINE :: literal_text body) buf'
    /\ stream_at buf' DQUOTE rest.
Proof.
  intros Hs Hc Hlast Hlen. unfold extract_string.
  rewrite (sa_pending _ _ _ Hs).
  destruct (next_char_cons buf _ _ _ Hs) as (buf1 & Hn & Hs1 & _).
  change (char_of_byte NEWLINE) with NEWLINE in *.
  assert (Hhead : head_ok (body ++ DQUOTE :: rest)).
  { apply (head_ok_app body _ NEWLINE Hc).
    unfold head_ok, byte_ok, DQUOTE. lia. }
  assert (Hnl : lookahead (body ++ DQUOTE :: rest) <> NEWLINE).
  { destruct body as [| m body']; [discriminate |].
    cbn [app lookahead clean] in *. destruct Hc as (Hm & _ & _ & Hmn & _).
    intros E. apply (byte_ok_char_is m NEWLINE Hm) in E;
      [| unfold NEWLINE; lia].
    specialize (Hmn E). discriminate Hmn. }
  destruct (next_char_lookup_value buf1 _ _ Hs1 (head_ok_byte _ Hhead))
    as [Hv Hsame].
  specialize (Hsame (head_ok_lookahead _ Hhead)).
  destruct (next_char_lookup buf1) as [la buf1'] eqn:Hlk.
  cbn [fst snd] in Hv, Hsame. subst la buf1'.
  destruct (extract_string_loop_closed
              (length (body ++ DQUOTE :: rest) + 1) buf1 NEWLINE [NEWLINE]
              body rest Hs1 Hc Hlast)
    as (buf2 & Hrun & Hs2).
  { cbn [length]. lia. }
  { rewrite length_app. cbn [length]. lia. }
  exists buf2. split; [| exact Hs2].
  cbn [length]. rewrite <- Nat.add_1_r.
  rewrite (Nat.add_comm _ 1). cbn [Nat.add extract_string_loop length].
  change (Nat.eqb 0 LITERAL_STRING_MAX_SIZE) with false. cbv beta iota.
  rewrite current_char_lookup_cur, (sa_cur _ _ _ Hs), Hn.
  cbv beta iota.
  change (negb (DQUOTE =? BACKSLASH) && (NEWLINE =? DQUOTE)) with false.
  change ((NEWLINE =? NUL) || (NEWLINE =? EOF)) with false.
  cbv beta iota. rewrite Hlk.
  apply Z.eqb_neq in Hnl. rewrite Hnl.
  rewrite Nat.add_comm in Hrun. exact Hrun.
Qed.

(** A clean content that is followed by the null character or by the end of
    the input instead: exit code 8. *)
Lemma extract_string_unterminated buf body tail :
  stream_at buf DQUOTE (body ++ tail) ->
  clean DQUOTE body ->
  (length (literal_text body) < LITERAL_STRING_MAX_SIZE)%nat ->
  tail = [] \/ (exists rest, tail = NUL :: rest) ->
  extract_string buf = Exit LEXER_ERROR_INVALID_STRING_CHARACTER.
Proof.
  intros Hs Hc Hlen Htail. unfold extract_string.
  rewrite (sa_pending _ _ _ Hs).
  destruct (extract_string_loop_clean tail) with
    (n := length body) (body := body)
    (fuel := S (length (body ++ tail))) (buf := buf) (prev := DQUOTE)
    (acc := @nil Z)
    as (fuel' & buf1 & Hrun & Hs1 & Hf); try assumption.
  { destruct Htail as [-> | (rest & ->)]; [exact I |].
    unfold head_ok, byte_ok, NUL. lia. }
  { destruct Htail as [-> | (rest & ->)]; discriminate. }
  { apply le_n. }
  { rewrite length_app. lia. }
  rewrite Hrun. cbn [app].
  rewrite length_app in Hf.
  destruct fuel' as [| fuel']; [lia |].
  cbn [extract_string_loop].
  destruct (Nat.eqb_spec (length (literal_text body))
                         LITERAL_STRING_MAX_SIZE) as [E | _]; [lia |].
  rewrite current_char_lookup_cur.
  destruct Htail as [-> | (rest & ->)].
  - destruct (next_char_nil buf1 _ Hs1) as (buf2 & Hn & _).
    rewrite Hn. cbv beta iota.
    change (EOF =? DQUOTE) with false. rewrite andb_false_r.
    reflexivity.
  - destruct (next_char_cons buf1 _ _ _ Hs1) as (buf2 & Hn & _).
    rewrite Hn. cbv beta iota.
    change (char_of_byte NUL =? DQUOTE) with false. rewrite andb_false_r.
    reflexivity.
Qed.

(** A content character other than a backslash that is followed by a
    newline: exit code 9. *)
Lemma extract_string_raw_newline buf body b rest :
  stream_at buf DQUOTE (body ++ b :: NEWLINE :: rest) ->
  clean DQUOTE (body ++ [b]) ->
  b <> BACKSLASH -> b <> NEWLINE ->
  (length (literal_text body) < LITERAL_STRING_MAX_SIZE)%nat ->
  extract_string buf = Exit LEXER_ERROR_NON_ESCAPED_NEWLINE.
Proof.
  intros Hs Hc Hbs Hbn Hlen. unfold extract_string.
  rewrite (sa_pending _ _ _ Hs).
  apply clean_app in Hc. destruct Hc as [Hc Hb].
  apply (clean_last_char _ _ _ Hc) in Hb.
  cbn [clean] in Hb. destruct Hb as (Hb & Hnul & Hq & _).
  destruct (extract_string_loop_clean (b :: NEWLINE :: rest)) with
    (n := length body) (body := body)
    (fuel := S (length (body ++ b :: NEWLINE :: rest))) (buf := buf)
    (prev := DQUOTE) (acc := @nil Z)
    as (fuel' & buf1 & Hrun & Hs1 & Hf); try assumption.
  { cbn [lookahead]. intros E.
    apply (byte_ok_char_is b NEWLINE Hb) in E; [| unfold NEWLINE; lia].
    contradiction. }
  { apply le_n. }
  { rewrite length_app. lia. }
  rewrite Hrun. cbn [app].
  rewrite length_app in Hf. cbn [length] in Hf.
  destruct fuel' as [| fuel']; [lia |].
  destruct (next_char_cons buf1 _ _ _ Hs1) as (buf2 & Hn & Hs2 & _).
  cbn [extract_string_loop].
  destruct (Nat.eqb_spec (length (literal_text body))
                         LITERAL_STRING_MAX_SIZE) as [E | _]; [lia |].
  rewrite current_char_lookup_cur, (sa_cur _ _ _ Hs1), Hn.
  cbv beta iota.
  rewrite (next_char_lookup_cons buf2 _ _ _ Hs2)
    by (unfold byte_ok, NEWLINE; lia).
  assert (Hclose : negb (last_char DQUOTE body =? BACKSLASH)
                   && (char_of_byte b =? DQUOTE) = false).
  { destruct (Z.eqb_spec (char_of_byte b) DQUOTE) as [E | _];
      [| apply andb_false_r].
    apply (byte_ok_char_is b DQUOTE Hb) in E; [| unfold DQUOTE; lia].
    rewrite (Hq E), Z.eqb_refl. reflexivity. }
  assert (Hvalid :
            (char_of_byte b =? NUL) || (char_of_byte b =? EOF) = false).
  { apply orb_false_iff. split; apply Z.eqb_neq.
    - intros E. apply (byte_ok_char_is b NUL Hb) in E;
        [contradiction | unfold NUL; lia].
    - apply char_of_byte_eof, Hb. }
  rewrite Hclose, Hvalid.
  change (char_of_byte NEWLINE =? NEWLINE) with true. cbv beta iota.
  destruct (Z.eqb_spec (char_of_byte b) BACKSLASH) as [E | _];
    [| reflexivity].
  apply (byte_ok_char_is b BACKSLASH Hb) in E; [| unfold BACKSLASH; lia].
  contradiction.
Qed.

(** ** The escaped quote *)

(** C3, as the specification states it, does not hold: the text of the token
    is not the three characters a, quote, b. *)
Lemma escaped_quote_text_is_not_unescaped :
  lexer escaped_quote_input
  <> Finished [LineNumber 1; Name "string"; Text ["a"%c; DQUOTE; "b"%c]].
Proof. vm_compute. discriminate. Qed.

(** C3, amended.  The literal is not closed at the quote that follows the
    backslash, and the text of the string token is the four characters a,
    backslash, quote, b: the backslash stays in the text.  This holds
    wherever the literal stands in the input. *)
Theorem escaped_quote_keeps_backslash :
  lexer escaped_quote_input
  = Finished [LineNumber 1; Name "string";
              Text ["a"%c; BACKSLASH; DQUOTE; "b"%c]]
  /\ forall fuel buf prev rest out,
       stream_at buf prev (escaped_quote_input ++ rest) ->
       exists buf',
         stream_at buf' DQUOTE rest
         /\ lexer_loop (S fuel) buf out
            = lexer_loop fuel buf'
                (out ++ [LineNumber (current_line buf); Name "string";
                         Text ["a"%c; BACKSLASH; DQUOTE; "b"%c]]).
Proof.
  split; [vm_compute; reflexivity |].
  intros fuel buf prev rest out Hs.
  destruct (lexer_loop_string fuel buf prev _ out Hs)
    as (buf1 & Hs1 & _ & Hrun).
  destruct (extract_string_closed buf1 ["a"%c; BACKSLASH; DQUOTE; "b"%c]
                                  rest Hs1)
    as (buf2 & He & Hs2).
  { unfold clean, byte_ok, NUL, DQUOTE, BACKSLASH, NEWLINE.
    repeat split; try lia; discriminate. }
  { discriminate. }
  { unfold LITERAL_STRING_MAX_SIZE. simpl. lia. }
  exists buf2. split; [exact Hs2 |].
  rewrite Hrun, He, <- app_assoc. reflexivity.
Qed.

Lemma escaped_quote_keeps_backslash_witness :
  exists buf',
    pending buf' = cstr " x"
    /\ lexer_loop 9 (init_buffer (mkFILE (escaped_quote_input ++ cstr " x") 0))
                  []
       = lexer_loop 8 buf'
           [LineNumber 1; Name "string";
            Text ["a"%c; BACKSLASH; DQUOTE; "b"%c]].
Proof.
  destruct (proj2 escaped_quote_keeps_backslash 8%nat
                  (init_buffer (mkFILE (escaped_quote_input ++ cstr " x") 0))
                  EOF (cstr " x") [])
    as (buf' & Hs & Hrun).
  - stream_by_compute.
  - exists buf'. split; [exact (sa_pending _ _ _ Hs) | exact Hrun].
Defined.

(** ** The length limit *)

Lemma clean_repeat_letter prev n : clean prev (repeat "a"%c n).
Proof.
  revert prev. induction n as [| n IH]; intros prev; [exact I |].
  cbn [repeat clean]. unfold byte_ok, NUL, DQUOTE, NEWLINE.
  repeat split; try lia; try discriminate. apply IH.
Qed.

Lemma literal_text_repeat_letter n :
  literal_text (repeat "a"%c n) = repeat "a"%c n.
Proof.
  induction n as [| n IH]; [reflexivity |].
  cbn [repeat]. destruct n as [| n]; [reflexivity |].
  cbn [repeat] in *. cbn [literal_text] in *.
  change ((97 =? BACKSLASH) && (97 =? NEWLINE)) with false. cbv iota.
  rewrite IH. reflexivity.
Qed.

(** C4.  The code rejects a literal as soon as [LITERAL_STRING_MAX_SIZE]
    characters are stored, before it looks for the closing quote: a clean
    content whose text has 1024 characters or more ends the extraction with
    exit code 4, whatever follows it.  A literal of exactly 1024 letters is
    rejected, one of 1023 letters is extracted whole, and a name of 1024
    letters, whose limit is tested after the lookup, is accepted. *)
Theorem string_of_max_size_rejected :
  (forall body tail,
      clean DQUOTE body ->
      head_ok tail -> lookahead tail <> NEWLINE ->
      (LITERAL_STRING_MAX_SIZE <= length (literal_text body))%nat ->
      (forall buf,
          stream_at buf DQUOTE (body ++ tail) ->
          extract_string buf = Exit LEXER_ERROR_STRING_LITERAL_TOO_LONG)
      /\ lexer (DQUOTE :: body ++ tail)
         = Exited LEXER_ERROR_STRING_LITERAL_TOO_LONG [LineNumber 1])
  /\ lexer (DQUOTE :: repeat "a"%c 1024 ++ [DQUOTE])
     = Exited LEXER_ERROR_STRING_LITERAL_TOO_LONG [LineNumber 1]
  /\ lexer (DQUOTE :: repeat "a"%c 1023 ++ [DQUOTE])
     = Finished [LineNumber 1; Name "string"; Text (repeat "a"%c 1023)]
  /\ lexer (repeat "a"%c 1024)
     = Finished [LineNumber 1; Name "identifier"; Text (repeat "a"%c 1024)].
Proof.
  split; [| repeat split; vm_compute; reflexivity].
  intros body tail Hc Htb Htn Hlen.
  assert (Hext : forall buf,
             stream_at buf DQUOTE (body ++ tail) ->
             extract_string buf = Exit LEXER_ERROR_STRING_LITERAL_TOO_LONG).
  { intros buf Hs. unfold extract_string.
    rewrite (sa_pending _ _ _ Hs).
    apply (extract_string_loop_full tail Htb Htn (length body) body (le_n _)
             _ buf DQUOTE [] Hs Hc).
    - cbn [length]. lia.
    - cbn [length]. lia.
    - rewrite length_app. lia. }
  split; [exact Hext |].
  unfold lexer.
  destruct (init_buffer_stream (DQUOTE :: body ++ tail)) as [Hs Hline].
  destruct (lexer_loop_string (length (DQUOTE :: body ++ tail)) _ EOF _ []
                              Hs) as (buf1 & Hs1 & _ & Hrun).
  rewrite Hrun, (Hext buf1 Hs1), Hline. reflexivity.
Qed.

Lemma string_of_max_size_rejected_witness :
  lexer (DQUOTE :: repeat "a"%c 1024 ++ [DQUOTE]) = Exited 4 [LineNumber 1].
Proof.
  apply (proj1 string_of_max_size_rejected (repeat "a"%c 1024) [DQUOTE]).
  - apply clean_repeat_letter.
  - unfold head_ok, byte_ok, DQUOTE. lia.
  - discriminate.
  - rewrite literal_text_repeat_letter, repeat_length.
    unfold LITERAL_STRING_MAX_SIZE. lia.
Defined.

(** ** Newlines in a literal *)

(** C5.  The newline test of [extract_string] looks at the character after
    the current one, so a newline that is the first character of the
    literal, or that follows a backslash-newline pair, is never tested: it
    is stored in the text and the scan goes on without exit code 9.  This is
    so for every literal that starts with a newline and goes on with a clean
    content. *)
Theorem raw_newline_after_quote_accepted :
  (forall body rest,
      clean NEWLINE body ->
      last_char NEWLINE body <> BACKSLASH ->
      (S (length (literal_text body)) < LITERAL_STRING_MAX_SIZE)%nat ->
      (forall buf,
          stream_at buf DQUOTE (NEWLINE :: body ++ DQUOTE :: rest) ->
          exists buf',
            extract_string buf = Ok (NEWLINE :: literal_text body) buf'
            /\ stream_at buf' DQUOTE rest)
      /\ lexer (DQUOTE :: NEWLINE :: body ++ [DQUOTE])
         = Finished [LineNumber 1; Name "string";
                     Text (NEWLINE :: literal_text body)])
  /\ lexer (DQUOTE :: NEWLINE :: cstr "abc" ++ [DQUOTE])
     = Finished [LineNumber 1; Name "string"; Text (NEWLINE :: cstr "abc")]
  /\ lexer (DQUOTE :: cstr "a" ++ [BACKSLASH; NEWLINE; NEWLINE]
                   ++ cstr "b" ++ [DQUOTE])
     = Finished [LineNumber 1; Name "string";
                 Text ["a"%c; NEWLINE; "b"%c]].
Proof.
  split; [| split; vm_compute; reflexivity].
  intros body rest Hc Hlast Hlen.
  split.
  - intros buf Hs.
    exact (extract_string_newline_first buf body rest Hs Hc Hlast Hlen).
  - unfold lexer.
    destruct (init_buffer_stream (DQUOTE :: NEWLINE :: body ++ [DQUOTE]))
      as [Hs Hline].
    destruct (lexer_loop_string
                (length (DQUOTE :: NEWLINE :: body ++ [DQUOTE])) _ EOF _ []
                Hs) as (buf1 & Hs1 & _ & Hrun).
    destruct (extract_string_newline_first buf1 body [] Hs1 Hc Hlast Hlen)
      as (buf2 & He & Hs2).
    rewrite Hrun, He, Hline.
    cbn [length]. rewrite length_app. cbn [length].
    rewrite Nat.add_1_r. cbn [lexer_loop].
    destruct (next_char_nil buf2 _ Hs2) as (buf3 & Hn & _).
    rewrite Hn. reflexivity.
Qed.

Lemma raw_newline_after_quote_accepted_witness :
  exists buf',
    extract_string
      (snd (next_char
              (init_buffer
                 (mkFILE (DQUOTE :: NEWLINE :: cstr "abc" ++ [DQUOTE]) 0))))
    = Ok (NEWLINE :: cstr "abc") buf'.
Proof.
  destruct (proj1 (proj1 raw_newline_after_quote_accepted (cstr "abc") [] 
                    ltac:(unfold clean, cstr, byte_ok, NUL, DQUOTE, NEWLINE,
                            BACKSLASH; simpl;
                          repeat split; try lia; discriminate)
                    ltac:(discriminate)
                    ltac:(unfold LITERAL_STRING_MAX_SIZE; simpl; lia))
                  (snd (next_char
                          (init_buffer
                             (mkFILE (DQUOTE :: NEWLINE :: cstr "abc"
                                             ++ [DQUOTE]) 0)))))
    as (buf' & He & _).
  - stream_by_compute.
  - exists buf'. exact He.
Defined.

(** ** The null character and the end of the input *)

(** The errors of a literal are raised in the order in which the loop
    checks them, and the first one ends the scan: a literal that is still
    open at the end of the input, or that holds a null character, ends with
    exit code 9 when a raw newline comes first. *)
Lemma unterminated_string_newline_first :
  (exit_code (lexer (DQUOTE :: cstr "a" ++ [NEWLINE]))
   = Some LEXER_ERROR_NON_ESCAPED_NEWLINE
   /\ exit_code (lexer (DQUOTE :: cstr "a" ++ [NEWLINE]))
      <> Some LEXER_ERROR_INVALID_STRING_CHARACTER)
  /\ (exit_code (lexer (DQUOTE :: cstr "a" ++ [NEWLINE; NUL; DQUOTE]))
      = Some LEXER_ERROR_NON_ESCAPED_NEWLINE
      /\ exit_code (lexer (DQUOTE :: cstr "a" ++ [NEWLINE; NUL; DQUOTE]))
         <> Some LEXER_ERROR_INVALID_STRING_CHARACTER).
Proof. repeat split; vm_compute; try reflexivity; discriminate. Qed.

(** * Further properties of the character source *)

Lemma next_char_lookup_fst buf prev b rest :
  stream_at buf prev (b :: rest) ->
  fst (next_char_lookup buf) = char_of_byte b.
Proof.
  intros [(Hpt & Htl & Hlen) Hpend _].
  destruct buf as [[data off] cont pos tot line].
  unfold pending in Hpend. unfold next_char_lookup, fgetc, fgetpos, fsetpos.
  fields.
  destruct (Nat.eqb_spec pos tot) as [-> | Hne].
  - rewrite Nat.sub_diag in Hpend. cbn [firstn app] in Hpend.
    apply skipn_nth_error_cons in Hpend. destruct Hpend as [Hnth _].
    rewrite Hnth. fields.
    destruct (Z.eqb_spec b EOF) as [-> | Hb]; [reflexivity |].
    destruct (Z.eqb_spec (char_of_byte b) EOF) as [E | _];
      [now rewrite E | reflexivity].
  - rewrite (firstn_skipn_cons Z 0 pos tot cont) in Hpend by lia.
    cbn [app] in Hpend. injection Hpend as Hnth _.
    now rewrite Hnth.
Qed.

Lemma next_char_lookup_restores buf :
  fst (next_char_lookup buf) <> EOF -> snd (next_char_lookup buf) = buf.
Proof.
  destruct buf as [[data off] cont pos tot line].
  unfold next_char_lookup, fgetc, fgetpos, fsetpos. fields.
  destruct (Nat.eqb pos tot); [| reflexivity].
  destruct (nth_error data off) as [i |]; fields.
  - destruct ((if i =? EOF then EOF else char_of_byte i) =? EOF);
      fields; [intros H; now contradiction H | reflexivity].
  - intros H. now contradiction H.
Qed.

(** X1.  In a well-formed buffer with a byte still to be consumed,
    [next_char] returns that byte as a [char] and removes it from the bytes
    to come, whether it is in the block or has to be read from the file by a
    refill; the character becomes the one that [current_char_lookup]
    returns, and the line counter goes up by one exactly when the byte is a
    newline. *)
Theorem next_char_consumes buf prev b rest :
  stream_at buf prev (b :: rest) ->
  fst (next_char buf) = char_of_byte b
  /\ stream_at (snd (next_char buf)) (char_of_byte b) rest
  /\ fst (current_char_lookup (snd (next_char buf))) = char_of_byte b
  /\ current_line (snd (next_char buf))
     = (if b =? NEWLINE then (current_line buf + 1) mod SIZE_MODULUS
        else current_line buf).
Proof.
  intros Hs.
  destruct (next_char_cons buf prev b rest Hs) as (buf' & Hn & Hs' & Hl).
  rewrite Hn. cbn [fst snd].
  split; [reflexivity |]. split; [exact Hs' |].
  split; [exact (sa_cur _ _ _ Hs') | exact Hl].
Qed.

Lemma next_char_consumes_witness :
  let buf := init_buffer (mkFILE [NEWLINE; "x"%c] 0) in
  fst (next_char buf) = NEWLINE
  /\ pending (snd (next_char buf)) = ["x"%c]
  /\ current_line (snd (next_char buf)) = 2.
Proof.
  intros buf.
  destruct (next_char_consumes buf EOF NEWLINE ["x"%c]) as (H1 & H2 & _ & H4).
  - stream_by_compute.
  - split; [exact H1 |]. split; [exact (sa_pending _ _ _ H2) | exact H4].
Defined.

(** X2.  At the end of the input [next_char] returns [EOF], leaves the line
    counter as it is, and goes on returning [EOF] however often it is
    called; [current_char_lookup] returns [EOF] from then on. *)
Theorem next_char_at_end buf prev :
  stream_at buf prev [] ->
  forall n,
    fst (next_chars n buf) = repeat EOF n
    /\ current_line (snd (next_chars n buf)) = current_line buf
    /\ (0 < n -> stream_at (snd (next_chars n buf)) EOF [])%nat.
Proof.
  intros Hs n. revert buf prev Hs.
  induction n as [| n IH]; intros buf prev Hs.
  - cbn [next_chars fst snd repeat].
    split; [reflexivity |]. split; [reflexivity | lia].
  - destruct (next_char_nil buf prev Hs) as (buf1 & Hn & Hs1 & Hl1).
    destruct (IH buf1 EOF Hs1) as (H1 & H2 & H3).
    cbn [next_chars]. rewrite Hn.
    destruct n as [| n].
    + cbn [next_chars fst snd repeat].
      split; [reflexivity |]. split; [exact Hl1 | intros _; exact Hs1].
    + specialize (H3 ltac:(lia)).
      destruct (next_chars (S n) buf1) as [cs buf2]. cbn [fst snd] in *.
      split; [now rewrite H1 |]. split; [congruence | now intros _].
Qed.

Lemma next_char_at_end_witness :
  fst (next_chars 3 (init_buffer (mkFILE [] 0))) = [EOF; EOF; EOF].
Proof.
  apply (next_char_at_end (init_buffer (mkFILE [] 0)) EOF).
  stream_by_compute.
Defined.

Lemma next_char_lookup_agrees buf :
  wf buf ->
  fst (next_char_lookup buf) = fst (next_char buf)
  /\ (fst (next_char_lookup buf) <> EOF \/ pending buf = [] ->
      snd (next_char_lookup buf) = buf).
Proof.
  intros Hwf. pose proof (stream_at_self buf Hwf) as Hs.
  destruct (pending buf) as [| b rest] eqn:E.
  - destruct (next_char_nil buf _ Hs) as (buf' & Hn & _).
    rewrite (next_char_lookup_nil buf _ Hs), Hn. now split.
  - destruct (next_char_cons buf _ b rest Hs) as (buf' & Hn & _).
    rewrite (next_char_lookup_fst buf _ b rest Hs), Hn.
    split; [reflexivity |].
    intros [H | H]; [| discriminate H].
    apply next_char_lookup_restores.
    now rewrite (next_char_lookup_fst buf _ b rest Hs).
Qed.

Lemma next_char_lookup_cur buf :
  cur (snd (next_char_lookup buf)) = cur buf.
Proof.
  unfold cur, current_char_lookup, next_char_lookup.
  destruct (Nat.eqb (current_position buf) (total_size buf));
    [| reflexivity].
  destruct (fgetc (fp buf)) as [i fp1].
  destruct ((if i =? EOF then EOF else char_of_byte i) =? EOF); fields;
    destruct (Nat.eqb (current_position buf) 0); reflexivity.
Qed.

(** A lookup takes nothing from the input, or the one byte that it read as
    [EOF]. *)
Lemma next_char_lookup_pending buf :
  wf buf ->
  pending (snd (next_char_lookup buf)) = pending buf
  \/ (fst (next_char_lookup buf) = EOF
      /\ exists i, pending buf = i :: pending (snd (next_char_lookup buf))).
Proof.
  intros Hwf.
  destruct (Nat.eqb_spec (current_position buf) (total_size buf))
    as [Epos | Npos].
  2:{ left. unfold next_char_lookup.
      now rewrite (proj2 (Nat.eqb_neq _ _) Npos). }
  destruct buf as [[data off] cont pos tot line].
  unfold wf, pending, next_char_lookup, fgetc, fsetpos, fgetpos in *.
  fields. subst tot. rewrite Nat.eqb_refl, Nat.sub_diag. cbn [firstn app].
  destruct (skipn off data) as [| i r] eqn:Eskip.
  - rewrite (skipn_nth_error_nil _ _ _ Eskip). chars. fields.
    rewrite Nat.sub_diag, Eskip. now left.
  - destruct (skipn_nth_error_cons _ _ _ _ _ Eskip) as [Hnth Hrest].
    rewrite Hnth.
    destruct (Z.eqb_spec (if i =? EOF then EOF else char_of_byte i) EOF)
      as [Eeof | Neof]; fields; rewrite Nat.sub_diag; cbn [firstn app].
    + right. split; [reflexivity |]. exists i. now rewrite Hrest.
    + left. exact Eskip.
Qed.

(** X3.  In every well-formed buffer [next_char_lookup] returns the
    character that [next_char] would return if it were called in its place.
    When that character is not [EOF], or when the input is at its end, the
    lookup leaves the whole buffer, the file position included, as it was,
    so that the call of [next_char] that follows returns that same
    character.  In the remaining case, in which a byte was read as [EOF],
    the lookup leaves the bytes to come as they were or takes that one byte
    from them. *)
Theorem lookup_agrees_with_next_char buf :
  wf buf ->
  fst (next_char_lookup buf) = fst (next_char buf)
  /\ (fst (next_char_lookup buf) <> EOF \/ pending buf = [] ->
      snd (next_char_lookup buf) = buf
      /\ fst (next_char (snd (next_char_lookup buf)))
         = fst (next_char_lookup buf))
  /\ (pending (snd (next_char_lookup buf)) = pending buf
      \/ (fst (next_char_lookup buf) = EOF
          /\ exists i,
              pending buf = i :: pending (snd (next_char_lookup buf)))).
Proof.
  intros Hwf. destruct (next_char_lookup_agrees buf Hwf) as [Hfst Hsame].
  split; [exact Hfst |]. split.
  - intros H. specialize (Hsame H). split; [exact Hsame |].
    rewrite Hsame. symmetry. exact Hfst.
  - now apply next_char_lookup_pending.
Qed.

Lemma lookup_agrees_with_next_char_witness :
  let buf := init_buffer (mkFILE (cstr "ab") 0) in
  fst (next_char_lookup buf) = fst (next_char buf).
Proof.
  intros buf. refine (proj1 (lookup_agrees_with_next_char buf _)).
  unfold wf. split; [| split];
    [ apply Nat.leb_le; vm_compute; reflexivity
    | apply Nat.leb_le; vm_compute; reflexivity
    | vm_compute; reflexivity ].
Defined.

Lemma line_after_cons line b data :
  line_after (if b =? NEWLINE then (line + 1) mod SIZE_MODULUS else line)
             data
  = line_after line (b :: data).
Proof.
  unfold line_after, count_newlines. cbn [count_occ].
  destruct (Z.eq_dec b NEWLINE) as [-> | Hne].
  - rewrite Z.eqb_refl, Nat2Z.inj_succ, Z.add_mod_idemp_l
      by (unfold SIZE_MODULUS; lia).
    f_equal. lia.
  - destruct (Z.eqb_spec b NEWLINE); [contradiction | reflexivity].
Qed.

Lemma line_after_nil line :
  0 <= line < SIZE_MODULUS -> line_after line [] = line.
Proof.
  intros H. unfold line_after, count_newlines. cbn [count_occ Z.of_nat].
  rewrite Z.add_0_r. now apply Z.mod_small.
Qed.


Lemma line_step_range line b :
  0 <= line < SIZE_MODULUS ->
  0 <= (if b =? NEWLINE then (line + 1) mod SIZE_MODULUS else line)
  < SIZE_MODULUS.
Proof.
  intros H. destruct (b =? NEWLINE); [| exact H].
  apply Z.mod_pos_bound. reflexivity.
Qed.

Lemma next_chars_run data :
  forall buf prev,
    stream_at buf prev data ->
    0 <= current_line buf < SIZE_MODULUS ->
    fst (next_chars (length data) buf) = map char_of_byte data
    /\ stream_at (snd (next_chars (length data) buf))
                 (last_char prev data) []
    /\ current_line (snd (next_chars (length data) buf))
       = line_after (current_line buf) data.
Proof.
  induction data as [| b data IH]; intros buf prev Hs Hr.
  - cbn [length next_chars fst snd map].
    split; [reflexivity |]. split; [exact Hs |].
    symmetry. now apply line_after_nil.
  - destruct (next_char_cons buf prev b data Hs) as (buf1 & Hn & Hs1 & Hl1).
    destruct (IH buf1 _ Hs1) as (H1 & H2 & H3).
    { rewrite Hl1. now apply line_step_range. }
    cbn [length next_chars]. rewrite Hn.
    destruct (next_chars (length data) buf1) as [cs buf2].
    cbn [fst snd map] in *.
    split; [now rewrite H1 |].
    split; [now rewrite last_char_cons |].
    rewrite H3, Hl1. apply line_after_cons.
Qed.

(** X4.  Reading a file from a fresh buffer with as many calls of
    [next_char] as the file has bytes returns its bytes in order, each as a
    [char], through every refill of the block; the next call returns [EOF],
    and the line counter has then counted the newlines of the file from
    line 1. *)
Theorem next_char_reads_file (data : list Z) :
  let '(cs, buf) := next_chars (length data) (init_buffer (mkFILE data 0)) in
  cs = map char_of_byte data
  /\ fst (next_char buf) = EOF
  /\ current_line buf = line_after 1 data.
Proof.
  destruct (init_buffer_stream data) as [Hs Hline].
  destruct (next_chars_run data _ EOF Hs) as (H1 & H2 & H3).
  { rewrite Hline. unfold SIZE_MODULUS. lia. }
  destruct (next_chars (length data) (init_buffer (mkFILE data 0)))
    as [cs buf] eqn:E.
  cbn [fst snd] in *.
  split; [exact H1 |]. split.
  - destruct (next_char_nil buf _ H2) as (buf' & Hn & _). now rewrite Hn.
  - now rewrite <- Hline.
Qed.

(** * Further properties of the names *)

(** X5.  [extract_general_name] returns the longest name there is: the
    character that triggered it followed by all the name characters that
    come next, up to the end of the input or to the first byte that is not
    a name character, this byte being another one than 255 (which the
    lookup reads as [EOF]), provided the characters of the name are at most
    [GENERAL_NAME_MAX_SIZE] together.  The byte that ends the name is left
    to be consumed and the line counter is unchanged. *)
Theorem name_is_longest_run buf c0 cs tail :
  stream_at buf c0 (cs ++ tail) ->
  Forall name_byte cs -> stops_name tail ->
  (S (length cs) <= GENERAL_NAME_MAX_SIZE)%nat ->
  exists buf',
    extract_general_name buf = Ok (c0 :: cs) buf'
    /\ stream_at buf' (last cs c0) tail
    /\ current_line buf' = current_line buf.
Proof. exact (extract_general_name_run buf c0 cs tail). Qed.

Lemma name_is_longest_run_witness :
  exists buf',
    extract_general_name
      (snd (next_char (init_buffer (mkFILE (cstr "ab_1+c") 0))))
    = Ok (cstr "ab_1") buf'
    /\ pending buf' = cstr "+c".
Proof.
  destruct (name_is_longest_run
              (snd (next_char (init_buffer (mkFILE (cstr "ab_1+c") 0))))
              "a"%c (cstr "b_1") (cstr "+c"))
    as (buf' & He & Hs & _).
  - stream_by_compute.
  - repeat constructor.
  - unfold stops_name, byte_ok. simpl. split; [lia | reflexivity].
  - unfold GENERAL_NAME_MAX_SIZE. simpl. lia.
  - exists buf'. split; [exact He | exact (sa_pending _ _ _ Hs)].
Defined.

Lemma extract_general_name_loop_long tail cs :
  forall fuel buf prev acc,
    stream_at buf prev (cs ++ tail) ->
    Forall name_byte cs ->
    (length acc <= GENERAL_NAME_MAX_SIZE)%nat ->
    (GENERAL_NAME_MAX_SIZE < length acc + length cs)%nat ->
    (GENERAL_NAME_MAX_SIZE < fuel + length acc)%nat ->
    extract_general_name_loop fuel buf acc
    = Exit LEXER_ERROR_IDENTIFIER_NAME_TOO_LONG.
Proof.
  induction cs as [| b cs IH]; intros fuel buf prev acc Hs Hcs Hle Hlong Hf.
  - cbn [length] in Hlong. lia.
  - destruct fuel as [| fuel]; [cbn [Nat.add] in Hf; lia |].
    inversion Hcs as [| b' cs' Hb Hcs']; subst b' cs'.
    cbn [extract_general_name_loop app length] in *.
    rewrite (next_char_lookup_cons buf prev b _ Hs (name_byte_ok b Hb)).
    rewrite (name_byte_char b Hb). unfold name_byte in Hb. rewrite Hb.
    cbn [negb].
    destruct (Nat.eqb_spec (length acc) GENERAL_NAME_MAX_SIZE) as [E | Hne];
      [reflexivity |].
    destruct (next_char_cons buf prev b _ Hs) as (buf1 & Hn & Hs1 & _).
    rewrite Hn.
    apply (IH fuel buf1 _ _ Hs1 Hcs');
      rewrite length_app; cbn [length]; lia.
Qed.

(** X6.  A name of more than [GENERAL_NAME_MAX_SIZE] characters is fatal:
    when at least 1024 name characters follow the one that triggered the
    extraction, [extract_general_name] exits with code 3, whatever comes
    after them, and a file that starts with such a name ends the scan with
    code 3 after the line number has been written. *)
Theorem name_too_long b0 cs tail :
  name_byte b0 -> Forall name_byte cs ->
  (GENERAL_NAME_MAX_SIZE <= length cs)%nat ->
  (forall buf,
      stream_at buf b0 (cs ++ tail) ->
      extract_general_name buf
      = Exit LEXER_ERROR_IDENTIFIER_NAME_TOO_LONG)
  /\ lexer (b0 :: cs ++ tail)
     = Exited LEXER_ERROR_IDENTIFIER_NAME_TOO_LONG [LineNumber 1].
Proof.
  intros Hb0 Hcs Hlen.
  assert (Hext : forall buf,
             stream_at buf b0 (cs ++ tail) ->
             extract_general_name buf
             = Exit LEXER_ERROR_IDENTIFIER_NAME_TOO_LONG).
  { intros buf Hs. unfold extract_general_name.
    rewrite current_char_lookup_cur, (sa_cur _ _ _ Hs).
    apply (extract_general_name_loop_long tail cs _ buf b0 [b0] Hs Hcs);
      cbn [length]; unfold GENERAL_NAME_MAX_SIZE in *; lia. }
  split; [exact Hext |].
  unfold lexer.
  destruct (init_buffer_stream (b0 :: cs ++ tail)) as [Hs Hline].
  destruct (next_char_cons _ _ _ _ Hs) as (buf1 & Hn & Hs1 & Hl1).
  rewrite (name_byte_char b0 Hb0) in *.
  pose proof (name_byte_range b0 Hb0) as Hr.
  cbn [lexer_loop]. rewrite Hn.
  destruct (Z.eqb_spec b0 EOF) as [E | _]; [unfold EOF in E; lia |].
  rewrite (name_byte_not_space b0 Hb0).
  rewrite (remove_comments_other buf1 b0 (sa_cur _ _ _ Hs1)) by lia.
  cbn [Z.eqb negb].
  destruct (Z.eqb_spec b0 DQUOTE) as [E | _]; [unfold DQUOTE in E; lia |].
  unfold name_byte in Hb0. rewrite Hb0. cbn [negb].
  rewrite (Hext buf1 Hs1), Hl1, Hline.
  destruct (Z.eqb_spec b0 NEWLINE) as [E | _];
    [unfold NEWLINE in E; lia | reflexivity].
Qed.

Lemma name_too_long_witness :
  lexer (repeat "a"%c 1025 ++ cstr " x") = Exited 3 [LineNumber 1].
Proof.
  apply (name_too_long "a"%c (repeat "a"%c 1024) (cstr " x")).
  - reflexivity.
  - apply Forall_forall. intros c Hc. apply repeat_spec in Hc. now subst c.
  - rewrite repeat_length. unfold GENERAL_NAME_MAX_SIZE. lia.
Defined.

Lemma extract_general_name_loop_bound fuel :
  forall buf acc name buf',
    extract_general_name_loop fuel buf acc = Ok name buf' ->
    (length acc <= GENERAL_NAME_MAX_SIZE)%nat ->
    (length acc <= length name <= GENERAL_NAME_MAX_SIZE)%nat.
Proof.
  induction fuel as [| fuel IH]; intros buf acc name buf' He Hle;
    [discriminate He |].
  cbn [extract_general_name_loop] in He.
  destruct (next_char_lookup buf) as [c buf1].
  destruct (negb (isname c)).
  { injection He as -> _. lia. }
  destruct (Nat.eqb_spec (length acc) GENERAL_NAME_MAX_SIZE) as [E | Hne];
    [discriminate He |].
  destruct (next_char buf1) as [c' buf2].
  apply IH in He; rewrite length_app in *; cbn [length] in *; lia.
Qed.

Lemma extract_general_name_loop_chars fuel :
  forall buf acc name buf',
    wf buf ->
    extract_general_name_loop fuel buf acc = Ok name buf' ->
    exists more,
      name = acc ++ more /\ Forall (fun c => isname c = true) more.
Proof.
  induction fuel as [| fuel IH]; intros buf acc name buf' Hwf He;
    [discriminate He |].
  cbn [extract_general_name_loop] in He.
  destruct (next_char_lookup_agrees buf Hwf) as [Hv Hsame].
  destruct (next_char_lookup buf) as [c buf1]. cbn [fst snd] in *.
  destruct (isname c) eqn:Hc; cbn [negb] in He.
  2:{ injection He as -> _. exists []. now rewrite app_nil_r. }
  destruct (Nat.eqb (length acc) GENERAL_NAME_MAX_SIZE);
    [discriminate He |].
  assert (Hne : c <> EOF) by (intros ->; discriminate Hc).
  rewrite (Hsame (or_introl Hne)) in He.
  destruct (next_char_measure buf Hwf) as (Hwf2 & _).
  destruct (next_char buf) as [c' buf2]. cbn [fst snd] in *. subst c'.
  destruct (IH _ _ _ _ Hwf2 He) as (more & -> & Hmore).
  exists (c :: more). rewrite <- app_assoc. split; [reflexivity |].
  now constructor.
Qed.

Lemma extract_string_loop_bound fuel :
  forall buf acc text buf',
    extract_string_loop fuel buf acc = Ok text buf' ->
    (length acc <= LITERAL_STRING_MAX_SIZE)%nat ->
    Forall (fun c => c <> NUL /\ c <> EOF) acc ->
    (length text < LITERAL_STRING_MAX_SIZE)%nat
    /\ Forall (fun c => c <> NUL /\ c <> EOF) text.
Proof.
  induction fuel as [| fuel IH]; intros buf acc text buf' He Hle Hacc;
    [discriminate He |].
  cbn [extract_string_loop] in He.
  destruct (Nat.eqb_spec (length acc) LITERAL_STRING_MAX_SIZE) as [E | Hne];
    [discriminate He |].
  destruct (current_char_lookup buf) as [p buf1].
  destruct (next_char buf1) as [c buf2].
  destruct (negb (p =? BACKSLASH) && (c =? DQUOTE)).
  { injection He as -> _. split; [lia | exact Hacc]. }
  destruct (Z.eqb_spec c NUL) as [E0 | N0]; [discriminate He |].
  destruct (Z.eqb_spec c EOF) as [E1 | N1]; [discriminate He |].
  cbn [orb] in He.
  destruct (next_char_lookup buf2) as [la buf3].
  destruct (la =? NEWLINE).
  - destruct (c =? BACKSLASH); [| discriminate He].
    destruct (next_char buf3) as [c4 buf4].
    apply (IH _ _ _ _ He); [lia | exact Hacc].
  - apply (IH _ _ _ _ He).
    + rewrite length_app. cbn [length]. lia.
    + apply Forall_app. split; [exact Hacc |]. now repeat constructor.
Qed.

(** X7.  What the two extractors store fits the 1025 bytes of
    [name_buffer], in every state of the buffer: a name that
    [extract_general_name] returns has between 1 and 1024 characters, a
    text that [extract_string] returns has at most 1023 and holds neither
    the null character nor [EOF].  In a well-formed buffer every character
    of a name after the first is a name character. *)
Theorem stored_text_fits_name_buffer buf :
  (forall name buf',
      extract_general_name buf = Ok name buf' ->
      (1 <= length name <= GENERAL_NAME_MAX_SIZE)%nat
      /\ (wf buf -> Forall (fun c => isname c = true) (tl name)))
  /\ (forall text buf',
         extract_string buf = Ok text buf' ->
         (length text < LITERAL_STRING_MAX_SIZE)%nat
         /\ Forall (fun c => c <> NUL /\ c <> EOF) text).
Proof.
  split.
  - intros name buf' He. unfold extract_general_name in He.
    rewrite current_char_lookup_cur in He.
    split.
    + apply extract_general_name_loop_bound in He;
        cbn [length] in *; unfold GENERAL_NAME_MAX_SIZE in *; lia.
    + intros Hwf.
      destruct (extract_general_name_loop_chars _ _ _ _ _ Hwf He)
        as (more & -> & Hmore).
      exact Hmore.
  - intros text buf' He. unfold extract_string in He.
    apply (extract_string_loop_bound _ _ _ _ _ He);
      [cbn [length]; lia | constructor].
Qed.

Lemma stored_text_fits_name_buffer_witness :
  (length (cstr "ab") < LITERAL_STRING_MAX_SIZE)%nat.
Proof.
  destruct (init_buffer_stream (DQUOTE :: cstr "ab" ++ [DQUOTE])) as [Hs _].
  destruct (next_char_cons _ _ _ _ Hs) as (buf1 & Hn & Hs1 & _).
  destruct (extract_string_closed buf1 (cstr "ab") [] Hs1) as (buf2 & He & _).
  - unfold clean, cstr, byte_ok, NUL, DQUOTE, NEWLINE, BACKSLASH. simpl.
    repeat split; try lia; discriminate.
  - discriminate.
  - unfold LITERAL_STRING_MAX_SIZE. simpl. lia.
  - exact (proj1 (proj2 (stored_text_fits_name_buffer buf1) _ _ He)).
Defined.

(** * Further properties of the main loop: white space and comments *)

Lemma ws_byte_facts b :
  ws_byte b ->
  char_of_byte b = b /\ (b =? EOF) = false /\ byte_ok b.
Proof.
  unfold ws_byte, iswhitespace, NEWLINE, FORMFEED, CARRIAGE_RETURN, TAB, VTAB,
    byte_ok, EOF.
  intros H.
  assert (Hr : 9 <= b <= 32) by lia.
  split; [apply char_of_byte_small; lia |]. split; lia.
Qed.

(** X8.  The main loop skips white space: over a run of blanks, tabs,
    newlines, form feeds, carriage returns and vertical tabs it writes
    nothing, takes one turn per byte, and arrives in front of the byte that
    follows with the line counter advanced by the number of newlines of the
    run. *)
Theorem lexer_skips_whitespace rest ws :
  Forall ws_byte ws ->
  forall buf prev,
    stream_at buf prev (ws ++ rest) ->
    0 <= current_line buf < SIZE_MODULUS ->
    exists buf',
      stream_at buf' (last_char prev ws) rest
      /\ current_line buf' = line_after (current_line buf) ws
      /\ forall fuel out,
          lexer_loop (length ws + fuel) buf out = lexer_loop fuel buf' out.
Proof.
  induction 1 as [| b ws Hb Hws IH]; intros buf prev Hs Hr.
  - exists buf. split; [exact Hs |].
    split; [symmetry; now apply line_after_nil | reflexivity].
  - destruct (ws_byte_facts b Hb) as (Hc & He & _).
    destruct (next_char_cons buf prev b _ Hs) as (buf1 & Hn & Hs1 & Hl1).
    destruct (IH buf1 _ Hs1) as (buf' & Hs' & Hl' & Hrun).
    { rewrite Hl1. now apply line_step_range. }
    exists buf'. split; [now rewrite last_char_cons |].
    split; [rewrite Hl', Hl1; apply line_after_cons |].
    intros fuel out. cbn [length Nat.add lexer_loop].
    rewrite Hn, Hc, He. unfold ws_byte in Hb. rewrite Hb. apply Hrun.
Qed.

Lemma lexer_skips_whitespace_witness :
  exists buf',
    current_line buf' = 3
    /\ lexer_loop 5 (init_buffer (mkFILE [32; 10; 9; 10; 120] 0)) []
       = lexer_loop 1 buf' [].
Proof.
  destruct (lexer_skips_whitespace [120] [32; 10; 9; 10]
              ltac:(repeat constructor)
              (init_buffer (mkFILE [32; 10; 9; 10; 120] 0)) EOF)
    as (buf' & _ & Hl & Hrun).
  - stream_by_compute.
  - vm_compute. split; [discriminate | reflexivity].
  - exists buf'. split; [exact Hl | exact (Hrun 1%nat [])].
Defined.

Lemma comment_byte_facts b :
  comment_byte b ->
  (char_of_byte b =? NEWLINE) = false /\ (char_of_byte b =? EOF) = false.
Proof.
  intros [Hb Hn]. split; apply Z.eqb_neq.
  - intros E. apply (byte_ok_char_is b NEWLINE Hb) in E;
      [contradiction | unfold NEWLINE; lia].
  - apply char_of_byte_eof, Hb.
Qed.

Lemma line_comment_loop_newline rest body :
  Forall comment_byte body ->
  forall fuel buf prev,
    stream_at buf prev (body ++ NEWLINE :: rest) ->
    (length body < fuel)%nat ->
    exists buf',
      line_comment_loop fuel buf = Ok tt buf'
      /\ stream_at buf' NEWLINE rest
      /\ current_line buf' = (current_line buf + 1) mod SIZE_MODULUS.
Proof.
  induction 1 as [| b body Hb Hbody IH]; intros fuel buf prev Hs Hf;
    (destruct fuel as [| fuel]; [cbn [length] in Hf; lia |]).
  - destruct (next_char_cons buf prev _ _ Hs) as (buf1 & Hn & Hs1 & Hl1).
    exists buf1. cbn [line_comment_loop]. rewrite Hn.
    split; [reflexivity |]. split; [exact Hs1 | exact Hl1].
  - destruct (comment_byte_facts b Hb) as [H1 H2].
    destruct (next_char_cons buf prev b _ Hs) as (buf1 & Hn & Hs1 & Hl1).
    destruct (IH fuel buf1 _ Hs1) as (buf' & Hrun & Hs' & Hl').
    { cbn [length] in Hf. lia. }
    exists buf'. cbn [line_comment_loop]. rewrite Hn, H1, H2.
    cbn [negb andb]. split; [exact Hrun |]. split; [exact Hs' |].
    rewrite Hl', Hl1. destruct Hb as [_ Hb].
    destruct (Z.eqb_spec b NEWLINE); [contradiction | reflexivity].
Qed.

Lemma line_comment_loop_end body :
  Forall comment_byte body ->
  forall fuel buf prev,
    stream_at buf prev body ->
    (length body < fuel)%nat ->
    exists buf',
      line_comment_loop fuel buf = Ok tt buf' /\ stream_at buf' EOF [].
Proof.
  induction 1 as [| b body Hb Hbody IH]; intros fuel buf prev Hs Hf;
    (destruct fuel as [| fuel]; [cbn [length] in Hf; lia |]).
  - destruct (next_char_nil buf prev Hs) as (buf1 & Hn & Hs1 & _).
    exists buf1. cbn [line_comment_loop]. rewrite Hn. now split.
  - destruct (comment_byte_facts b Hb) as [H1 H2].
    destruct (next_char_cons buf prev b _ Hs) as (buf1 & Hn & Hs1 & _).
    destruct (IH fuel buf1 _ Hs1) as (buf' & Hrun & Hs').
    { cbn [length] in Hf. lia. }
    exists buf'. cbn [line_comment_loop]. rewrite Hn, H1, H2.
    cbn [negb andb]. now split.
Qed.

(** X9.  Two minus signs open a comment that runs to the end of the line,
    when none of its bytes is the byte 255 (which is read as [EOF]): the
    main loop consumes the comment with the newline that ends it in one
    turn, writes nothing, counts the line, and goes on with the next line.
    When the input ends before a newline, the scan ends normally. *)
Theorem line_comment_removed body :
  Forall comment_byte body ->
  (forall fuel buf prev rest out,
      stream_at buf prev ("-"%c :: "-"%c :: body ++ NEWLINE :: rest) ->
      exists buf',
        stream_at buf' NEWLINE rest
        /\ current_line buf' = (current_line buf + 1) mod SIZE_MODULUS
        /\ lexer_loop (S fuel) buf out = lexer_loop fuel buf' out)
  /\ (forall fuel buf prev out,
         stream_at buf prev ("-"%c :: "-"%c :: body) ->
         lexer_loop (S (S fuel)) buf out = Finished out).
Proof.
  intros Hbody.
  assert (Hminus : comment_byte "-"%c)
    by (unfold comment_byte, byte_ok, NEWLINE; lia).
  assert (Hstart : forall buf prev tail out fuel,
             stream_at buf prev ("-"%c :: "-"%c :: tail) ->
             exists buf1,
               stream_at buf1 "-"%c ("-"%c :: tail)
               /\ current_line buf1 = current_line buf
               /\ lexer_loop (S fuel) buf out
                  = match line_comment_loop
                            (S (length ("-"%c :: tail))) buf1 with
                    | Ok _ buf2 => lexer_loop fuel buf2 out
                    | Exit code => Exited code out
                    | OutOfFuel => NoFuel
                    end).
  { intros buf prev tail out fuel Hs.
    destruct (next_char_cons buf prev _ _ Hs) as (buf1 & Hn & Hs1 & Hl1).
    change (char_of_byte "-"%c) with "-"%c in *.
    exists buf1. split; [exact Hs1 |]. split; [exact Hl1 |].
    cbn [lexer_loop]. rewrite Hn. chars.
    unfold remove_comments.
    rewrite current_char_lookup_cur, (sa_cur _ _ _ Hs1). chars.
    rewrite (next_char_lookup_cons buf1 _ _ _ Hs1)
      by (unfold byte_ok; lia).
    chars. rewrite (sa_pending _ _ _ Hs1).
    destruct (line_comment_loop (S (length ("-"%c :: tail))) buf1);
      reflexivity. }
  split.
  - intros fuel buf prev rest out Hs.
    destruct (Hstart buf prev _ out fuel Hs) as (buf1 & Hs1 & Hl1 & Hrun).
    destruct (line_comment_loop_newline rest ("-"%c :: body)
                ltac:(now constructor)
                (S (length ("-"%c :: body ++ NEWLINE :: rest))) buf1 _ Hs1)
      as (buf2 & Hloop & Hs2 & Hl2).
    { cbn [length]. rewrite length_app. lia. }
    exists buf2. split; [exact Hs2 |]. split; [congruence |].
    rewrite Hrun, Hloop. reflexivity.
  - intros fuel buf prev out Hs.
    destruct (Hstart buf prev _ out (S fuel) Hs) as (buf1 & Hs1 & _ & Hrun).
    destruct (line_comment_loop_end ("-"%c :: body) ltac:(now constructor)
                (S (length ("-"%c :: body))) buf1 _ Hs1)
      as (buf2 & Hloop & Hs2); [lia |].
    rewrite Hrun, Hloop.
    destruct (next_char_nil buf2 _ Hs2) as (buf3 & Hn & _).
    cbn [lexer_loop]. rewrite Hn. reflexivity.
Qed.

Lemma line_comment_removed_witness :
  exists buf',
    pending buf' = cstr "x"
    /\ current_line buf' = 2
    /\ lexer_loop 9 (init_buffer
                       (mkFILE (cstr "-- c" ++ [NEWLINE] ++ cstr "x") 0)) []
       = lexer_loop 8 buf' [].
Proof.
  destruct (proj1 (line_comment_removed (cstr " c")
                     ltac:(repeat constructor; unfold byte_ok; simpl;
                           try lia; discriminate))
                  8%nat
                  (init_buffer
                     (mkFILE (cstr "-- c" ++ [NEWLINE] ++ cstr "x") 0))
                  EOF (cstr "x") [])
    as (buf' & Hs & Hl & Hrun).
  - stream_by_compute.
  - exists buf'. split; [exact (sa_pending _ _ _ Hs) |].
    split; [exact Hl | exact Hrun].
Defined.

Lemma block_comment_loop_closed rest body :
  forall fuel buf c,
    stream_at buf c (body ++ "*"%c :: ")"%c :: rest) ->
    c <> EOF ->
    has_closer (c :: body ++ ["*"%c]) = false ->
    Forall byte_ok body ->
    0 <= current_line buf < SIZE_MODULUS ->
    (length body + 2 <= fuel)%nat ->
    exists buf',
      block_comment_loop fuel buf c = Ok tt buf'
      /\ stream_at buf' "*"%c (")"%c :: rest)
      /\ current_line buf' = line_after (current_line buf) body.
Proof.
  assert (Hstar : byte_ok "*"%c) by (unfold byte_ok; lia).
  assert (Hpar : byte_ok ")"%c) by (unfold byte_ok; lia).
  induction body as [| b body IH]; intros fuel buf c Hs Hc Hno Hok Hr Hfuel.
  - destruct fuel as [| [| fuel]]; [cbn [length] in Hfuel; lia .. |].
    cbn [app] in Hs.
    destruct (next_char_cons buf c _ _ Hs) as (buf1 & Hn & Hs1 & Hl1).
    change (char_of_byte "*"%c) with "*"%c in *.
    change ("*"%c =? NEWLINE) with false in Hl1.
    exists buf1. split; [| split; [exact Hs1 |]].
    + cbn [block_comment_loop].
      destruct (Z.eqb_spec c EOF) as [E | _]; [contradiction |].
      rewrite (next_char_lookup_cons buf c _ _ Hs Hstar), Hn. chars.
      rewrite (next_char_lookup_cons buf1 _ _ _ Hs1 Hpar). chars.
      destruct (c =? "*"%c); reflexivity.
    + rewrite Hl1. symmetry. now apply line_after_nil.
  - destruct fuel as [| fuel]; [cbn [length] in Hfuel; lia |].
    inversion Hok as [| b' body' Hb Hbody]; subst b' body'.
    cbn [app] in Hs, Hno.
    destruct (next_char_cons buf c b _ Hs) as (buf1 & Hn & Hs1 & Hl1).
    assert (Hrest : has_closer (char_of_byte b :: body ++ ["*"%c]) = false).
    { rewrite (has_closer_char b _ Hb).
      cbn [has_closer] in Hno. apply orb_false_iff in Hno. apply Hno. }
    destruct (IH fuel buf1 (char_of_byte b) Hs1 (char_of_byte_eof b Hb)
                 Hrest Hbody) as (buf' & Hrun & Hs' & Hl').
    { rewrite Hl1. now apply line_step_range. }
    { cbn [length] in Hfuel. lia. }
    exists buf'. split; [| split; [exact Hs' |]].
    + cbn [block_comment_loop].
      destruct (Z.eqb_spec c EOF) as [E | _]; [contradiction |].
      rewrite (next_char_lookup_cons buf c b _ Hs Hb), Hn.
      destruct (Z.eqb_spec c "*"%c) as [-> | _]; [| exact Hrun].
      cbn [has_closer] in Hno. apply orb_false_iff in Hno.
      destruct Hno as [Hno _]. cbn [Z.eqb Pos.eqb andb] in Hno.
      rewrite (byte_ok_char_eq b ")"%c Hb), Hno by lia.
      exact Hrun.
    + rewrite Hl', Hl1. apply line_after_cons.
Qed.

(** X10.  A block comment that is closed and none of whose bytes is the
    byte 255 (which is read as [EOF]): when the first asterisk followed by
    a closing parenthesis after the opener is the closer, the main loop
    consumes the comment up to and with that parenthesis in one turn, writes
    nothing, counts the newlines of the comment, and goes on behind it. *)
Theorem block_comment_removed body :
  has_closer ("*"%c :: body ++ ["*"%c]) = false ->
  Forall byte_ok body ->
  forall fuel buf prev rest out,
    stream_at buf prev
              ("("%c :: "*"%c :: body ++ "*"%c :: ")"%c :: rest) ->
    0 <= current_line buf < SIZE_MODULUS ->
    exists buf',
      stream_at buf' ")"%c rest
      /\ current_line buf' = line_after (current_line buf) body
      /\ lexer_loop (S fuel) buf out = lexer_loop fuel buf' out.
Proof.
  intros Hno Hok fuel buf prev rest out Hs Hr.
  assert (Hstar : byte_ok "*"%c) by (unfold byte_ok; lia).
  destruct (next_char_cons buf prev _ _ Hs) as (buf1 & Hn & Hs1 & Hl1).
  change (char_of_byte "("%c) with "("%c in *.
  change ("("%c =? NEWLINE) with false in Hl1.
  destruct (block_comment_loop_closed rest ("*"%c :: body)
              (2 + length ("*"%c :: body ++ "*"%c :: ")"%c :: rest))
              buf1 "("%c Hs1)
    as (buf2 & Hloop & Hs2 & Hl2).
  { discriminate. }
  { exact Hno. }
  { now constructor. }
  { now rewrite Hl1. }
  { cbn [length]. rewrite length_app. cbn [length]. lia. }
  destruct (next_char_cons buf2 _ _ _ Hs2) as (buf3 & Hn3 & Hs3 & Hl3).
  change (char_of_byte ")"%c) with ")"%c in *.
  change (")"%c =? NEWLINE) with false in Hl3.
  exists buf3. split; [exact Hs3 |]. split.
  { rewrite Hl3, Hl2, Hl1.
    rewrite <- (line_after_cons (current_line buf) "*"%c body).
    reflexivity. }
  cbn [lexer_loop]. rewrite Hn. chars.
  unfold remove_comments.
  rewrite current_char_lookup_cur, (sa_cur _ _ _ Hs1). chars.
  rewrite (next_char_lookup_cons buf1 _ _ _ Hs1 Hstar). chars.
  rewrite (sa_pending _ _ _ Hs1), Hloop, Hn3. chars. reflexivity.
Qed.

Lemma block_comment_removed_witness :
  exists buf',
    pending buf' = cstr "x"
    /\ current_line buf' = 2
    /\ lexer_loop 9 (init_buffer
                       (mkFILE (cstr "(*a" ++ [NEWLINE] ++ cstr "**)x") 0))
                  []
       = lexer_loop 8 buf' [].
Proof.
  destruct (block_comment_removed ("a"%c :: NEWLINE :: cstr "*")
              eq_refl
              ltac:(repeat constructor; unfold byte_ok, NEWLINE; simpl; lia)
              8%nat
              (init_buffer
                 (mkFILE (cstr "(*a" ++ [NEWLINE] ++ cstr "**)x") 0))
              EOF (cstr "x") [])
    as (buf' & Hs & Hl & Hrun).
  - stream_by_compute.
  - vm_compute. split; [discriminate | reflexivity].
  - exists buf'. split; [exact (sa_pending _ _ _ Hs) |].
    split; [exact Hl | exact Hrun].
Defined.

(** * Further properties of the main loop: terminals *)





Lemma extract_terminal_none buf :
  ~ In (cur buf) terminal_chars -> extract_terminal buf = (None, buf).
Proof.
  unfold terminal_chars, single_terminals. cbn [map fst In]. intros H.
  unfold extract_terminal. rewrite current_char_lookup_cur.
  repeat match goal with
         | |- context [cur buf =? ?k] =>
             destruct (Z.eqb_spec (cur buf) k) as [E | _];
             [exfalso; apply H; rewrite E; tauto |]
         end.
  reflexivity.
Qed.

(** X12.  A byte other than 255 (which is read as [EOF]) that is neither
    white space, nor a name character, nor a double quote, nor one of the
    sixteen characters that start a terminal, is fatal: the main loop writes
    the line number and exits with code 7, whatever follows the byte. *)
Theorem invalid_character_exits b rest :
  byte_ok b ->
  iswhitespace (char_of_byte b) = false ->
  isname (char_of_byte b) = false ->
  char_of_byte b <> DQUOTE ->
  ~ In (char_of_byte b) terminal_chars ->
  (forall fuel buf prev out,
      stream_at buf prev (b :: rest) ->
      lexer_loop (S fuel) buf out
      = Exited LEXER_ERROR_INVALID_CHARACTER
               (out ++ [LineNumber (current_line buf)]))
  /\ lexer (b :: rest) = Exited LEXER_ERROR_INVALID_CHARACTER [LineNumber 1].
Proof.
  intros Hb Hws Hname Hq Hterm.
  assert (Hloop : forall fuel buf prev out,
             stream_at buf prev (b :: rest) ->
             lexer_loop (S fuel) buf out
             = Exited LEXER_ERROR_INVALID_CHARACTER
                      (out ++ [LineNumber (current_line buf)])).
  { intros fuel buf prev out Hs.
    destruct (next_char_cons buf prev b rest Hs) as (buf1 & Hn & Hs1 & Hl1).
    assert (Hc1 : char_of_byte b <> "-"%c).
    { intros E. apply Hterm. rewrite E. unfold terminal_chars. simpl. tauto. }
    assert (Hc2 : char_of_byte b <> "("%c).
    { intros E. apply Hterm. rewrite E. unfold terminal_chars. simpl. tauto. }
    assert (Hnl : (b =? NEWLINE) = false).
    { apply Z.eqb_neq. intros ->. discriminate Hws. }
    rewrite Hnl in Hl1.
    cbn [lexer_loop]. rewrite Hn.
    destruct (Z.eqb_spec (char_of_byte b) EOF) as [E | _];
      [now apply char_of_byte_eof in E |].
    rewrite Hws.
    rewrite (remove_comments_other buf1 _ (sa_cur _ _ _ Hs1) Hc1 Hc2).
    cbn [Z.eqb negb].
    destruct (Z.eqb_spec (char_of_byte b) DQUOTE) as [E | _];
      [contradiction |].
    rewrite Hname. cbn [negb].
    rewrite extract_terminal_none, Hl1; [reflexivity |].
    now rewrite (sa_cur _ _ _ Hs1). }
  split; [exact Hloop |].
  unfold lexer.
  destruct (init_buffer_stream (b :: rest)) as [Hs Hline].
  rewrite (Hloop _ _ EOF [] Hs), Hline. reflexivity.
Qed.

Lemma invalid_character_exits_witness :
  lexer (cstr "#include") = Exited 7 [LineNumber 1].
Proof.
  apply (invalid_character_exits "#"%c (cstr "include")).
  - unfold byte_ok. lia.
  - reflexivity.
  - reflexivity.
  - discriminate.
  - unfold terminal_chars, single_terminals. simpl.
    intros H. repeat (destruct H as [H | H]; [discriminate H |]).
    exact H.
Defined.

(** * Further properties of names: keywords, identifiers, integers *)

Lemma uchar_inj a b :
  -128 <= a < 128 -> -128 <= b < 128 -> uchar a = uchar b -> a = b.
Proof. unfold uchar. intros Ha Hb H. Z.div_mod_to_equations. lia. Qed.

Lemma uchar_nonzero a : -128 <= a < 128 -> a <> 0 -> uchar a <> 0.
Proof. unfold uchar. intros Ha Hn H. Z.div_mod_to_equations. lia. Qed.

(** On strings without an embedded null character [strcmp] returns zero on
    equal strings only. *)
Lemma strcmp_eq s1 :
  forall s2, c_string s1 -> c_string s2 -> strcmp s1 s2 = 0 -> s1 = s2.
Proof.
  induction s1 as [| c1 s1 IH]; intros [| c2 s2] H1 H2 H.
  - reflexivity.
  - inversion H2 as [| x l [Hr Hn] _]; subst x l.
    cbn [strcmp] in H. pose proof (uchar_nonzero c2 Hr Hn). lia.
  - inversion H1 as [| x l [Hr Hn] _]; subst x l.
    cbn [strcmp] in H. pose proof (uchar_nonzero c1 Hr Hn). lia.
  - inversion H1 as [| x l [Hr1 Hn1] H1']; subst x l.
    inversion H2 as [| x l [Hr2 _] H2']; subst x l.
    cbn [strcmp] in H.
    destruct (Z.eqb_spec (uchar c1) (uchar c2)) as [E | N]; [| lia].
    f_equal; [now apply uchar_inj | now apply IH].
Qed.

Lemma find_keyword_some text kws kw :
  find_keyword text kws = Some kw ->
  In kw kws /\ strcmp text (cstr kw) = 0.
Proof.
  induction kws as [| k kws IH]; cbn [find_keyword]; [discriminate |].
  destruct (Z.eqb_spec (strcmp text (cstr k)) 0) as [E | _].
  - intros [= <-]. split; [now left | exact E].
  - intros H. destruct (IH H) as [Hin Hz]. split; [now right | exact Hz].
Qed.

Lemma find_keyword_none text kws :
  find_keyword text kws = None ->
  forall kw, In kw kws -> strcmp text (cstr kw) <> 0.
Proof.
  induction kws as [| k kws IH]; cbn [find_keyword]; [easy |].
  destruct (Z.eqb_spec (strcmp text (cstr k)) 0) as [E | N]; [discriminate |].
  intros H kw [<- | Hin]; [exact N | now apply IH].
Qed.

Lemma keywords_c_string kw : In kw keywords -> c_string (cstr kw).
Proof.
  unfold keywords, c_string. cbn [In]. intros Hin.
  repeat (destruct Hin as [<- | Hin];
          [repeat constructor; simpl; lia |]).
  contradiction.
Qed.

Lemma tolower_c_string text : c_string text -> c_string (map tolower text).
Proof.
  unfold c_string. induction 1 as [| c text Hc _ IH]; cbn [map];
    constructor; [| exact IH].
  unfold tolower, isupper. destruct (("A"%c <=? c) && (c <=? "Z"%c)) eqn:E;
    lia.
Qed.

Lemma check_keyword_some text kw :
  c_string text -> check_keyword text = Some kw ->
  In kw keywords /\ map tolower text = cstr kw.
Proof.
  intros Hc H. unfold check_keyword in H.
  apply find_keyword_some in H. destruct H as [Hin Hz].
  split; [exact Hin |].
  apply strcmp_eq;
    [now apply tolower_c_string | now apply keywords_c_string | exact Hz].
Qed.

Lemma check_keyword_none text :
  c_string text ->
  (forall kw, In kw keywords -> map tolower text <> cstr kw) ->
  check_keyword text = None.
Proof.
  intros Hc Hno. destruct (check_keyword text) as [kw |] eqn:E;
    [| reflexivity].
  destruct (check_keyword_some text kw Hc E) as [Hin Heq].
  now destruct (Hno kw Hin).
Qed.

(** X13.  On a string without an embedded null character [check_keyword]
    returns a keyword exactly when that keyword of the table equals the
    string with its capital letters lowered, and returns nothing exactly
    when no keyword of the table does. *)
Theorem check_keyword_exact text :
  c_string text ->
  (forall kw,
      check_keyword text = Some kw
      <-> In kw keywords /\ map tolower text = cstr kw)
  /\ (check_keyword text = None
      <-> forall kw, In kw keywords -> map tolower text <> cstr kw).
Proof.
  intros Hc. split.
  - intros kw. split.
    + now apply check_keyword_some.
    + intros [Hin Heq]. now apply check_keyword_found.
  - split.
    + intros Hnone kw Hin Heq.
      unfold check_keyword in Hnone.
      apply (find_keyword_none _ _ Hnone kw Hin).
      rewrite Heq. apply strcmp_refl.
    + now apply check_keyword_none.
Qed.

Lemma check_keyword_exact_witness :
  check_keyword (cstr "wHiLe") = Some "while"%string
  /\ check_keyword (cstr "whilst") = None.
Proof.
  assert (H1 : c_string (cstr "wHiLe"))
    by (unfold c_string; repeat constructor; simpl; lia).
  assert (H2 : c_string (cstr "whilst"))
    by (unfold c_string; repeat constructor; simpl; lia).
  split.
  - apply (proj1 (check_keyword_exact (cstr "wHiLe") H1)).
    split; [simpl; tauto | reflexivity].
  - apply (proj2 (check_keyword_exact (cstr "whilst") H2)).
    intros kw Hin. unfold keywords in Hin. cbn [In] in Hin.
    repeat (destruct Hin as [<- | Hin]; [discriminate |]).
    contradiction.
Defined.








(** * The line counter counts the newlines consumed *)

Lemma line_after_app line a b :
  line_after (line_after line a) b = line_after line (a ++ b).
Proof.
  unfold line_after, count_newlines.
  rewrite count_occ_app, Nat2Z.inj_add, Z.add_mod_idemp_l, Z.add_assoc
    by (unfold SIZE_MODULUS; lia).
  reflexivity.
Qed.

Lemma line_after_other line b :
  0 <= line < SIZE_MODULUS -> b <> NEWLINE -> line_after line [b] = line.
Proof.
  intros Hr Hb. rewrite <- line_after_cons.
  destruct (Z.eqb_spec b NEWLINE); [contradiction |].
  now apply line_after_nil.
Qed.

Lemma advances_refl buf : counted buf -> advances buf buf.
Proof.
  intros Hc. split; [exact Hc |]. exists []. split; [reflexivity |].
  symmetry. apply line_after_nil, Hc.
Qed.

Lemma advances_trans a b c : advances a b -> advances b c -> advances a c.
Proof.
  intros (_ & l1 & Hp1 & Hl1) (Hc & l2 & Hp2 & Hl2).
  split; [exact Hc |]. exists (l1 ++ l2). split.
  - now rewrite Hp1, Hp2, app_assoc.
  - now rewrite Hl2, Hl1, line_after_app.
Qed.

Lemma advances_counted buf buf' : advances buf buf' -> counted buf'.
Proof. now intros [H _]. Qed.

Lemma next_char_advances buf :
  counted buf -> advances buf (snd (next_char buf)).
Proof.
  intros [Hwf Hr]. pose proof (stream_at_self buf Hwf) as Hs.
  destruct (pending buf) as [| b r] eqn:E.
  - destruct (next_char_nil buf _ Hs) as (buf' & Hn & Hs' & Hl).
    rewrite Hn. cbn [snd]. split.
    + split; [exact (sa_wf _ _ _ Hs') | now rewrite Hl].
    + exists []. rewrite (sa_pending _ _ _ Hs'), E, Hl.
      split; [reflexivity |]. symmetry. now apply line_after_nil.
  - destruct (next_char_cons buf _ b r Hs) as (buf' & Hn & Hs' & Hl).
    rewrite Hn. cbn [snd]. split.
    + split; [exact (sa_wf _ _ _ Hs') |].
      rewrite Hl. now apply line_step_range.
    + exists [b]. rewrite (sa_pending _ _ _ Hs'), E, Hl.
      split; [reflexivity |].
      rewrite <- line_after_cons. symmetry.
      now apply line_after_nil, line_step_range.
Qed.

Lemma next_char_lookup_advances buf :
  counted buf -> advances buf (snd (next_char_lookup buf)).
Proof.
  intros [Hwf Hr].
  destruct (Nat.eqb_spec (current_position buf) (total_size buf))
    as [Epos | Npos].
  2:{ unfold next_char_lookup.
      rewrite (proj2 (Nat.eqb_neq _ _) Npos). cbn [snd].
      now apply advances_refl. }
  destruct buf as [[data off] cont pos tot line].
  unfold advances, counted, wf, pending, next_char_lookup, fgetc, fsetpos,
    fgetpos in *.
  fields. subst tot. rewrite Nat.eqb_refl, Nat.sub_diag. cbn [firstn app].
  destruct (skipn off data) as [| i r] eqn:Eskip.
  - rewrite (skipn_nth_error_nil _ _ _ Eskip). chars. fields.
    rewrite Nat.sub_diag, Eskip. cbn [firstn app].
    split; [now split |]. exists []. split; [reflexivity |].
    symmetry. now apply line_after_nil.
  - destruct (skipn_nth_error_cons _ _ _ _ _ Eskip) as [Hnth Hrest].
    rewrite Hnth.
    destruct (Z.eqb_spec (if i =? EOF then EOF else char_of_byte i) EOF)
      as [Eeof | Neof]; fields; rewrite Nat.sub_diag; cbn [firstn app].
    + split; [now split |]. exists [i]. rewrite Hrest.
      split; [reflexivity |]. symmetry. apply line_after_other; [exact Hr |].
      intros ->. vm_compute in Eeof. discriminate Eeof.
    + split; [now split |]. exists []. rewrite Eskip.
      split; [reflexivity |]. symmetry. now apply line_after_nil.
Qed.

Lemma extract_general_name_loop_advances fuel :
  forall buf acc name buf',
    counted buf ->
    extract_general_name_loop fuel buf acc = Ok name buf' ->
    advances buf buf'.
Proof.
  induction fuel as [| fuel IH]; intros buf acc name buf' Hc He;
    [discriminate He |].
  cbn [extract_general_name_loop] in He.
  pose proof (next_char_lookup_advances buf Hc) as H1.
  destruct (next_char_lookup buf) as [c buf1]. cbn [snd] in H1.
  destruct (negb (isname c)).
  { injection He as _ <-. exact H1. }
  destruct (Nat.eqb (length acc) GENERAL_NAME_MAX_SIZE); [discriminate He |].
  pose proof (next_char_advances buf1 (advances_counted _ _ H1)) as H2.
  destruct (next_char buf1) as [c' buf2]. cbn [snd] in H2.
  apply (advances_trans _ buf1); [exact H1 |].
  apply (advances_trans _ buf2); [exact H2 |].
  exact (IH _ _ _ _ (advances_counted _ _ H2) He).
Qed.

Lemma extract_string_loop_advances fuel :
  forall buf acc text buf',
    counted buf ->
    extract_string_loop fuel buf acc = Ok text buf' ->
    advances buf buf'.
Proof.
  induction fuel as [| fuel IH]; intros buf acc text buf' Hc He;
    [discriminate He |].
  cbn [extract_string_loop] in He.
  destruct (Nat.eqb (length acc) LITERAL_STRING_MAX_SIZE);
    [discriminate He |].
  rewrite current_char_lookup_cur in He.
  pose proof (next_char_advances buf Hc) as H1.
  destruct (next_char buf) as [c buf1]. cbn [snd] in H1.
  destruct (negb (cur buf =? BACKSLASH) && (c =? DQUOTE)).
  { injection He as _ <-. exact H1. }
  destruct ((c =? NUL) || (c =? EOF)); [discriminate He |].
  pose proof (next_char_lookup_advances buf1 (advances_counted _ _ H1))
    as H2.
  destruct (next_char_lookup buf1) as [la buf2]. cbn [snd] in H2.
  apply (advances_trans _ buf1); [exact H1 |].
  apply (advances_trans _ buf2); [exact H2 |].
  destruct (la =? NEWLINE).
  - destruct (c =? BACKSLASH); [| discriminate He].
    pose proof (next_char_advances buf2 (advances_counted _ _ H2)) as H3.
    destruct (next_char buf2) as [c3 buf3]. cbn [snd] in H3.
    apply (advances_trans _ buf3); [exact H3 |].
    exact (IH _ _ _ _ (advances_counted _ _ H3) He).
  - exact (IH _ _ _ _ (advances_counted _ _ H2) He).
Qed.

Lemma extract_terminal_advances buf :
  counted buf -> advances buf (snd (extract_terminal buf)).
Proof.
  intros Hc. unfold extract_terminal. rewrite current_char_lookup_cur.
  pose proof (next_char_lookup_advances buf Hc) as H1.
  destruct (next_char_lookup buf) as [la buf1]. cbn [snd] in H1.
  pose proof (next_char_advances buf1 (advances_counted _ _ H1)) as H2.
  destruct (next_char buf1) as [c2 buf2]. cbn [snd] in H2.
  pose proof (advances_trans _ _ _ H1 H2) as H12.
  pose proof (advances_refl buf Hc) as H0.
  repeat match goal with
         | |- context [if ?b then _ else _] => destruct b
         end; cbn [snd]; assumption.
Qed.

Lemma line_comment_loop_advances fuel :
  forall buf u buf',
    counted buf ->
    line_comment_loop fuel buf = Ok u buf' ->
    advances buf buf'.
Proof.
  induction fuel as [| fuel IH]; intros buf u buf' Hc He;
    [discriminate He |].
  cbn [line_comment_loop] in He.
  pose proof (next_char_advances buf Hc) as H1.
  destruct (next_char buf) as [c buf1]. cbn [snd] in H1.
  destruct (negb (c =? NEWLINE) && negb (c =? EOF)).
  - apply (advances_trans _ buf1); [exact H1 |].
    exact (IH _ _ _ (advances_counted _ _ H1) He).
  - injection He as _ <-. exact H1.
Qed.

Lemma block_comment_loop_advances fuel :
  forall buf c u buf',
    counted buf ->
    block_comment_loop fuel buf c = Ok u buf' ->
    advances buf buf'.
Proof.
  induction fuel as [| fuel IH]; intros buf c u buf' Hc He;
    [discriminate He |].
  cbn [block_comment_loop] in He.
  destruct (c =? EOF).
  { injection He as _ <-. now apply advances_refl. }
  assert (Hnext : forall buf1,
             advances buf buf1 ->
             (let '(c', buf2) := next_char buf1 in
              block_comment_loop fuel buf2 c') = Ok u buf' ->
             advances buf buf').
  { intros buf1 H1 He1.
    pose proof (next_char_advances buf1 (advances_counted _ _ H1)) as H2.
    destruct (next_char buf1) as [c' buf2]. cbn [snd] in H2.
    apply (advances_trans _ buf1); [exact H1 |].
    apply (advances_trans _ buf2); [exact H2 |].
    exact (IH _ _ _ _ (advances_counted _ _ H2) He1). }
  destruct (c =? "*"%c).
  - pose proof (next_char_lookup_advances buf Hc) as H1.
    destruct (next_char_lookup buf) as [la buf1]. cbn [snd] in H1.
    destruct (la =? ")"%c).
    + injection He as _ <-. exact H1.
    + exact (Hnext buf1 H1 He).
  - exact (Hnext buf (advances_refl buf Hc) He).
Qed.

Lemma remove_comments_advances buf r buf' :
  counted buf -> remove_comments buf = Ok r buf' -> advances buf buf'.
Proof.
  intros Hc He. unfold remove_comments in He.
  rewrite current_char_lookup_cur in He.
  pose proof (next_char_lookup_advances buf Hc) as H1.
  assert (Hline : forall b,
             advances buf b ->
             match line_comment_loop (S (length (pending b))) b with
             | Ok _ buf2 => Ok 1 buf2
             | Exit code => Exit code
             | OutOfFuel => OutOfFuel
             end = Ok r buf' ->
             advances buf buf').
  { intros b Hb H.
    destruct (line_comment_loop (S (length (pending b))) b)
      as [u buf2 | |] eqn:El; [| discriminate H | discriminate H].
    injection H as _ <-.
    apply (advances_trans _ b); [exact Hb |].
    exact (line_comment_loop_advances _ _ _ _ (advances_counted _ _ Hb) El). }
  assert (Hsecond : forall b,
             advances buf b ->
             (let '(is_block, buf2) :=
                if cur buf =? "("%c
                then let '(la, b') := next_char_lookup b in
                     (la =? "*"%c, b')
                else (false, b) in
              if is_block
              then match block_comment_loop (2 + length (pending buf2)) buf2
                           (cur buf) with
                   | Ok _ buf3 =>
                       let '(_, buf4) := next_char buf3 in Ok 1 buf4
                   | Exit code => Exit code
                   | OutOfFuel => OutOfFuel
                   end
              else Ok 0 buf2) = Ok r buf' ->
             advances buf buf').
  { intros b Hb H.
    pose proof (next_char_lookup_advances b (advances_counted _ _ Hb)) as H2.
    destruct (next_char_lookup b) as [la b']. cbn [snd] in H2.
    pose proof (advances_trans _ _ _ Hb H2) as Hb'.
    assert (Hblock : forall b2,
               advances buf b2 ->
               match block_comment_loop (2 + length (pending b2)) b2
                       (cur buf) with
               | Ok _ buf3 => let '(_, buf4) := next_char buf3 in Ok 1 buf4
               | Exit code => Exit code
               | OutOfFuel => OutOfFuel
               end = Ok r buf' ->
               advances buf buf').
    { intros b2 Hb2 Hm.
      destruct (block_comment_loop (2 + length (pending b2)) b2 (cur buf))
        as [u buf3 | |] eqn:Eb; [| discriminate Hm | discriminate Hm].
      pose proof (block_comment_loop_advances _ _ _ _ _
                    (advances_counted _ _ Hb2) Eb) as H3.
      pose proof (next_char_advances buf3 (advances_counted _ _ H3)) as H4.
      destruct (next_char buf3) as [c4 buf4]. cbn [snd] in H4.
      injection Hm as _ <-.
      exact (advances_trans _ _ _ Hb2 (advances_trans _ _ _ H3 H4)). }
    destruct (cur buf =? "("%c).
    - destruct (la =? "*"%c).
      + exact (Hblock b' Hb' H).
      + injection H as _ <-. exact Hb'.
    - injection H as _ <-. exact Hb. }
  destruct (cur buf =? "-"%c).
  - destruct (next_char_lookup buf) as [la buf1]. cbn [snd] in H1.
    destruct (la =? "-"%c).
    + exact (Hline buf1 H1 He).
    + exact (Hsecond buf1 H1 He).
  - exact (Hsecond buf (advances_refl buf Hc) He).
Qed.


(** X16.  Every function that moves the cursor advances the line counter by
    exactly the number of newline bytes that it takes from the input, modulo
    the size of the counter: the look-ahead takes none (or one byte that it
    reads as [EOF]), and names, string literals, terminals and comments
    count their newlines whatever their content. *)
Theorem line_counter_counts_newlines buf :
  counted buf ->
  advances buf (snd (next_char buf))
  /\ advances buf (snd (next_char_lookup buf))
  /\ advances buf (snd (extract_terminal buf))
  /\ (forall name buf',
         extract_general_name buf = Ok name buf' -> advances buf buf')
  /\ (forall text buf',
         extract_string buf = Ok text buf' -> advances buf buf')
  /\ (forall removed buf',
         remove_comments buf = Ok removed buf' -> advances buf buf').
Proof.
  intros Hc.
  split; [now apply next_char_advances |].
  split; [now apply next_char_lookup_advances |].
  split; [now apply extract_terminal_advances |].
  split; [| split].
  - intros name buf' He. unfold extract_general_name in He.
    rewrite current_char_lookup_cur in He.
    exact (extract_general_name_loop_advances _ _ _ _ _ Hc He).
  - intros text buf' He.
    exact (extract_string_loop_advances _ _ _ _ _ Hc He).
  - intros removed buf'. now apply remove_comments_advances.
Qed.

Lemma line_counter_counts_newlines_witness :
  let buf := init_buffer (mkFILE (cstr "-- c" ++ [NEWLINE] ++ cstr "x") 0) in
  advances (snd (next_char buf))
           (snd (next_char (snd (next_char buf)))).
Proof.
  intros buf.
  apply (line_counter_counts_newlines (snd (next_char buf))).
  split.
  - unfold wf; split; [| split];
      [ apply Nat.leb_le; vm_compute; reflexivity
      | apply Nat.leb_le; vm_compute; reflexivity
      | vm_compute; reflexivity ].
  - vm_compute. split; [discriminate | reflexivity].
Defined.

(** * Further properties of string literals *)

Lemma clean_app_intro p l1 l2 :
  clean p l1 -> clean (last l1 p) l2 -> clean p (l1 ++ l2).
Proof.
  revert p. induction l1 as [| b l1 IH]; intros p H1 H2; [exact H2 |].
  cbn [app clean] in *. destruct H1 as (Hb & Hn & Hq & Hnl & Hc).
  repeat (split; [assumption |]).
  apply IH; [exact Hc |]. now rewrite last_cons_shift in H2.
Qed.



(** X18.  A raw newline inside a string literal is fatal.  When the
    content up to a byte [b] is clean (no null character, no byte 255, every
    double quote and every newline right after a backslash) and stores
    fewer than 1024 characters, [b] is neither a backslash nor a newline,
    and a newline comes right after [b], the main loop writes the line
    number and exits with code 9, whatever follows the newline. *)
Theorem raw_newline_in_string body b rest :
  clean DQUOTE (body ++ [b]) ->
  b <> BACKSLASH -> b <> NEWLINE ->
  (length (literal_text body) < LITERAL_STRING_MAX_SIZE)%nat ->
  (forall fuel buf prev out,
      stream_at buf prev (DQUOTE :: body ++ b :: NEWLINE :: rest) ->
      lexer_loop (S fuel) buf out
      = Exited LEXER_ERROR_NON_ESCAPED_NEWLINE
               (out ++ [LineNumber (current_line buf)]))
  /\ lexer (DQUOTE :: body ++ b :: NEWLINE :: rest)
     = Exited LEXER_ERROR_NON_ESCAPED_NEWLINE [LineNumber 1].
Proof.
  intros Hc Hb Hnl Hlen.
  assert (Hloop : forall fuel buf prev out,
             stream_at buf prev (DQUOTE :: body ++ b :: NEWLINE :: rest) ->
             lexer_loop (S fuel) buf out
             = Exited LEXER_ERROR_NON_ESCAPED_NEWLINE
                      (out ++ [LineNumber (current_line buf)])).
  { intros fuel buf prev out Hs.
    destruct (lexer_loop_string fuel buf prev _ out Hs)
      as (buf1 & Hs1 & _ & Hrun).
    rewrite Hrun.
    now rewrite (extract_string_raw_newline buf1 body b rest Hs1 Hc Hb Hnl
                   Hlen). }
  split; [exact Hloop |].
  unfold lexer.
  destruct (init_buffer_stream (DQUOTE :: body ++ b :: NEWLINE :: rest))
    as [Hs Hline].
  rewrite (Hloop _ _ EOF [] Hs), Hline. reflexivity.
Qed.

Lemma raw_newline_in_string_witness :
  lexer (DQUOTE :: cstr "ab" ++ [NEWLINE] ++ cstr "c" ++ [DQUOTE])
  = Exited 9 [LineNumber 1].
Proof.
  apply (raw_newline_in_string (cstr "a") "b"%c (cstr "c" ++ [DQUOTE])).
  - unfold byte_ok, BACKSLASH, NEWLINE, DQUOTE, NUL.
    simpl. repeat split; try lia; try discriminate.
  - discriminate.
  - discriminate.
  - unfold LITERAL_STRING_MAX_SIZE. simpl. lia.
Defined.

(** X19.  The closing test looks at one character back only, so a quote
    that follows a backslash never closes the literal, also when that
    backslash is itself escaped by another one: a file that ends with a
    literal whose content ends in two backslashes is rejected with code 8
    as a literal cut by the end of the input. *)
Theorem backslash_pair_hides_closing_quote body :
  clean DQUOTE (body ++ [BACKSLASH; BACKSLASH]) ->
  (length (literal_text (body ++ [BACKSLASH; BACKSLASH; DQUOTE]))
   < LITERAL_STRING_MAX_SIZE)%nat ->
  (forall fuel buf prev out,
      stream_at buf prev
                (DQUOTE :: body ++ [BACKSLASH; BACKSLASH; DQUOTE]) ->
      lexer_loop (S fuel) buf out
      = Exited LEXER_ERROR_INVALID_STRING_CHARACTER
               (out ++ [LineNumber (current_line buf)]))
  /\ lexer (DQUOTE :: body ++ [BACKSLASH; BACKSLASH; DQUOTE])
     = Exited LEXER_ERROR_INVALID_STRING_CHARACTER [LineNumber 1].
Proof.
  intros Hc Hlen.
  assert (Hc' : clean DQUOTE (body ++ [BACKSLASH; BACKSLASH; DQUOTE])).
  { change [BACKSLASH; BACKSLASH; DQUOTE]
      with ([BACKSLASH; BACKSLASH] ++ [DQUOTE]).
    rewrite app_assoc. apply clean_app_intro; [exact Hc |].
    change [BACKSLASH; BACKSLASH] with ([BACKSLASH] ++ [BACKSLASH]).
    rewrite app_assoc, last_last.
    unfold byte_ok, DQUOTE, BACKSLASH, NUL, NEWLINE. cbn [clean].
    repeat split; try lia; try discriminate. }
  assert (Hloop : forall fuel buf prev out,
             stream_at buf prev
                       (DQUOTE :: body ++ [BACKSLASH; BACKSLASH; DQUOTE]) ->
             lexer_loop (S fuel) buf out
             = Exited LEXER_ERROR_INVALID_STRING_CHARACTER
                      (out ++ [LineNumber (current_line buf)])).
  { intros fuel buf prev out Hs.
    destruct (lexer_loop_string fuel buf prev _ out Hs)
      as (buf1 & Hs1 & _ & Hrun).
    rewrite Hrun.
    rewrite (extract_string_unterminated buf1
               (body ++ [BACKSLASH; BACKSLASH; DQUOTE]) []);
      [reflexivity | now rewrite app_nil_r | exact Hc' | exact Hlen
      | now left]. }
  split; [exact Hloop |].
  unfold lexer.
  destruct (init_buffer_stream
              (DQUOTE :: body ++ [BACKSLASH; BACKSLASH; DQUOTE]))
    as [Hs Hline].
  rewrite (Hloop _ _ EOF [] Hs), Hline. reflexivity.
Qed.

Lemma backslash_pair_hides_closing_quote_witness :
  lexer (DQUOTE :: cstr "anything" ++ [BACKSLASH; BACKSLASH; DQUOTE])
  = Exited 8 [LineNumber 1].
Proof.
  apply (backslash_pair_hides_closing_quote (cstr "anything")).
  - unfold byte_ok, BACKSLASH, NEWLINE, DQUOTE, NUL.
    simpl. repeat split; try lia; try discriminate.
  - unfold LITERAL_STRING_MAX_SIZE. simpl. lia.
Defined.

(** * The exit codes and the shape of the output *)

Lemma line_comment_loop_no_exit fuel :
  forall buf code, line_comment_loop fuel buf <> Exit code.
Proof.
  induction fuel as [| fuel IH]; intros buf code; [discriminate |].
  cbn [line_comment_loop]. destruct (next_char buf) as [c buf1].
  destruct (negb (c =? NEWLINE) && negb (c =? EOF));
    [apply IH | discriminate].
Qed.

Lemma block_comment_loop_no_exit fuel :
  forall buf c code, block_comment_loop fuel buf c <> Exit code.
Proof.
  induction fuel as [| fuel IH]; intros buf c code; [discriminate |].
  cbn [block_comment_loop].
  destruct (c =? EOF); [discriminate |].
  destruct (c =? "*"%c).
  - destruct (next_char_lookup buf) as [la buf1].
    destruct (la =? ")"%c); [discriminate |].
    destruct (next_char buf1) as [c' buf2]. apply IH.
  - destruct (next_char buf) as [c' buf1]. apply IH.
Qed.

(** Comments are never an error. *)
Lemma remove_comments_no_exit buf code : remove_comments buf <> Exit code.
Proof.
  unfold remove_comments. rewrite current_char_lookup_cur.
  assert (Hline : forall b,
             match line_comment_loop (S (length (pending b))) b with
             | Ok _ buf2 => Ok 1 buf2
             | Exit code => Exit code
             | OutOfFuel => OutOfFuel
             end <> Exit code).
  { intros b.
    pose proof (line_comment_loop_no_exit (S (length (pending b))) b) as H.
    destruct (line_comment_loop (S (length (pending b))) b)
      as [u buf2 | code0 |];
      [discriminate | exfalso; now apply (H code0) | discriminate]. }
  assert (Hblock : forall b c,
             match block_comment_loop (2 + length (pending b)) b c with
             | Ok _ buf3 => let '(_, buf4) := next_char buf3 in Ok 1 buf4
             | Exit code => Exit code
             | OutOfFuel => OutOfFuel
             end <> Exit code).
  { intros b c.
    pose proof (block_comment_loop_no_exit (2 + length (pending b)) b c)
      as H.
    destruct (block_comment_loop (2 + length (pending b)) b c)
      as [u buf3 | code0 |];
      [| exfalso; now apply (H code0) | discriminate].
    destruct (next_char buf3). discriminate. }
  assert (Hsecond : forall b,
             (let '(is_block, buf2) :=
                if cur buf =? "("%c
                then let '(la, b') := next_char_lookup b in
                     (la =? "*"%c, b')
                else (false, b) in
              if is_block
              then match block_comment_loop (2 + length (pending buf2)) buf2
                           (cur buf) with
                   | Ok _ buf3 =>
                       let '(_, buf4) := next_char buf3 in Ok 1 buf4
                   | Exit code => Exit code
                   | OutOfFuel => OutOfFuel
                   end
              else Ok 0 buf2) <> Exit code).
  { intros b. destruct (next_char_lookup b) as [la b'].
    destruct (cur buf =? "("%c); [| discriminate].
    destruct (la =? "*"%c); [apply Hblock | discriminate]. }
  destruct (cur buf =? "-"%c); [| apply Hsecond].
  destruct (next_char_lookup buf) as [la buf1].
  destruct (la =? "-"%c); [apply Hline | apply Hsecond].
Qed.

Lemma extract_general_name_loop_exit fuel :
  forall buf acc code,
    extract_general_name_loop fuel buf acc = Exit code ->
    code = LEXER_ERROR_IDENTIFIER_NAME_TOO_LONG.
Proof.
  induction fuel as [| fuel IH]; intros buf acc code He;
    [discriminate He |].
  cbn [extract_general_name_loop] in He.
  destruct (next_char_lookup buf) as [c buf1].
  destruct (negb (isname c)); [discriminate He |].
  destruct (Nat.eqb (length acc) GENERAL_NAME_MAX_SIZE);
    [now injection He |].
  destruct (next_char buf1) as [c' buf2]. exact (IH _ _ _ He).
Qed.

Lemma extract_string_loop_exit fuel :
  forall buf acc code,
    extract_string_loop fuel buf acc = Exit code ->
    In code [LEXER_ERROR_STRING_LITERAL_TOO_LONG;
             LEXER_ERROR_INVALID_STRING_CHARACTER;
             LEXER_ERROR_NON_ESCAPED_NEWLINE].
Proof.
  induction fuel as [| fuel IH]; intros buf acc code He;
    [discriminate He |].
  cbn [extract_string_loop] in He.
  destruct (Nat.eqb (length acc) LITERAL_STRING_MAX_SIZE).
  { injection He as <-. now left. }
  rewrite current_char_lookup_cur in He.
  destruct (next_char buf) as [c buf1].
  destruct (negb (cur buf =? BACKSLASH) && (c =? DQUOTE));
    [discriminate He |].
  destruct ((c =? NUL) || (c =? EOF)).
  { injection He as <-. right. now left. }
  destruct (next_char_lookup buf1) as [la buf2].
  destruct (la =? NEWLINE).
  - destruct (c =? BACKSLASH).
    + destruct (next_char buf2) as [c3 buf3]. exact (IH _ _ _ He).
    + injection He as <-. right. right. now left.
  - exact (IH _ _ _ He).
Qed.

Lemma extract_terminal_names buf t :
  fst (extract_terminal buf) = Some t -> In t terminal_names.
Proof.
  unfold extract_terminal. rewrite current_char_lookup_cur.
  destruct (next_char_lookup buf) as [la buf1].
  destruct (next_char buf1) as [c2 buf2].
  repeat match goal with
         | |- context [if ?b then _ else _] => destruct b
         end; cbn [fst]; intros [= <-] || discriminate;
    unfold terminal_names, single_terminals; simpl; tauto.
Qed.

Lemma classify_name_shape name :
  (length name <= GENERAL_NAME_MAX_SIZE)%nat ->
  match classify_name name with
  | inl code =>
      code = LEXER_ERROR_WRONG_INTEGER32_FORMAT
      \/ code = LEXER_ERROR_UPPERCASE_BOOLEAN_KEYWORD
  | inr lines => forall n, token_lines (LineNumber n :: lines)
  end.
Proof.
  intros Hlen. unfold classify_name.
  assert (Htext : forall k n,
             In k ["integer"; "string"; "type"; "identifier"]%string ->
             token_lines [LineNumber n; Name k; Text name]).
  { intros k n Hk. apply token_text; [exact Hk | exact Hlen]. }
  destruct (isdigit (nth 0 name 0)).
  - destruct (check_integer name =? 1); [| now left].
    intros n. apply Htext. simpl. tauto.
  - destruct (check_keyword name) as [kw |] eqn:Ek.
    + destruct ((negb (strcmp (cstr kw) (cstr "true") =? 0)
                 || negb (strcmp (cstr kw) (cstr "false") =? 0))
                && (("A"%c <=? nth 0 name 0) && (nth 0 name 0 <=? "Z"%c)));
        [now right |].
      intros n. apply token_plain. apply in_or_app. left.
      unfold check_keyword in Ek. now apply find_keyword_some in Ek.
    + destruct (("A"%c <=? nth 0 name 0) && (nth 0 name 0 <=? "Z"%c));
        intros n; apply Htext; simpl; tauto.
Qed.

Lemma lexer_loop_shape fuel :
  forall buf out,
    tokens out ->
    match lexer_loop fuel buf out with
    | Finished o => tokens o
    | Exited code o =>
        LEXER_ERROR_IDENTIFIER_NAME_TOO_LONG <= code
        <= LEXER_ERROR_NON_ESCAPED_NEWLINE
        /\ exists toks n, tokens toks /\ o = toks ++ [LineNumber n]
    | NoFuel => True
    end.
Proof.
  induction fuel as [| fuel IH]; intros buf out Hout; [exact I |].
  cbn [lexer_loop].
  destruct (next_char buf) as [c buf1].
  destruct (c =? EOF); [exact Hout |].
  destruct (iswhitespace c); [now apply IH |].
  pose proof (remove_comments_no_exit buf1) as Hrm.
  destruct (remove_comments buf1) as [removed buf2 | code |];
    [| now destruct (Hrm code) | exact I].
  destruct (negb (removed =? 0)); [now apply IH |].
  assert (Hexit : forall code,
             LEXER_ERROR_IDENTIFIER_NAME_TOO_LONG <= code
             <= LEXER_ERROR_NON_ESCAPED_NEWLINE ->
             LEXER_ERROR_IDENTIFIER_NAME_TOO_LONG <= code
             <= LEXER_ERROR_NON_ESCAPED_NEWLINE
             /\ exists toks n,
                 tokens toks
                 /\ out ++ [LineNumber (current_line buf2)]
                    = toks ++ [LineNumber n]).
  { intros code Hcode. split; [exact Hcode |].
    exists out, (current_line buf2). now split. }
  assert (Hnext : forall buf3 lines,
             token_lines (LineNumber (current_line buf2) :: lines) ->
             match
               lexer_loop fuel buf3
                          ((out ++ [LineNumber (current_line buf2)])
                             ++ lines)
             with
             | Finished o => tokens o
             | Exited code o =>
                 LEXER_ERROR_IDENTIFIER_NAME_TOO_LONG <= code
                 <= LEXER_ERROR_NON_ESCAPED_NEWLINE
                 /\ exists toks n, tokens toks /\ o = toks ++ [LineNumber n]
             | NoFuel => True
             end).
  { intros buf3 lines Hlines. apply IH.
    rewrite <- app_assoc. cbn [app]. now apply tokens_snoc. }
  destruct (c =? DQUOTE).
  - destruct (extract_string buf2) as [text buf3 | code |] eqn:Es;
      [| | exact I].
    + apply Hnext. apply token_text; [simpl; tauto |].
      unfold extract_string in Es.
      apply extract_string_loop_bound in Es;
        [lia | cbn [length]; lia | constructor].
    + apply Hexit. unfold extract_string in Es.
      apply extract_string_loop_exit in Es. cbn [In] in Es.
      unfold LEXER_ERROR_IDENTIFIER_NAME_TOO_LONG,
        LEXER_ERROR_NON_ESCAPED_NEWLINE,
        LEXER_ERROR_STRING_LITERAL_TOO_LONG,
        LEXER_ERROR_INVALID_STRING_CHARACTER in *.
      lia.
  - destruct (negb (isname c)).
    + pose proof (extract_terminal_names buf2) as Ht.
      destruct (extract_terminal buf2) as [[t |] buf3]; cbn [fst] in Ht.
      * apply Hnext. apply token_plain, in_or_app. right.
        now apply Ht.
      * apply Hexit. unfold LEXER_ERROR_IDENTIFIER_NAME_TOO_LONG,
          LEXER_ERROR_NON_ESCAPED_NEWLINE, LEXER_ERROR_INVALID_CHARACTER.
        lia.
    + destruct (extract_general_name buf2) as [name buf3 | code |] eqn:En;
        [| | exact I].
      * unfold extract_general_name in En.
        rewrite current_char_lookup_cur in En.
        apply extract_general_name_loop_bound in En;
          [| cbn [length]; unfold GENERAL_NAME_MAX_SIZE; lia].
        pose proof (classify_name_shape name ltac:(lia)) as Hcl.
        destruct (classify_name name) as [code | lines].
        -- apply Hexit.
           unfold LEXER_ERROR_IDENTIFIER_NAME_TOO_LONG,
             LEXER_ERROR_NON_ESCAPED_NEWLINE,
             LEXER_ERROR_WRONG_INTEGER32_FORMAT,
             LEXER_ERROR_UPPERCASE_BOOLEAN_KEYWORD in *.
           lia.
        -- apply Hnext, Hcl.
      * apply Hexit. unfold extract_general_name in En.
        rewrite current_char_lookup_cur in En.
        apply extract_general_name_loop_exit in En. subst code.
        unfold LEXER_ERROR_IDENTIFIER_NAME_TOO_LONG,
          LEXER_ERROR_NON_ESCAPED_NEWLINE.
        lia.
Qed.

(** X20.  Once the output file is open, whatever the bytes of the input,
    the scan either finishes, and then the output is a sequence of whole
    tokens (a line number, then the name of a keyword or of a terminal, or
    one of [integer], [string], [type], [identifier] and a text of at most
    1024 characters), or it stops with an exit code from 3 to 9, and then
    the output is such a sequence followed by the line number of the token
    that failed.  A comment is never an error. *)
Theorem lexer_output_shape (data : list Z) :
  match lexer data with
  | Finished out => tokens out
  | Exited code out =>
      LEXER_ERROR_IDENTIFIER_NAME_TOO_LONG <= code
      <= LEXER_ERROR_NON_ESCAPED_NEWLINE
      /\ exists toks n, tokens toks /\ out = toks ++ [LineNumber n]
  | NoFuel => False
  end.
Proof.
  unfold lexer.
  pose proof (lexer_loop_shape (S (length data))
                (init_buffer (mkFILE data 0)) [] tokens_nil) as Hshape.
  pose proof (lexer_loop_ends (S (length data)) (init_buffer (mkFILE data 0))
                [] (sa_wf _ _ _ (proj1 (init_buffer_stream data)))) as Hend.
  destruct (lexer_loop (S (length data)) (init_buffer (mkFILE data 0)) []);
    [exact Hshape | exact Hshape |].
  apply Hend; [| reflexivity].
  unfold remaining.
  rewrite (sa_pending _ _ _ (proj1 (init_buffer_stream data))). lia.
Qed.

(** * String literals: every outcome *)

(** The state after a lookup, as a stream: the same, or one byte 255
    further. *)
Lemma next_char_lookup_stream buf prev rest :
  stream_at buf prev rest -> bytes rest ->
  exists buf1,
    next_char_lookup buf = (lookahead rest, buf1)
    /\ (stream_at buf1 prev rest
        \/ (lookahead rest = EOF
            /\ exists r, rest = 255 :: r /\ stream_at buf1 prev r)).
Proof.
  intros Hs Hb.
  pose proof (next_char_lookup_measure buf (sa_wf _ _ _ Hs)) as [Hwf1 _].
  pose proof (next_char_lookup_cur buf) as Hcur.
  pose proof (next_char_lookup_pending buf (sa_wf _ _ _ Hs)) as Hp.
  assert (Hla : fst (next_char_lookup buf) = lookahead rest).
  { destruct rest as [| b r].
    - now rewrite (next_char_lookup_nil buf prev Hs).
    - exact (next_char_lookup_fst buf prev b r Hs). }
  destruct (next_char_lookup buf) as [la buf1]. cbn [fst snd] in *.
  subst la. exists buf1. split; [reflexivity |].
  rewrite (sa_pending _ _ _ Hs), (sa_cur _ _ _ Hs) in *.
  destruct Hp as [Hp | (Heof & i & Hp)].
  - left. now constructor.
  - right. split; [exact Heof |].
    exists (pending buf1). split; [| now constructor].
    rewrite Hp in *. f_equal.
    inversion Hb as [| x l Hi _]; subst x l.
    cbn [lookahead] in Heof. unfold char_of_byte, EOF in Heof.
    destruct (i <? 128) eqn:E; lia.
Qed.

Lemma last_app_default (l1 l2 : list Z) (d : Z) :
  last (l1 ++ l2) d = last l2 (last l1 d).
Proof.
  revert d. induction l1 as [| a l1 IH]; intros d; [reflexivity |].
  cbn [app]. now rewrite !last_cons_shift.
Qed.

Lemma bytes_app l1 l2 : bytes (l1 ++ l2) -> bytes l1 /\ bytes l2.
Proof. apply Forall_app. Qed.

Lemma byte_char_is b c :
  0 <= b < 256 -> 0 <= c < 128 -> char_of_byte b = c <-> b = c.
Proof.
  intros Hb Hc. split; [now apply char_of_byte_inj |].
  intros ->. now apply char_of_byte_small.
Qed.

Lemma lookahead_app l1 l2 :
  lookahead (l1 ++ l2) <> NEWLINE -> lookahead l1 <> NEWLINE.
Proof. destruct l1; [discriminate | easy]. Qed.

Lemma literal_text_cons_length b l :
  (b = BACKSLASH -> lookahead l <> NEWLINE) -> bytes l ->
  (S (length (literal_text l)) <= length (literal_text (b :: l)))%nat.
Proof.
  intros Hb Hl. destruct l as [| n r]; [cbn; lia |].
  inversion Hl as [| x l Hn _]; subst x l.
  change (literal_text (b :: n :: r))
    with (if (b =? BACKSLASH) && (n =? NEWLINE) then literal_text r
          else char_of_byte b :: literal_text (n :: r)).
  destruct (Z.eqb_spec b BACKSLASH) as [E | _]; [| cbn [andb length]; lia].
  destruct (Z.eqb_spec n NEWLINE) as [-> | _]; [| cbn [andb length]; lia].
  exfalso. now apply (Hb E).
Qed.

(** Every outcome of the loop of [extract_string], in terms of the bytes it
    takes.  [p] is the byte taken last. *)
Lemma extract_string_loop_outcome fuel :
  forall buf acc p,
    wf buf -> bytes (pending buf) ->
    (p = BACKSLASH -> cur buf = BACKSLASH) ->
    (p = BACKSLASH -> lookahead (pending buf) <> NEWLINE) ->
    match extract_string_loop fuel buf acc with
    | OutOfFuel => True
    | Ok text buf' =>
        exists body,
          pending buf = body ++ DQUOTE :: pending buf'
          /\ ~ In NUL body
          /\ last body p <> BACKSLASH
    | Exit code =>
        exists consumed rest,
          pending buf = consumed ++ rest
          /\ ~ In NUL consumed
          /\ (code = LEXER_ERROR_INVALID_STRING_CHARACTER
              \/ (code = LEXER_ERROR_STRING_LITERAL_TOO_LONG
                  /\ (LITERAL_STRING_MAX_SIZE
                      <= length acc + length (literal_text consumed))%nat
                  /\ (last consumed p = BACKSLASH ->
                      lookahead rest <> NEWLINE))
              \/ (code = LEXER_ERROR_NON_ESCAPED_NEWLINE
                  /\ exists pre c post,
                      consumed = pre ++ [c]
                      /\ rest = NEWLINE :: post
                      /\ c <> BACKSLASH
                      /\ (c = NEWLINE -> last pre p <> BACKSLASH)))
    end.
Proof.
  induction fuel as [| fuel IH]; intros buf acc p Hwf Hbytes H1 H2;
    [exact I |].
  cbn [extract_string_loop].
  destruct (Nat.eqb_spec (length acc) LITERAL_STRING_MAX_SIZE) as [E | Hne].
  { exists [], (pending buf). split; [reflexivity |]. split; [easy |].
    right. left. split; [reflexivity |].
    split; [cbn [literal_text length]; lia | exact H2]. }
  rewrite current_char_lookup_cur.
  pose proof (stream_at_self buf Hwf) as Hs.
  destruct (pending buf) as [| b r] eqn:Epend.
  { destruct (next_char_nil buf _ Hs) as (buf1 & Hn & _).
    rewrite Hn. chars. rewrite andb_false_r. cbn [orb].
    exists [], []. split; [reflexivity |]. split; [easy | now left]. }
  destruct (next_char_cons buf _ b r Hs) as (buf1 & Hn & Hs1 & _).
  rewrite Hn.
  inversion Hbytes as [| x l Hb Hr]; subst x l.
  destruct (negb (cur buf =? BACKSLASH) && (char_of_byte b =? DQUOTE))
    eqn:Eclose.
  { apply andb_prop in Eclose. destruct Eclose as [Ep Eq].
    apply negb_true_iff, Z.eqb_neq in Ep. apply Z.eqb_eq in Eq.
    apply (byte_char_is b DQUOTE Hb ltac:(unfold DQUOTE; lia)) in Eq.
    subst b. exists []. rewrite (sa_pending _ _ _ Hs1).
    split; [reflexivity |]. split; [easy |].
    cbn [last]. intros Hp. now apply Ep, H1. }
  destruct (Z.eqb_spec (char_of_byte b) NUL) as [E0 | N0].
  { exists [], (b :: r). split; [reflexivity |]. split; [easy | now left]. }
  destruct (Z.eqb_spec (char_of_byte b) EOF) as [E1 | N1].
  { exists [], (b :: r). split; [reflexivity |]. split; [easy | now left]. }
  cbn [orb].
  assert (Hb0 : b <> NUL).
  { intros ->. now apply N0. }
  assert (Hcb : b = BACKSLASH -> char_of_byte b = BACKSLASH).
  { now intros ->. }
  destruct (next_char_lookup_stream buf1 _ r Hs1 Hr)
    as (buf2 & Hlook & Hcase).
  rewrite Hlook.
  destruct (Z.eqb_spec (lookahead r) NEWLINE) as [Enl | Nnl].
  - (* a newline comes next *)
    destruct r as [| n r']; [discriminate Enl |].
    cbn [lookahead] in Enl.
    inversion Hr as [| x l Hn' Hr']; subst x l.
    apply (byte_char_is n NEWLINE Hn' ltac:(unfold NEWLINE; lia)) in Enl.
    subst n.
    destruct Hcase as [Hs2 | (Heof & _)]; [| discriminate Heof].
    destruct (Z.eqb_spec (char_of_byte b) BACKSLASH) as [Ebs | Nbs].
    + apply (byte_char_is b BACKSLASH Hb ltac:(unfold BACKSLASH; lia)) in Ebs.
      subst b.
      destruct (next_char_cons buf2 _ _ _ Hs2) as (buf3 & Hn3 & Hs3 & _).
      rewrite Hn3.
      specialize (IH buf3 acc NEWLINE (sa_wf _ _ _ Hs3)).
      rewrite (sa_pending _ _ _ Hs3) in IH.
      specialize (IH Hr' ltac:(discriminate) ltac:(discriminate)).
      destruct (extract_string_loop fuel buf3 acc) as [text buf' | code |];
        [| | exact I].
      * destruct IH as (body & Hp & Hnul & Hlast).
        exists (BACKSLASH :: NEWLINE :: body).
        split; [now rewrite Hp |]. split.
        -- intros [H | [H | H]]; [discriminate H | discriminate H | auto].
        -- now rewrite !last_cons_shift.
      * destruct IH as (consumed & rest & Hp & Hnul & Hcode).
        exists (BACKSLASH :: NEWLINE :: consumed), rest.
        split; [now rewrite Hp |]. split.
        { intros [H | [H | H]]; [discriminate H | discriminate H | auto]. }
        destruct Hcode as [H8 | [(H4 & Hlen & Hbd) | (H9 & pre & c & post
                                                     & Hc & Hrest & Hc1 & Hc2)]].
        -- now left.
        -- right. left. split; [exact H4 |]. split.
           ++ change (literal_text (BACKSLASH :: NEWLINE :: consumed))
                with (literal_text consumed). exact Hlen.
           ++ now rewrite !last_cons_shift.
        -- right. right. split; [exact H9 |].
           exists (BACKSLASH :: NEWLINE :: pre), c, post.
           split; [now rewrite Hc |]. split; [exact Hrest |].
           split; [exact Hc1 |]. now rewrite !last_cons_shift.
    + exists [b], (NEWLINE :: r'). split; [reflexivity |]. split.
      { intros [H | H]; [now apply Hb0 | exact H]. }
      right. right. split; [reflexivity |].
      exists [], b, r'. split; [reflexivity |]. split; [reflexivity |].
      split.
      * intros E. now apply Nbs, Hcb.
      * intros -> Hp. cbn [last] in Hp.
        apply (H2 Hp). reflexivity.
  - (* the character is stored *)
    destruct Hcase as [Hs2 | (Heof & r' & -> & Hs2)].
    + specialize (IH buf2 (acc ++ [char_of_byte b]) b (sa_wf _ _ _ Hs2)).
      rewrite (sa_pending _ _ _ Hs2), (sa_cur _ _ _ Hs2) in IH.
      specialize (IH Hr Hcb (fun _ => Nnl)).
      destruct (extract_string_loop fuel buf2 (acc ++ [char_of_byte b]))
        as [text buf' | code |]; [| | exact I].
      * destruct IH as (body & Hp & Hnul & Hlast).
        exists (b :: body). split; [now rewrite Hp |]. split.
        -- intros [H | H]; [now apply Hb0 | auto].
        -- now rewrite last_cons_shift.
      * destruct IH as (consumed & rest & Hp & Hnul & Hcode).
        exists (b :: consumed), rest.
        split; [now rewrite Hp |]. split.
        { intros [H | H]; [now apply Hb0 | auto]. }
        destruct Hcode as [H8 | [(H4 & Hlen & Hbd) | (H9 & pre & c & post
                                                     & Hc & Hrest & Hc1 & Hc2)]].
        -- now left.
        -- right. left. split; [exact H4 |]. split.
           ++ rewrite length_app in Hlen. cbn [length] in Hlen.
              pose proof (literal_text_cons_length b consumed) as Hl.
              rewrite Hp in Nnl, Hr.
              specialize (Hl (fun _ => lookahead_app _ _ Nnl)
                             (proj1 (bytes_app _ _ Hr))).
              lia.
           ++ now rewrite last_cons_shift.
        -- right. right. split; [exact H9 |].
           exists (b :: pre), c, post.
           split; [now rewrite Hc |]. split; [exact Hrest |].
           split; [exact Hc1 |]. now rewrite last_cons_shift.
    + inversion Hr as [| x l _ Hr']; subst x l.
      specialize (IH buf2 (acc ++ [char_of_byte b]) 255 (sa_wf _ _ _ Hs2)).
      rewrite (sa_pending _ _ _ Hs2) in IH.
      specialize (IH Hr' ltac:(discriminate) ltac:(discriminate)).
      destruct (extract_string_loop fuel buf2 (acc ++ [char_of_byte b]))
        as [text buf' | code |]; [| | exact I].
      * destruct IH as (body & Hp & Hnul & Hlast).
        exists (b :: 255 :: body). split; [now rewrite Hp |]. split.
        -- intros [H | [H | H]]; [now apply Hb0 | discriminate H | auto].
        -- now rewrite !last_cons_shift.
      * destruct IH as (consumed & rest & Hp & Hnul & Hcode).
        exists (b :: 255 :: consumed), rest.
        split; [now rewrite Hp |]. split.
        { intros [H | [H | H]]; [now apply Hb0 | discriminate H | auto]. }
        destruct Hcode as [H8 | [(H4 & Hlen & Hbd) | (H9 & pre & c & post
                                                     & Hc & Hrest & Hc1 & Hc2)]].
        -- now left.
        -- right. left. split; [exact H4 |]. split.
           ++ rewrite length_app in Hlen. cbn [length] in Hlen.
              rewrite Hp in Hr'.
              pose proof (literal_text_cons_length 255 consumed
                            ltac:(discriminate)
                            (proj1 (bytes_app _ _ Hr'))) as Hl1.
              pose proof (literal_text_cons_length b (255 :: consumed)
                            ltac:(intros _; discriminate)) as Hl2.
              specialize (Hl2 ltac:(constructor;
                                    [lia | exact (proj1 (bytes_app _ _ Hr'))])).
              lia.
           ++ now rewrite !last_cons_shift.
        -- right. right. split; [exact H9 |].
           exists (b :: 255 :: pre), c, post.
           split; [now rewrite Hc |]. split; [exact Hrest |].
           split; [exact Hc1 |]. now rewrite !last_cons_shift.
Qed.

Lemma nul_free_prefix l1 :
  forall r1 lit tail,
    l1 ++ r1 = lit ++ tail -> ~ In NUL l1 ->
    tail = [] \/ (exists rest, tail = NUL :: rest) ->
    exists post, lit = l1 ++ post /\ r1 = post ++ tail.
Proof.
  induction l1 as [| a l1 IH]; intros r1 lit tail Heq Hnul Htail.
  - exists lit. now split.
  - destruct lit as [| x lit].
    + exfalso. cbn [app] in Heq.
      destruct Htail as [-> | (rest & ->)]; [discriminate Heq |].
      injection Heq as Ha _. apply Hnul. now left.
    + cbn [app] in Heq. injection Heq as -> Heq.
      destruct (IH r1 lit tail Heq) as (post & -> & ->);
        [intros H; apply Hnul; now right | exact Htail |].
      exists post. now split.
Qed.

Lemma unclosed_split body :
  forall p post,
    unclosed p (body ++ DQUOTE :: post) = true -> last body p = BACKSLASH.
Proof.
  induction body as [| b body IH]; intros p post H.
  - cbn [app unclosed] in H. apply andb_prop in H. destruct H as [H _].
    rewrite Z.eqb_refl in H. cbn [negb] in H. rewrite orb_false_r in H.
    now apply Z.eqb_eq in H.
  - cbn [app unclosed] in H. apply andb_prop in H. destruct H as [_ H].
    rewrite last_cons_shift. exact (IH b post H).
Qed.

Lemma raw_newline_free_some pre :
  forall p2 a c post,
    raw_newline_free p2 (Some a) (pre ++ c :: NEWLINE :: post) = true ->
    c = BACKSLASH \/ (c = NEWLINE /\ last pre a = BACKSLASH).
Proof.
  induction pre as [| x pre IH]; intros p2 a c post H.
  - cbn [app raw_newline_free] in H.
    apply andb_prop in H. destruct H as [_ H].
    apply andb_prop in H. destruct H as [H _].
    rewrite Z.eqb_refl in H. cbn [negb orb] in H.
    apply orb_prop in H. destruct H as [H | H].
    + left. now apply Z.eqb_eq in H.
    + right. apply andb_prop in H. destruct H as [Hc Ha].
      apply Z.eqb_eq in Hc, Ha. now split.
  - cbn [app raw_newline_free] in H.
    apply andb_prop in H. destruct H as [_ H].
    rewrite last_cons_shift. exact (IH _ x c post H).
Qed.

Lemma raw_newline_free_none pre p2 c post d :
  raw_newline_free p2 None (pre ++ c :: NEWLINE :: post) = true ->
  c = BACKSLASH \/ (c = NEWLINE /\ pre <> [] /\ last pre d = BACKSLASH).
Proof.
  destruct pre as [| x pre]; intros H.
  - cbn [app raw_newline_free] in H.
    apply andb_prop in H. destruct H as [_ H].
    apply andb_prop in H. destruct H as [H _].
    rewrite Z.eqb_refl in H. cbn [negb orb] in H.
    apply orb_prop in H. destruct H as [H | H].
    + left. now apply Z.eqb_eq in H.
    + rewrite andb_false_r in H. discriminate H.
  - cbn [app raw_newline_free] in H.
    apply andb_prop in H. destruct H as [_ H].
    destruct (raw_newline_free_some pre _ x c post H) as [Hc | [Hc Hl]];
      [now left |].
    right. split; [exact Hc |]. split; [discriminate |].
    now rewrite last_cons_shift.
Qed.

(** The text of a prefix is no longer than the text of the whole, when the
    cut is not inside a backslash-newline pair. *)
Lemma literal_text_prefix n :
  forall l1 l2,
    (length l1 <= n)%nat ->
    (forall pre, l1 = pre ++ [BACKSLASH] -> lookahead l2 <> NEWLINE) ->
    (length (literal_text l1) <= length (literal_text (l1 ++ l2)))%nat.
Proof.
  induction n as [| n IH]; intros l1 l2 Hlen Hcut.
  - destruct l1; [cbn; lia | cbn [length] in Hlen; lia].
  - destruct l1 as [| b [| m r1]].
    + cbn. lia.
    + cbn [app]. destruct l2 as [| m r2]; [cbn; lia |].
      change (literal_text (b :: m :: r2))
        with (if (b =? BACKSLASH) && (m =? NEWLINE) then literal_text r2
              else char_of_byte b :: literal_text (m :: r2)).
      destruct (Z.eqb_spec b BACKSLASH) as [-> | _];
        [| cbn [andb literal_text length]; lia].
      destruct (Z.eqb_spec m NEWLINE) as [-> | _];
        [| cbn [andb literal_text length]; lia].
      exfalso. now apply (Hcut [] eq_refl).
    + change (literal_text (b :: m :: r1))
        with (if (b =? BACKSLASH) && (m =? NEWLINE) then literal_text r1
              else char_of_byte b :: literal_text (m :: r1)).
      change (literal_text ((b :: m :: r1) ++ l2))
        with (if (b =? BACKSLASH) && (m =? NEWLINE)
              then literal_text (r1 ++ l2)
              else char_of_byte b :: literal_text ((m :: r1) ++ l2)).
      cbn [length] in Hlen.
      destruct ((b =? BACKSLASH) && (m =? NEWLINE)).
      * apply IH; [lia |].
        intros pre ->. apply (Hcut (b :: m :: pre)). reflexivity.
      * cbn [length]. apply le_n_S. apply IH; [cbn [length]; lia |].
        intros pre Hpre. apply (Hcut (b :: pre)). now rewrite Hpre.
Qed.

(** A literal that no quote closes, without a raw newline and with a text
    that fits, ends at the null character or at the end of the input with
    code 8. *)
Lemma extract_string_unclosed buf lit tail :
  stream_at buf DQUOTE (lit ++ tail) ->
  bytes (lit ++ tail) ->
  tail = [] \/ (exists rest, tail = NUL :: rest) ->
  unclosed DQUOTE lit = true ->
  raw_newline_free None None lit = true ->
  (length (literal_text lit) < LITERAL_STRING_MAX_SIZE)%nat ->
  extract_string buf = Exit LEXER_ERROR_INVALID_STRING_CHARACTER.
Proof.
  intros Hs Hb Htail Hq Hnl Hlen.
  pose proof (extract_string_ends buf (sa_wf _ _ _ Hs)) as Hend.
  unfold extract_string in *.
  remember (S (length (pending buf))) as fuel eqn:Efuel.
  pose proof (extract_string_loop_outcome fuel buf [] DQUOTE
                (sa_wf _ _ _ Hs)) as Hout.
  rewrite (sa_pending _ _ _ Hs) in Hout.
  specialize (Hout Hb ltac:(discriminate) ltac:(discriminate)).
  destruct (extract_string_loop fuel buf [])
    as [text buf' | code |]; [| | contradiction].
  - exfalso. destruct Hout as (body & Hp & Hnul & Hlast).
    destruct (nul_free_prefix (body ++ [DQUOTE]) (pending buf') lit tail)
      as (post & Hlit & _).
    + now rewrite <- app_assoc.
    + intros H. apply in_app_or in H.
      destruct H as [H | [H | []]]; [auto | discriminate H].
    + exact Htail.
    + rewrite Hlit, <- app_assoc in Hq. cbn [app] in Hq.
      apply Hlast. exact (unclosed_split body DQUOTE post Hq).
  - destruct Hout as (consumed & rest & Hp & Hnul & Hcode).
    destruct Hcode as [-> | [(_ & Hfull & Hcut) | (_ & pre & c & post
                                                  & -> & -> & Hc1 & Hc2)]].
    + reflexivity.
    + exfalso.
      destruct (nul_free_prefix consumed rest lit tail (eq_sym Hp) Hnul Htail)
        as (post & -> & ->).
      pose proof (literal_text_prefix (length consumed) consumed post
                    (le_n _)) as Hle.
      cbn [length] in Hfull.
      assert (length (literal_text consumed)
              <= length (literal_text (consumed ++ post)))%nat; [| lia].
      apply Hle. intros pre ->. apply (lookahead_app post tail).
      apply Hcut. apply last_last.
    + exfalso.
      destruct (nul_free_prefix (pre ++ [c]) (NEWLINE :: post) lit tail
                  (eq_sym Hp) Hnul Htail) as (post' & Hlit & Hrest).
      destruct post' as [| n post'].
      * cbn [app] in Hrest.
        destruct Htail as [-> | (r & ->)]; discriminate Hrest.
      * cbn [app] in Hrest. injection Hrest as <- _.
        rewrite Hlit, <- app_assoc in Hnl. cbn [app] in Hnl.
        destruct (raw_newline_free_none pre None c post' DQUOTE Hnl)
          as [E | (E & _ & Hl)]; [contradiction |].
        now apply (Hc2 E).
Qed.

(** C6.  A literal that holds a null character, or that is still open at the
    end of the input, ends the scan with code 8: [lit] is the content after
    the opening quote up to that null character or to the end of the input,
    any bytes, which raises none of the two errors that are checked before
    (no raw newline, a text of fewer than 1024 characters) and in which no
    quote closes the literal.  [extract_string] exits with code 8, and so
    does the main loop that met the opening quote, after the line number. *)
Theorem string_null_or_eof lit tail :
  bytes (lit ++ tail) ->
  tail = [] \/ (exists rest, tail = NUL :: rest) ->
  unclosed DQUOTE lit = true ->
  raw_newline_free None None lit = true ->
  (length (literal_text lit) < LITERAL_STRING_MAX_SIZE)%nat ->
  (forall buf,
      stream_at buf DQUOTE (lit ++ tail) ->
      extract_string buf = Exit LEXER_ERROR_INVALID_STRING_CHARACTER)
  /\ (forall fuel buf prev out,
         stream_at buf prev (DQUOTE :: lit ++ tail) ->
         lexer_loop (S fuel) buf out
         = Exited LEXER_ERROR_INVALID_STRING_CHARACTER
                  (out ++ [LineNumber (current_line buf)]))
  /\ lexer (DQUOTE :: lit ++ tail)
     = Exited LEXER_ERROR_INVALID_STRING_CHARACTER [LineNumber 1].
Proof.
  intros Hb Htail Hq Hnl Hlen.
  assert (Hext : forall buf,
             stream_at buf DQUOTE (lit ++ tail) ->
             extract_string buf = Exit LEXER_ERROR_INVALID_STRING_CHARACTER).
  { intros buf Hs.
    exact (extract_string_unclosed buf lit tail Hs Hb Htail Hq Hnl Hlen). }
  assert (Hloop : forall fuel buf prev out,
             stream_at buf prev (DQUOTE :: lit ++ tail) ->
             lexer_loop (S fuel) buf out
             = Exited LEXER_ERROR_INVALID_STRING_CHARACTER
                      (out ++ [LineNumber (current_line buf)])).
  { intros fuel buf prev out Hs.
    destruct (lexer_loop_string fuel buf prev _ out Hs)
      as (buf1 & Hs1 & _ & Hrun).
    rewrite Hrun, (Hext buf1 Hs1). reflexivity. }
  split; [exact Hext |]. split; [exact Hloop |].
  unfold lexer.
  destruct (init_buffer_stream (DQUOTE :: lit ++ tail)) as [Hs Hline].
  rewrite (Hloop _ _ EOF [] Hs), Hline. reflexivity.
Qed.

Lemma string_null_or_eof_witness :
  lexer (DQUOTE :: cstr "ab") = Exited 8 [LineNumber 1]
  /\ lexer (DQUOTE :: cstr "ab" ++ [NUL; DQUOTE]) = Exited 8 [LineNumber 1]
  /\ lexer (DQUOTE :: NEWLINE :: cstr "ab") = Exited 8 [LineNumber 1]
  /\ lexer (DQUOTE :: cstr "a" ++ [255] ++ cstr "b")
     = Exited 8 [LineNumber 1].
Proof.
  assert (Hb : forall l,
             forallb (fun b => (0 <=? b) && (b <? 256)) l = true -> bytes l).
  { intros l H. unfold bytes. rewrite forallb_forall in H.
    apply Forall_forall. intros x Hx. specialize (H x Hx). lia. }
  split; [| split; [| split]].
  - rewrite <- (app_nil_r (cstr "ab")).
    apply (string_null_or_eof (cstr "ab") []);
      [apply Hb; reflexivity | now left | reflexivity | reflexivity
      | unfold LITERAL_STRING_MAX_SIZE; simpl; lia].
  - apply (string_null_or_eof (cstr "ab") [NUL; DQUOTE]);
      [apply Hb; reflexivity | right; now exists [DQUOTE] | reflexivity
      | reflexivity | unfold LITERAL_STRING_MAX_SIZE; simpl; lia].
  - rewrite <- (app_nil_r (NEWLINE :: cstr "ab")).
    apply (string_null_or_eof (NEWLINE :: cstr "ab") []);
      [apply Hb; reflexivity | now left | reflexivity | reflexivity
      | unfold LITERAL_STRING_MAX_SIZE; simpl; lia].
  - rewrite <- (app_nil_r (cstr "a" ++ [255] ++ cstr "b")).
    apply (string_null_or_eof (cstr "a" ++ [255] ++ cstr "b") []);
      [apply Hb; reflexivity | now left | reflexivity | reflexivity
      | unfold LITERAL_STRING_MAX_SIZE; simpl; lia].
Defined.

(** * The byte 255 *)

(** X21.  The byte 255 is read as the end of the input: when the main loop
    meets it where a token may start, the scan ends normally there, with
    what was written before and with the rest of the file unread. *)
Theorem byte_255_ends_scan :
  (forall fuel buf prev rest out,
      stream_at buf prev (255 :: rest) ->
      lexer_loop (S fuel) buf out = Finished out)
  /\ (forall rest, lexer (255 :: rest) = Finished []).
Proof.
  assert (Hloop : forall fuel buf prev rest out,
             stream_at buf prev (255 :: rest) ->
             lexer_loop (S fuel) buf out = Finished out).
  { intros fuel buf prev rest out Hs.
    destruct (next_char_cons buf prev _ _ Hs) as (buf1 & Hn & _).
    cbn [lexer_loop]. rewrite Hn. reflexivity. }
  split; [exact Hloop |].
  intros rest. unfold lexer.
  exact (Hloop _ _ EOF rest [] (proj1 (init_buffer_stream (255 :: rest)))).
Qed.

Lemma byte_255_ends_scan_witness :
  lexer_loop 3 (init_buffer (mkFILE (255 :: cstr "x") 0)) [] = Finished [].
Proof.
  apply (proj1 byte_255_ends_scan 2%nat _ EOF (cstr "x")).
  stream_by_compute.
Defined.
